(** * pdf_scrapper: race-result extraction from text, tables and HTML

    A shallow embedding of the text-table heuristics of
    [final_pdf_scraper.py], the table-row mapper, the text fallback and the
    page loop of [pdf_scraper.py], and the table reader and the CSV sinks of
    [tfrrs_scraper.py], with the properties of the specification stated over
    them.

    Text is modelled as a list of characters, a character as Stdlib's
    [ascii], read as a code point from U+0000 to U+00FF.  The character
    classes ([isdigit], [isspace], [\s], [\d], [upper], [lower]) are those
    Python gives to these code points; text with code points from U+0100 on
    is outside the model.  What the code leaves to raise is modelled as it
    is: [int] on a string that is not decimal, the calls to the file system
    and [print]. *)

From Stdlib Require Import Ascii String DecimalString.
From Stdlib Require Import List Bool Arith ZArith Lia.
Import ListNotations.

Set Implicit Arguments.

Abbreviation str := (list ascii).

(** String literals stand for their list of characters. *)
Coercion list_ascii_of_string : string >-> list.

Local Open Scope string_scope.
Local Open Scope nat_scope.
Local Open Scope list_scope.

(* ================================================================= *)
(** ** Characters and Python's string methods *)

Module Py.

Definition code (c : ascii) : nat := nat_of_ascii c.

Definition in_range (lo hi : nat) (c : ascii) : bool :=
  (lo <=? code c) && (code c <=? hi).

(** [0-9]: what [\d] accepts. *)
Definition is_digit (c : ascii) : bool := in_range 48 57 c.

(** What [str.isdigit] accepts: the decimal digits and the superscripts
    U+00B2, U+00B3 and U+00B9. *)
Definition is_digit_char (c : ascii) : bool :=
  is_digit c || (code c =? 178) || (code c =? 179) || (code c =? 185).

(** [A-Z] and [a-z]. *)
Definition is_upper (c : ascii) : bool := in_range 65 90 c.
Definition is_lower (c : ascii) : bool := in_range 97 122 c.
Definition is_alpha (c : ascii) : bool := is_upper c || is_lower c.

(** [\s], [str.isspace] and the characters [str.strip()] removes: tab, line
    feed, vertical tab, form feed, carriage return, the four separators
    U+001C to U+001F, space, next line U+0085 and no-break space U+00A0. *)
Definition is_space (c : ascii) : bool :=
  in_range 9 13 c || in_range 28 32 c || (code c =? 133) || (code c =? 160).

Definition newline : ascii := ascii_of_nat 10.
Definition space : ascii := ascii_of_nat 32.

(** [str.upper()], character by character: [a-z] and the small letters
    U+00E0 to U+00FE (but the division sign U+00F7) move down by 32, and the
    sharp s U+00DF becomes [SS].  The capitals of the micro sign U+00B5 and
    of U+00FF lie beyond U+00FF; the two stand for their capitals here,
    which like them are neither white space nor digits nor letters of
    [A-Z], all that the scrapers ask of upper-cased text. *)
Definition upper_char (c : ascii) : str :=
  if is_lower c then [ascii_of_nat (code c - 32)]
  else if code c =? 223 then "SS"
  else if in_range 224 254 c && negb (code c =? 247)
       then [ascii_of_nat (code c - 32)]
  else [c].

Definition upper (s : str) : str := flat_map upper_char s.

(** [s.isdigit()]: non-empty, and every character a digit of [str.isdigit]. *)
Definition isdigit (s : str) : bool :=
  match s with
  | [] => false
  | _ => forallb is_digit_char s
  end.

(** The exceptions the scrapers meet, and a value or an exception raised. *)
Inductive exn : Type := ValueError | OSError | UnicodeEncodeError.

Inductive result (A : Type) : Type :=
| Ok (a : A)
| Raise (e : exn).

Arguments Ok {A} a.
Arguments Raise {A} e.

Definition bind {A B} (m : result A) (k : A -> result B) : result B :=
  match m with
  | Ok a => k a
  | Raise e => Raise e
  end.

(** [s.lstrip()], [s.rstrip()] and [s.strip()]. *)
Fixpoint lstrip (s : str) : str :=
  match s with
  | c :: s' => if is_space c then lstrip s' else s
  | [] => []
  end.

Definition rstrip (s : str) : str := rev (lstrip (rev s)).

Definition strip (s : str) : str := rstrip (lstrip s).

(** The value of a string of decimal digits. *)
Definition digit_val (c : ascii) : Z := Z.of_nat (code c - 48).

Definition decimal (s : str) : Z :=
  fold_left (fun acc c => (10 * acc + digit_val c)%Z) s 0%Z.

(** Decimal digits, at least one, with single underscores allowed between
    two of them; [after_digit] tells that the previous character was a
    digit. *)
Fixpoint digit_groups (after_digit : bool) (s : str) : bool :=
  match s with
  | [] => after_digit
  | c :: s' =>
      if is_digit c then digit_groups true s'
      else if Ascii.eqb c "_" then after_digit && digit_groups false s'
      else false
  end.

(** The white space [int] drops at either end of its argument: that of
    [str.isspace] but the four separators U+001C to U+001F. *)
Definition is_int_space (c : ascii) : bool :=
  in_range 9 13 c || (code c =? 32) || (code c =? 133) || (code c =? 160).

Fixpoint drop_int_space (s : str) : str :=
  match s with
  | c :: s' => if is_int_space c then drop_int_space s' else s
  | [] => []
  end.

(** [int(s)]: white space at either end is dropped, a sign may come first,
    then come decimal digits with single underscores allowed between them;
    anything else, a superscript digit for one, is a [ValueError]. *)
Definition int (s : str) : result Z :=
  let t := rev (drop_int_space (rev (drop_int_space s))) in
  let '(negative, body) :=
    match t with
    | c :: rest =>
        if Ascii.eqb c "-" then (true, rest)
        else if Ascii.eqb c "+" then (false, rest)
        else (false, t)
    | [] => (false, t)
    end in
  if digit_groups false body then
    let n := decimal (filter is_digit body) in
    Ok (if negative then (- n)%Z else n)
  else Raise ValueError.

(** [s.startswith(p)]. *)
Fixpoint startswith (p s : str) : bool :=
  match p, s with
  | [], _ => true
  | a :: p', b :: s' => Ascii.eqb a b && startswith p' s'
  | _ :: _, [] => false
  end.

(** [p in s] on strings: [p] occurs in [s] as a substring. *)
Fixpoint contains (p s : str) : bool :=
  startswith p s ||
  match s with
  | [] => false
  | _ :: s' => contains p s'
  end.

(** [sep.join(parts)]. *)
Fixpoint join (sep : str) (parts : list str) : str :=
  match parts with
  | [] => []
  | [p] => p
  | p :: ps => p ++ sep ++ join sep ps
  end.

(** [s.split('\n')], splitting at every line feed; the result is never
    empty. *)
Fixpoint split_lines (s : str) : list str :=
  match s with
  | [] => [[]]
  | c :: s' =>
      if Ascii.eqb c newline then [] :: split_lines s'
      else match split_lines s' with
           | l :: ls => (c :: l) :: ls
           | [] => [[c]]
           end
  end.

(** [re.split(r'\s+', s)]: the pieces between maximal runs of white space,
    with an empty piece in front of a leading run and behind a trailing one.
    [in_ws] tells that the previous character was white space. *)
Fixpoint split_ws_from (in_ws : bool) (s : str) : list str :=
  match s with
  | [] => [[]]
  | c :: s' =>
      if is_space c then
        if in_ws then split_ws_from true s' else [] :: split_ws_from true s'
      else match split_ws_from false s' with
           | t :: ts => (c :: t) :: ts
           | [] => [[c]]
           end
  end.

Definition split_ws (s : str) : list str := split_ws_from false s.

(** [str(n)] for a natural number. *)
Definition str_of_nat (n : nat) : str :=
  list_ascii_of_string (NilEmpty.string_of_uint (Nat.to_uint n)).

(** Slices [l[a:b]] and [l[1:-1]]. *)
Definition slice {A} (a b : nat) (l : list A) : list A :=
  firstn (b - a) (skipn a l).

Definition interior {A} (l : list A) : list A :=
  removelast (tl l).

End Py.

(* ================================================================= *)
(** ** Regular expressions of the [re] module *)

Module Re.

(** The fragment the scrapers use: character classes, concatenation,
    ordered alternatives, greedy repetition and the anchors [^] and [$]. *)
Inductive regex : Type :=
| Eps
| Cls (p : ascii -> bool)
| Cat (r1 r2 : regex)
| Alt (r1 r2 : regex)
| Star (r : regex)
| Bol
| Eol.

Definition Chr (c : ascii) : regex := Cls (Ascii.eqb c).

(** A literal word. *)
Fixpoint Lit (s : str) : regex :=
  match s with
  | [] => Eps
  | [c] => Chr c
  | c :: s' => Cat (Chr c) (Lit s')
  end.

(** [r+], [r?] and [r{n}]; the greedy reading tries [r] first. *)
Definition Plus (r : regex) : regex := Cat r (Star r).
Definition Opt (r : regex) : regex := Alt r Eps.

Fixpoint Rep (n : nat) (r : regex) : regex :=
  match n with
  | 0 => Eps
  | 1 => r
  | S n' => Cat r (Rep n' r)
  end.

(** [r{0,n}], greedy. *)
Fixpoint UpTo (n : nat) (r : regex) : regex :=
  match n with
  | 0 => Eps
  | S n' => Opt (Cat r (UpTo n' r))
  end.

(** [Cat] over a list. *)
Fixpoint Seq (rs : list regex) : regex :=
  match rs with
  | [] => Eps
  | [r] => r
  | r :: rs' => Cat r (Seq rs')
  end.

Definition digit : regex := Cls Py.is_digit.
Definition ws : regex := Cls Py.is_space.
Definition alpha : regex := Cls Py.is_alpha.

Section Matcher.

Variable R : Type.

(** The greedy loop of a repetition over the matcher [m] of its body: one
    more iteration first, the continuation [k] when that fails.  An
    iteration that consumed nothing is given up, so [fuel], the length of
    the rest, bounds the number of iterations. *)
Fixpoint star_loop (m : nat -> str -> (nat -> str -> option R) -> option R)
    (k : nat -> str -> option R) (fuel : nat) (pos : nat) (s : str)
    : option R :=
  match fuel with
  | 0 => k pos s
  | S fuel' =>
      match m pos s
              (fun pos' s' =>
                 if pos' =? pos then None else star_loop m k fuel' pos' s') with
      | Some x => Some x
      | None => k pos s
      end
  end.

(** The backtracking matcher, in continuation-passing style: [rmatch r pos s k]
    matches [r] at the front of [s], which starts at offset [pos] of the
    subject, and hands the offset and the rest to [k]; when [k] refuses, the
    next alternative is tried, in the order [re] tries them. *)
Fixpoint rmatch (r : regex) (pos : nat) (s : str)
    (k : nat -> str -> option R) {struct r} : option R :=
  match r with
  | Eps => k pos s
  | Cls p =>
      match s with
      | c :: s' => if p c then k (S pos) s' else None
      | [] => None
      end
  | Cat r1 r2 => rmatch r1 pos s (fun pos' s' => rmatch r2 pos' s' k)
  | Alt r1 r2 =>
      match rmatch r1 pos s k with
      | Some x => Some x
      | None => rmatch r2 pos s k
      end
  | Star r1 => star_loop (rmatch r1) k (length s) pos s
  | Bol => if pos =? 0 then k pos s else None
  | Eol =>
      match s with
      | [] => k pos s
      | [c] => if Ascii.eqb c Py.newline then k pos s else None
      | _ => None
      end
  end.

End Matcher.

(** The end offset of the match of [r] at the front of [s]. *)
Definition match_at (r : regex) (pos : nat) (s : str) : option nat :=
  rmatch r pos s (fun e _ => Some e).

(** [re.match(r, s)]: a match at offset 0, not necessarily to the end. *)
Definition re_match (r : regex) (s : str) : option nat := match_at r 0 s.

(** The leftmost match at or after offset [pos], as (start, end). *)
Fixpoint search_from (r : regex) (pos : nat) (s : str) : option (nat * nat) :=
  match match_at r pos s with
  | Some e => Some (pos, e)
  | None =>
      match s with
      | [] => None
      | _ :: s' => search_from r (S pos) s'
      end
  end.

(** [re.search(r, s)]. *)
Definition re_search (r : regex) (s : str) : option (nat * nat) :=
  search_from r 0 s.

Definition matched {A} (o : option A) : bool :=
  match o with Some _ => true | None => false end.

(** [re.findall(r, s)] for a pattern whose only group spans the whole
    pattern: the matched substrings, left to right, not overlapping.  The
    scan resumes at the end of a match (one character further after an empty
    match). *)
Fixpoint findall_from (fuel : nat) (r : regex) (pos : nat) (s : str)
    : list str :=
  match fuel with
  | 0 => []
  | S fuel' =>
      match search_from r pos s with
      | None => []
      | Some (st, e) =>
          let s1 := skipn (st - pos) s in
          let adv := if e =? st then 1 else e - st in
          firstn (e - st) s1 :: findall_from fuel' r (st + adv) (skipn adv s1)
      end
  end.

Definition findall (r : regex) (s : str) : list str :=
  findall_from (S (length s)) r 0 s.

(** The words of a pattern, independently of any search order:
    [lang r pos w rest] says that [w] is a word of [r] when it stands at
    offset [pos] of the subject and is followed by [rest].  The offset and
    the rest are what the anchors look at. *)
Inductive lang : regex -> nat -> str -> str -> Prop :=
| L_Eps pos rest : lang Eps pos [] rest
| L_Cls (p : ascii -> bool) c pos rest :
    p c = true -> lang (Cls p) pos [c] rest
| L_Cat r1 r2 pos w1 w2 rest :
    lang r1 pos w1 (w2 ++ rest) ->
    lang r2 (pos + length w1) w2 rest ->
    lang (Cat r1 r2) pos (w1 ++ w2) rest
| L_AltL r1 r2 pos w rest : lang r1 pos w rest -> lang (Alt r1 r2) pos w rest
| L_AltR r1 r2 pos w rest : lang r2 pos w rest -> lang (Alt r1 r2) pos w rest
| L_Star0 r pos rest : lang (Star r) pos [] rest
| L_StarS r pos w1 w2 rest :
    w1 <> [] ->
    lang r pos w1 (w2 ++ rest) ->
    lang (Star r) (pos + length w1) w2 rest ->
    lang (Star r) pos (w1 ++ w2) rest
| L_Bol rest : lang Bol 0 [] rest
| L_Eol pos rest :
    rest = [] \/ rest = [Py.newline] -> lang Eol pos [] rest.

(** Every character, for checks that range over a character class. *)
Definition all_ascii : list ascii := map ascii_of_nat (seq 0 256).

(** No character of the class is white space. *)
Definition cls_clean (p : ascii -> bool) : bool :=
  forallb (fun c => negb (p c && Py.is_space c)) all_ascii.

(** Three checks on the shape of a pattern, each sufficient for what its
    name says of every word: the word is not empty; a non-empty word does
    not begin with white space; a non-empty word does not end with white
    space. *)
Fixpoint nonnull (r : regex) : bool :=
  match r with
  | Cls _ => true
  | Cat r1 r2 => nonnull r1 || nonnull r2
  | Alt r1 r2 => nonnull r1 && nonnull r2
  | Eps | Star _ | Bol | Eol => false
  end.

Fixpoint starts_clean (r : regex) : bool :=
  match r with
  | Cls p => cls_clean p
  | Cat r1 r2 => starts_clean r1 && (starts_clean r2 || nonnull r1)
  | Alt r1 r2 => starts_clean r1 && starts_clean r2
  | Star r1 => starts_clean r1
  | Eps | Bol | Eol => true
  end.

Fixpoint ends_clean (r : regex) : bool :=
  match r with
  | Cls p => cls_clean p
  | Cat r1 r2 => ends_clean r2 && (ends_clean r1 || nonnull r2)
  | Alt r1 r2 => ends_clean r1 && ends_clean r2
  | Star r1 => ends_clean r1
  | Eps | Bol | Eol => true
  end.

(** A check sufficient for every word to hold a character of class [q]. *)
Fixpoint demands (q : ascii -> bool) (r : regex) : bool :=
  match r with
  | Cls p => forallb (fun c => implb (p c) (q c)) all_ascii
  | Cat r1 r2 => demands q r1 || demands q r2
  | Alt r1 r2 => demands q r1 && demands q r2
  | Eps | Star _ | Bol | Eol => false
  end.

(** No anchor in the pattern. *)
Fixpoint anchor_free (r : regex) : bool :=
  match r with
  | Eps | Cls _ => true
  | Cat r1 r2 | Alt r1 r2 => anchor_free r1 && anchor_free r2
  | Star r1 => anchor_free r1
  | Bol | Eol => false
  end.

(** A check sufficient for every character of every word to be of class
    [q]. *)
Fixpoint all_in (q : ascii -> bool) (r : regex) : bool :=
  match r with
  | Cls p => forallb (fun c => implb (p c) (q c)) all_ascii
  | Cat r1 r2 | Alt r1 r2 => all_in q r1 && all_in q r2
  | Star r1 => all_in q r1
  | Eps | Bol | Eol => true
  end.

(** The first and the last character, when there is one, is not white
    space. *)
Definition head_clean (w : str) : Prop :=
  match w with
  | c :: _ => Py.is_space c = false
  | [] => True
  end.

Definition last_clean (w : str) : Prop := head_clean (rev w).

(** [r] has a word somewhere in [s]. *)
Definition occurs (r : regex) (s : str) : Prop :=
  exists pre w rest, s = pre ++ w ++ rest /\ lang r (length pre) w rest.

(** [pattern] decides among [patterns] on [text]: no word of an earlier
    pattern occurs in [text], and [w] is a word of [pattern] in [text] with
    no word of [pattern] starting further left. *)
Definition first_match_of (patterns : list regex) (text w : str) : Prop :=
  exists n pattern pre rest,
    nth_error patterns n = Some pattern /\
    (forall m p, m < n -> nth_error patterns m = Some p -> ~ occurs p text) /\
    text = pre ++ w ++ rest /\
    lang pattern (length pre) w rest /\
    (forall pre' w' rest',
        text = pre' ++ w' ++ rest' -> lang pattern (length pre') w' rest' ->
        length pre <= length pre').

Definition no_match_of (patterns : list regex) (text : str) : Prop :=
  forall p, In p patterns -> ~ occurs p text.

(** What the matcher is to be shown of: a result comes from a word of the
    pattern, and a word of the pattern whose continuation succeeds brings a
    result. *)
Definition sound_for (R : Type) (r : regex) : Prop :=
  forall pos s (k : nat -> str -> option R) x,
    rmatch r pos s k = Some x ->
    exists w rest,
      s = w ++ rest /\ lang r pos w rest /\ k (pos + length w) rest = Some x.

Definition complete_for (R : Type) (r : regex) : Prop :=
  forall pos w rest, lang r pos w rest ->
  forall (k : nat -> str -> option R) x,
    k (pos + length w) rest = Some x ->
    exists y, rmatch r pos (w ++ rest) k = Some y.

End Re.

(* ================================================================= *)
(** ** final_pdf_scraper.py: the text path *)

Module Final.

Import Py Re.

(** A record of the text path, with the keys of the source's dict. *)
Record Row : Type := mkRow {
  PL : str;
  NAME : str;
  YEAR : str;
  TEAM : str;
  TIME : str;
  SOURCE_FILE : str;
  EVENT_DATE : str
}.

(** *** [extract_event_date] *)

(** [\d{1,2}-?\d{0,2},? \d{4}], the tail shared by the two month patterns. *)
Definition day_year : list regex :=
  [ Chr " "; digit; Opt digit; Opt (Chr "-"); UpTo 2 digit; Opt (Chr ",");
    Chr " "; Rep 4 digit ].

Definition date_patterns : list regex :=
  [ Seq (Plus alpha :: day_year);
    Seq (Rep 3 alpha :: day_year);
    Seq [ Rep 4 digit; Chr "-"; digit; Opt digit; Chr "-"; digit; Opt digit ];
    Seq [ digit; Opt digit; Chr "/"; digit; Opt digit; Chr "/"; Rep 4 digit ];
    Seq [ digit; Opt digit; Chr "/"; digit; Opt digit; Chr "/"; Rep 4 digit ] ].

(** The loop over the patterns: the first pattern with a match decides. *)
Fixpoint first_date (patterns : list regex) (text : str) : str :=
  match patterns with
  | [] => []
  | pattern :: rest =>
      match findall pattern text with
      | m :: _ => strip m
      | [] => first_date rest text
      end
  end.

Definition extract_event_date (text : str) : str :=
  first_date date_patterns text.

(** *** [extract_all_table_data] *)

(** [a\s+b\s+c ...] for the words of a header. *)
Fixpoint spaced (words : list str) : list regex :=
  match words with
  | [] => []
  | [w] => [Lit w]
  | w :: rest => Lit w :: Plus ws :: spaced rest
  end.

Definition header_words (words : list str) : regex := Seq (spaced words).

(** [^WORD\s+]. *)
Definition header_start (w : str) : regex := Seq [Bol; Lit w; Plus ws].

Definition header_patterns : list regex :=
  [ header_words ["PL" : str; "NAME" : str; "YEAR" : str; "TEAM" : str; "TIME" : str];
    header_words ["PLACE" : str; "NAME" : str; "YEAR" : str; "TEAM" : str; "TIME" : str];
    header_words ["POS" : str; "NAME" : str; "YEAR" : str; "TEAM" : str; "TIME" : str];
    header_words ["RANK" : str; "NAME" : str; "YEAR" : str; "TEAM" : str; "TIME" : str];
    header_words ["PL" : str; "ATHLETE" : str; "YEAR" : str; "TEAM" : str; "TIME" : str];
    header_words ["PLACE" : str; "ATHLETE" : str; "YEAR" : str; "TEAM" : str; "TIME" : str];
    header_words ["PL" : str; "NAME" : str; "TEAM" : str; "TIME" : str];
    header_words ["PLACE" : str; "NAME" : str; "TEAM" : str; "TIME" : str];
    header_words ["POS" : str; "NAME" : str; "TEAM" : str; "TIME" : str];
    header_words ["RANK" : str; "NAME" : str; "TEAM" : str; "TIME" : str];
    header_words ["PL" : str; "ATHLETE" : str; "TEAM" : str; "TIME" : str];
    header_words ["PLACE" : str; "ATHLETE" : str; "TEAM" : str; "TIME" : str];
    header_start "PL";
    header_start "PLACE";
    header_start "POS";
    header_start "RANK" ].

(** [^(FR|SO|JR|SR|GR)[-]?\d*$]. *)
Definition year_code : regex :=
  Seq [ Bol;
        Alt (Lit "FR") (Alt (Lit "SO") (Alt (Lit "JR") (Alt (Lit "SR") (Lit "GR"))));
        Opt (Chr "-"); Star digit; Eol ].

(** [^[A-Z\s]+$]. *)
Definition section_line : regex :=
  Seq [ Bol; Plus (Cls (fun c => is_upper c || is_space c)); Eol ].

(** [\d+[:.]?\d*]. *)
Definition loose_time : regex :=
  Seq [ Plus digit;
        Opt (Cls (fun c => Ascii.eqb c ":" || Ascii.eqb c ".")); Star digit ].

(** [part.isdigit() and len(part) == 4 and 2020 <= int(part) <= 2030]:
    [int] is reached for four characters of [isdigit] only, and raises when
    one of them is a superscript. *)
Definition is_calendar_year (part : str) : result bool :=
  if isdigit part then
    if length part =? 4 then
      match int part with
      | Ok n => Ok ((2020 <=? n) && (n <=? 2030))%Z
      | Raise e => Raise e
      end
    else Ok false
  else Ok false.

(** [re.match(r'^(FR|SO|JR|SR|GR)[-]?\d*$', part.upper())]. *)
Definition is_year_code (part : str) : bool :=
  matched (re_match year_code (upper part)).

(** The inner loop of the look-ahead, over [check_parts[1:-1]]; no [try]
    stands around it. *)
Fixpoint any_year_part (parts : list str) : result bool :=
  match parts with
  | [] => Ok false
  | part :: rest =>
      match is_calendar_year part with
      | Raise e => Raise e
      | Ok true => Ok true
      | Ok false =>
          if is_year_code part then Ok true else any_year_part rest
      end
  end.

(** The look-ahead over [lines[i+1:i+6]], entered with [has_year] false. *)
Fixpoint peek_year (check_lines : list str) : result bool :=
  match check_lines with
  | [] => Ok false
  | check_line :: rest =>
      let check_parts := split_ws (strip check_line) in
      let has_year :=
        if 4 <=? length check_parts
        then any_year_part (interior check_parts) else Ok false in
      match has_year with
      | Raise e => Raise e
      | Ok true => Ok true
      | Ok false => peek_year rest
      end
  end.

Definition detect_year (lines : list str) (i : nat) (line_upper : str)
    : result bool :=
  let has_year := contains "YEAR" line_upper in
  if negb has_year then peek_year (slice (i + 1) (i + 6) lines)
  else Ok has_year.

(** The search for the year among [parts[1:-1]]: the token and
    [year_index], which stays -1 when there is none. *)
Fixpoint scan_year (i : nat) (parts : list str) : result (str * Z) :=
  match parts with
  | [] => Ok ([], (-1)%Z)
  | part :: rest =>
      match is_calendar_year part with
      | Raise e => Raise e
      | Ok true => Ok (part, (Z.of_nat i + 1)%Z)
      | Ok false =>
          if is_year_code part then Ok (part, (Z.of_nat i + 1)%Z)
          else scan_year (S i) rest
      end
  end.

Definition enumerate {A} (l : list A) : list (nat * A) :=
  combine (seq 0 (length l)) l.

(** [[part for i, part in enumerate(middle_parts) if i != year_index - 1]]. *)
Definition without_index (year_index : Z) (middle_parts : list str)
    : list str :=
  map snd
    (filter (fun ip => negb (Z.of_nat (fst ip) =? year_index - 1)%Z)
       (enumerate middle_parts)).

Definition team_keywords_year : list str :=
  [ "University" : str; "Universidad" : str; "College" : str; "UPR" : str;
    "P.R." : str; "Caribbean" : str; "Interamerican" : str;
    "Politecnica" : str; "State" : str; "Tech" : str; "Institute" : str;
    "Jr." : str; "Sr." : str; "III" : str; "II" : str ].

Definition team_keywords_plain : list str :=
  [ "University" : str; "Universidad" : str; "College" : str; "UPR" : str;
    "P.R." : str; "Caribbean" : str; "Interamerican" : str;
    "Politecnica" : str ].

Definition has_keyword (keywords : list str) (part : str) : bool :=
  existsb (fun keyword => contains keyword part) keywords.

(** The loop that sorts the middle tokens into name and team; the state is
    ([found_team_start], [name_parts], [team_parts]). *)
Fixpoint sort_parts (keywords : list str) (parts : list str)
    (st : bool * list str * list str) : bool * list str * list str :=
  match parts with
  | [] => st
  | part :: rest =>
      let '(found_team_start, name_parts, team_parts) := st in
      if negb found_team_start && has_keyword keywords part then
        sort_parts keywords rest (true, name_parts, team_parts ++ [part])
      else if found_team_start then
        sort_parts keywords rest (found_team_start, name_parts, team_parts ++ [part])
      else
        sort_parts keywords rest (found_team_start, name_parts ++ [part], team_parts)
  end.

(** Name and team out of the middle tokens, with the split after the second
    token when no keyword turned up. *)
Definition name_and_team (keywords : list str) (middle_parts : list str)
    : str * str :=
  let '(found_team_start, name_parts, team_parts) :=
    sort_parts keywords middle_parts (false, [], []) in
  let '(name_parts, team_parts) :=
    if negb found_team_start && (2 <=? length middle_parts)
    then (firstn 2 middle_parts, skipn 2 middle_parts)
    else (name_parts, team_parts) in
  (join " " name_parts, join " " team_parts).

(** The test in front of [records.append]. *)
Definition acceptable (place name team time_part : str) : bool :=
  isdigit place && (1 <? length name) && (1 <? length team) &&
  matched (re_match loose_time time_part).

(** The branch [has_year and len(parts) >= 5]: the record of one line, if
    the line yields one.  The [ValueError] of [int] is caught by the [except]
    of the branch, and the line is passed over. *)
Definition row_with_year (parts : list str) (source_file event_date : str)
    : option Row :=
  let place := nth 0 parts [] in
  if isdigit place then
    match scan_year 0 (interior parts) with
    | Raise _ => None
    | Ok (year, year_index) =>
        let time_part := last parts [] in
        let middle_parts := interior parts in
        if 2 <=? length middle_parts then
          let middle_parts :=
            if (year_index >? 0)%Z then without_index year_index middle_parts
            else middle_parts in
          let '(name, team) := name_and_team team_keywords_year middle_parts in
          if acceptable place name team time_part then
            Some (mkRow place name year team time_part source_file event_date)
          else None
        else None
    end
  else None.

(** The branch [len(parts) >= 4], without a year. *)
Definition row_without_year (parts : list str) (source_file event_date : str)
    : option Row :=
  let place := nth 0 parts [] in
  if isdigit place then
    let time_part := last parts [] in
    let middle_parts := interior parts in
    if 2 <=? length middle_parts then
      let '(name, team) := name_and_team team_keywords_plain middle_parts in
      if acceptable place name team time_part then
        Some (mkRow place name [] team time_part source_file event_date)
      else None
    else None
  else None.

(** The record of one non-blank data line, by its number of tokens. *)
Definition row_of_line (has_year : bool) (data_line source_file event_date : str)
    : option Row :=
  let parts := split_ws data_line in
  if has_year && (5 <=? length parts) then
    row_with_year parts source_file event_date
  else if 4 <=? length parts then
    row_without_year parts source_file event_date
  else None.

(** [re.search(r'^[A-Z\s]+$', data_line) and len(data_line) > 10]. *)
Definition is_section_break (data_line : str) : bool :=
  matched (re_search section_line data_line) && (10 <? length data_line).

(** The loop over the data lines [lines[j]], [j] from [i + 1]: blank lines
    are passed over, a section line ends the loop, any other line appends its
    record to [records] when it has one. *)
Fixpoint scan_rows (has_year : bool) (source_file event_date : str)
    (rows : list str) (records : list Row) : list Row :=
  match rows with
  | [] => records
  | l :: rest =>
      let data_line := strip l in
      match data_line with
      | [] => scan_rows has_year source_file event_date rest records
      | _ =>
          if is_section_break data_line then records
          else
            match row_of_line has_year data_line source_file event_date with
            | Some record =>
                scan_rows has_year source_file event_date rest (records ++ [record])
            | None => scan_rows has_year source_file event_date rest records
            end
      end
  end.

(** The lines [range(i + 1, min(i + 200, len(lines)))] ranges over. *)
Definition data_window (lines : list str) (i : nat) : list str :=
  slice (i + 1) (Nat.min (i + 200) (length lines)) lines.

(** What a matched header at line [i] does: settle [has_year], then scan the
    data lines.  An exception of the look-ahead leaves the method. *)
Definition scan_table (lines : list str) (i : nat) (line_upper : str)
    (source_file event_date : str) (records : list Row) : result (list Row) :=
  match detect_year lines i line_upper with
  | Raise e => Raise e
  | Ok has_year =>
      Ok (scan_rows has_year source_file event_date (data_window lines i) records)
  end.

(** The loop over [header_patterns] for one line: the first pattern found
    in the line starts the table scan, and the [break] leaves the loop.  The
    state is ([table_found], [records]). *)
Fixpoint try_patterns (patterns : list regex) (lines : list str) (i : nat)
    (line_upper : str) (source_file event_date : str)
    (st : bool * list Row) : result (bool * list Row) :=
  match patterns with
  | [] => Ok st
  | pattern :: rest =>
      if matched (re_search pattern line_upper) then
        match scan_table lines i line_upper source_file event_date (snd st) with
        | Raise e => Raise e
        | Ok records => Ok (true, records)
        end
      else try_patterns rest lines i line_upper source_file event_date st
  end.

(** The loop [for i, line in enumerate(lines)]. *)
Fixpoint scan_lines (lines : list str) (i : nat) (todo : list str)
    (source_file event_date : str) (st : bool * list Row)
    : result (bool * list Row) :=
  match todo with
  | [] => Ok st
  | line :: rest =>
      let line_upper := strip (upper line) in
      match try_patterns header_patterns lines i line_upper
              source_file event_date st with
      | Raise e => Raise e
      | Ok st' => scan_lines lines (S i) rest source_file event_date st'
      end
  end.

Definition extract_all_table_data (text source_file event_date : str)
    : result (list Row) :=
  let lines := split_lines text in
  match scan_lines lines 0 lines source_file event_date (false, []) with
  | Raise e => Raise e
  | Ok st => Ok (snd st)
  end.

Definition extract_from_text (text source_file : str) : result (list Row) :=
  let event_date := extract_event_date text in
  match extract_all_table_data text source_file event_date with
  | Raise e => Raise e
  | Ok table_records => Ok ([] ++ table_records)
  end.

(** *** The scraper object, the folder and [main] *)

(** The fields of a [FinalPDFScraper]. *)
Record Scraper : Type := mkScraper {
  folder_path : str;
  extracted_data : list Row;
  total_records : nat
}.

Definition init (folder : str) : Scraper := mkScraper folder [] 0.

(** The lines the program prints, one constructor for each [print] of the
    source: those of the imports at the top of the file, of [main] and of
    [display_summary]. *)
Inductive Message : Type :=
| MUsing (name : str)
| MNoLibrary
| MInstallHint
| MUsage
| MExample
| MStarting (folder : str)
| MDashes
| MRuleAfterBlank
| MTitle
| MRule
| MTotalExtracted (n : nat)
| MSourceFolder (folder : str)
| MLibrary (name : str)
| MSampleRecords
| MRecord (i : nat) (record : Row)
| MMore (n : nat)
| MCompleted
| MSavedTo
| MTotalRecords (n : nat)
| MSaveFailed
| MProcessFailed.

(** What the scraper sees of its surroundings: whether a PDF library was
    imported and its name, what [Path.exists()] and [glob] answer for the
    folder (they may raise), the text the library reads out of each file
    ([None] when it raises), whether the CSV file can be written, and for
    every line to print the exception [print] raises, if it does. *)
Record World : Type := mkWorld {
  PDF_AVAILABLE : bool;
  PDF_LIBRARY : str;
  folder_exists : result bool;
  glob_pdf : result (list str);
  pdf_text : str -> option str;
  csv_writable : bool;
  stdout : Message -> option exn
}.

(** What [save_to_csv] did about the file. *)
Inductive Saved : Type :=
| NotTried
| WriteFailed
| Wrote (rows : list (list str)).

(** What [main] ends with. *)
Inductive Report : Type := Usage | Completed | SaveFailed | ProcessFailed.

Section Methods.

Variable w : World.

(** An exception of the library is logged and becomes the empty text. *)
Definition extract_text_from_pdf (self : Scraper) (pdf_name : str) : str :=
  if negb (PDF_AVAILABLE w) then []
  else match pdf_text w pdf_name with
       | Some text => text
       | None => []
       end.

(** An exception of the extraction is logged and becomes the empty list. *)
Definition extract_data_from_pdf (self : Scraper) (pdf_name : str)
    : list Row :=
  match extract_text_from_pdf self pdf_name with
  | [] => []
  | text =>
      match extract_from_text text pdf_name with
      | Ok pdf_data => pdf_data
      | Raise _ => []
      end
  end.

(** The body of the loop over the files: the records of one document are
    appended to [extracted_data] and counted. *)
Definition process_file (self : Scraper) (pdf_name : str) : Scraper :=
  let pdf_data := extract_data_from_pdf self pdf_name in
  mkScraper (folder_path self)
            (extracted_data self ++ pdf_data)
            (total_records self + length pdf_data).

(** [process_folder]: [exists()] and [glob] stand outside any [try]. *)
Definition process_folder (self : Scraper) : result (bool * Scraper) :=
  match folder_exists w with
  | Raise e => Raise e
  | Ok false => Ok (false, self)
  | Ok true =>
      match glob_pdf w with
      | Raise e => Raise e
      | Ok [] => Ok (false, self)
      | Ok pdf_files => Ok (true, fold_left process_file pdf_files self)
      end
  end.

Definition fieldnames : list str :=
  [ "PL" : str; "NAME" : str; "YEAR" : str; "TEAM" : str; "TIME" : str;
    "SOURCE_FILE" : str; "EVENT_DATE" : str ].

Definition csv_row (r : Row) : list str :=
  [ PL r; NAME r; YEAR r; TEAM r; TIME r; SOURCE_FILE r; EVENT_DATE r ].

(** [save_to_csv]: the flag it returns and what became of the file; an
    exception of the writing is logged. *)
Definition save_to_csv (self : Scraper) : bool * Saved :=
  match extracted_data self with
  | [] => (false, NotTried)
  | data =>
      if csv_writable w then (true, Wrote (fieldnames :: map csv_row data))
      else (false, WriteFailed)
  end.

(** Printing: the lines printed so far, and the value or the exception a
    piece of the program ends with. *)
Definition Run (A : Type) : Type := list Message -> list Message * result A.

Definition ret {A} (a : A) : Run A := fun out => (out, Ok a).

Definition then_ {A B} (m : Run A) (k : A -> Run B) : Run B :=
  fun out =>
    match m out with
    | (out', Ok a) => k a out'
    | (out', Raise e) => (out', Raise e)
    end.

Definition print (m : Message) : Run unit :=
  fun out =>
    match stdout w m with
    | None => (out ++ [m], Ok tt)
    | Some e => (out, Raise e)
    end.

Fixpoint print_all (ms : list Message) : Run unit :=
  match ms with
  | [] => ret tt
  | m :: rest => then_ (print m) (fun _ => print_all rest)
  end.

(** The lines of [display_summary], in the order of its [print]s. *)
Definition summary_lines (self : Scraper) : list Message :=
  [ MRuleAfterBlank; MTitle; MRule;
    MTotalExtracted (total_records self);
    MSourceFolder (folder_path self);
    MLibrary (if PDF_AVAILABLE w then PDF_LIBRARY w else "None") ] ++
  match extracted_data self with
  | [] => []
  | data =>
      [MSampleRecords] ++
      map (fun ir : nat * Row => MRecord (fst ir + 1) (snd ir))
          (enumerate (firstn 5 data)) ++
      (if 5 <? length data then [MMore (length data - 5)] else [])
  end ++
  [MRule].

Definition display_summary (self : Scraper) : Run unit :=
  print_all (summary_lines self).

(** [main]; after the usage lines it leaves by [sys.exit(1)]. *)
Definition main (argv : list str) : Run (Report * Saved) :=
  if negb (length argv =? 2) then
    then_ (print_all [MUsage; MExample]) (fun _ => ret (Usage, NotTried))
  else
    let folder_path := nth 1 argv [] in
    then_ (print_all [MStarting folder_path; MDashes]) (fun _ =>
    let scraper := init folder_path in
    fun out =>
      match process_folder scraper with
      | Raise e => (out, Raise e)
      | Ok (true, scraper) =>
          then_ (display_summary scraper) (fun _ =>
          let '(saved_ok, saved) := save_to_csv scraper in
          if saved_ok then
            then_ (print_all [MCompleted; MSavedTo;
                              MTotalRecords (total_records scraper)])
                  (fun _ => ret (Completed, saved))
          else
            then_ (print MSaveFailed) (fun _ => ret (SaveFailed, saved))) out
      | Ok (false, _) =>
          then_ (print MProcessFailed)
                (fun _ => ret (ProcessFailed, NotTried)) out
      end).

(** The exit status of the process: 1 after [sys.exit(1)] and after an
    exception that nothing caught, 0 when [main] returns. *)
Definition exit_status (r : result (Report * Saved)) : nat :=
  match r with
  | Ok (Usage, _) => 1
  | Ok _ => 0
  | Raise _ => 1
  end.

(** The lines printed while the PDF libraries are tried at the top of the
    file. *)
Definition import_lines : list Message :=
  if PDF_AVAILABLE w then [MUsing (PDF_LIBRARY w)]
  else [MNoLibrary; MInstallHint].

(** A run of the script: the top of the file, then [main]; the lines
    printed and the exit status. *)
Definition run (argv : list str) : list Message * nat :=
  let '(out, r) := then_ (print_all import_lines) (fun _ => main argv) [] in
  (out, exit_status r).

End Methods.

End Final.

(* ================================================================= *)
(** ** pdf_scraper.py: the table-row mapper *)

Module Tables.

Import Py.

(** A record of the table path; its dict has no [YEAR] key. *)
Record Row : Type := mkRow {
  PL : str;
  NAME : str;
  TEAM : str;
  TIME : str;
  SOURCE_FILE : str;
  EVENT_DATE : str
}.

(** [field_indices], a column or [None] for each of the five fields. *)
Record Fields : Type := mkFields {
  iPL : option nat;
  iNAME : option nat;
  iTEAM : option nat;
  iTIME : option nat;
  iEVENT_DATE : option nat
}.

(** A cell of an extracted table: a string or [None]. *)
Definition cell : Type := option str.

(** [str(c).strip() if c else ''] *)
Definition cell_text (c : cell) : str :=
  match c with
  | Some ((_ :: _) as s) => strip s
  | _ => []
  end.

Definition has_any (keywords : list str) (header_upper : str) : bool :=
  existsb (fun keyword => contains keyword header_upper) keywords.

(** One step of the loop of [identify_field_columns]. *)
Definition identify_step (fi : Fields) (ih : nat * str) : Fields :=
  let '(i, header) := ih in
  let header_upper := upper header in
  if has_any ["PL" : str; "PLACE" : str; "POS" : str; "POSITION" : str;
              "RANK" : str; "RANKING" : str] header_upper then
    mkFields (Some i) (iNAME fi) (iTEAM fi) (iTIME fi) (iEVENT_DATE fi)
  else if has_any ["NAME" : str; "ATHLETE" : str; "RUNNER" : str;
                   "COMPETITOR" : str] header_upper then
    mkFields (iPL fi) (Some i) (iTEAM fi) (iTIME fi) (iEVENT_DATE fi)
  else if has_any ["TEAM" : str; "SCHOOL" : str; "CLUB" : str;
                   "UNIVERSITY" : str; "COLLEGE" : str] header_upper then
    mkFields (iPL fi) (iNAME fi) (Some i) (iTIME fi) (iEVENT_DATE fi)
  else if has_any ["TIME" : str; "RESULT" : str; "FINISH" : str; "MARK" : str;
                   "PERFORMANCE" : str] header_upper then
    mkFields (iPL fi) (iNAME fi) (iTEAM fi) (Some i) (iEVENT_DATE fi)
  else if has_any ["DATE" : str; "EVENT DATE" : str; "MEET DATE" : str;
                   "COMPETITION DATE" : str] header_upper then
    mkFields (iPL fi) (iNAME fi) (iTEAM fi) (iTIME fi) (Some i)
  else fi.

Definition identify_field_columns (headers : list str) : Fields :=
  fold_left identify_step (combine (seq 0 (length headers)) headers)
    (mkFields None None None None None).

(** The value a field takes from the row: the cell of its column when the
    column is known and inside the row, the default otherwise. *)
Definition field_value (row : list cell) (col_index : option nat)
    (default : str) : str :=
  match col_index with
  | Some i =>
      if i <? length row then cell_text (nth i row None) else default
  | None => default
  end.

Definition nonempty (s : str) : bool :=
  match s with [] => false | _ => true end.

Definition extract_record_from_row (row : list cell) (field_indices : Fields)
    (source_file : str) : option Row :=
  let record :=
    mkRow (field_value row (iPL field_indices) [])
          (field_value row (iNAME field_indices) [])
          (field_value row (iTEAM field_indices) [])
          (field_value row (iTIME field_indices) [])
          source_file
          (field_value row (iEVENT_DATE field_indices) []) in
  if existsb nonempty [PL record; NAME record; TEAM record; TIME record]
  then Some record else None.

(** Python's truth value of an index or [None]: column 0 counts as false. *)
Definition truthy (i : option nat) : bool :=
  match i with
  | Some (S _) => true
  | _ => false
  end.

Definition process_table (table : list (list cell)) (source_file : str)
    : list Row :=
  match table with
  | header :: ((_ :: _) as data_rows) =>
      let headers := map cell_text header in
      let field_indices := identify_field_columns headers in
      if negb (existsb truthy
                 [ iPL field_indices; iNAME field_indices; iTEAM field_indices;
                   iTIME field_indices; iEVENT_DATE field_indices ])
      then []
      else
        flat_map
          (fun row =>
             match row with
             | [] => []
             | _ =>
                 if length row <? length headers then []
                 else match extract_record_from_row row field_indices source_file with
                      | Some record => [record]
                      | None => []
                      end
             end) data_rows
  | _ => []
  end.

End Tables.

(* ================================================================= *)
(** ** tfrrs_scraper.py: the combined CSV sink *)

Module Html.

Import Py.

(** What [extract_table_data] returns for a table. *)
Record TableData : Type := mkTableData {
  headers : list str;
  rows : list (list str)
}.

(** [table_data], the dict from table names to their data, in insertion
    order. *)
Definition Tables : Type := list (str * option TableData).

(** A value handed to [csv.writer]: a string or an integer. *)
Inductive field : Type :=
| FStr (s : str)
| FInt (n : nat).

(** [['Table_Name', 'Row_Number'] + ['Column_' + str(i) for i in range(20)]] *)
Definition combined_header : list field :=
  [FStr "Table_Name"; FStr "Row_Number"] ++
  map (fun i => FStr ("Column_" ++ str_of_nat i)) (seq 0 20).

(** [row + [''] * (20 - len(row))]; a list times a negative count is
    empty. *)
Definition padded_row (row : list str) : list str :=
  row ++ repeat [] (20 - length row).

(** The rows written for one table, numbered from 1. *)
Definition table_rows (table_name : str) (data : option TableData)
    : list (list field) :=
  match data with
  | None => []
  | Some d =>
      match rows d with
      | [] => []
      | data_rows =>
          map (fun nr : nat * list str =>
                 [FStr table_name; FInt (fst nr)] ++
                 map FStr (padded_row (snd nr)))
              (combine (seq 1 (length data_rows)) data_rows)
      end
  end.

Definition combined_rows (table_data : Tables) : list (list field) :=
  combined_header ::
  flat_map (fun nd => table_rows (fst nd) (snd nd)) table_data.

(** [save_combined_csv]: the rows of the file when it could be written,
    [None] when opening or writing raised. *)
Definition save_combined_csv (writable : bool) (table_data : Tables)
    : option (list (list field)) :=
  if writable then Some (combined_rows table_data) else None.

End Html.

(* ================================================================= *)
(** ** The vocabulary of the properties *)

Module Spec.

Import Py Re Final.

(** A line is a header when one of the header patterns is found in its
    upper-cased, trimmed text. *)
Definition is_header (line : str) : bool :=
  existsb (fun pattern => matched (re_search pattern (strip (upper line))))
    header_patterns.

(** The indices of the header lines, in increasing order. *)
Definition header_positions (lines : list str) : list nat :=
  filter (fun i => is_header (nth i lines [])) (seq 0 (length lines)).

(** The records of the table under the header at line [i], or the
    exception of its look-ahead. *)
Definition table_at (lines : list str) (i : nat) (source_file event_date : str)
    : result (list Row) :=
  scan_table lines i (strip (upper (nth i lines []))) source_file event_date [].

(** The tables one after the other, up to the first that raises. *)
Fixpoint collect (tables : list (result (list Row))) : result (list Row) :=
  match tables with
  | [] => Ok []
  | Raise e :: _ => Raise e
  | Ok records :: rest =>
      match collect rest with
      | Raise e => Raise e
      | Ok more => Ok (records ++ more)
      end
  end.

(** The single-table reading: the records under the first header and
    nothing else. *)
Definition first_table_only (lines : list str) (source_file event_date : str)
    : result (list Row) :=
  match header_positions lines with
  | [] => Ok []
  | i :: _ => table_at lines i source_file event_date
  end.

(** The two outcomes of the year test that do not let the scan go on to
    the code pattern: a token on which [int] raises, four characters of
    [isdigit] with a superscript among them, and a token that is a year. *)
Definition ill_year (part : str) : bool :=
  isdigit part && (length part =? 4) && negb (forallb is_digit part).

Definition calendar_year (part : str) : bool :=
  match is_calendar_year part with
  | Ok b => b
  | Raise _ => false
  end.

(** A four-digit year of the accepted range, and an academic-year code:
    one of the five codes, a hyphen or none, digits or none. *)
Definition calendar_year_shape (part : str) : Prop :=
  length part = 4 /\ forallb is_digit part = true /\
  (2020 <= decimal part <= 2030)%Z.

Definition year_codes : list str :=
  [ "FR" : str; "SO" : str; "JR" : str; "SR" : str; "GR" : str ].

Definition year_code_shape (u : str) : Prop :=
  exists code hyphen digits,
    u = code ++ hyphen ++ digits /\ In code year_codes /\
    (hyphen = [] \/ hyphen = ("-" : str)) /\ forallb is_digit digits = true.

Definition year_token (part : str) : Prop :=
  calendar_year_shape part \/ year_code_shape (upper part).

(** A line is all upper-case letters and white space. *)
Definition all_caps (line : str) : bool :=
  forallb (fun c => is_upper c || is_space c) line.

(** The tokens the look-ahead of the header at line [i] goes through, in
    its order: the interior tokens of those of the five lines after the
    header that have at least four tokens. *)
Definition window_tokens (lines : list str) (i : nat) : list str :=
  flat_map
    (fun check_line =>
       if 4 <=? length (split_ws (strip check_line))
       then interior (split_ws (strip check_line)) else [])
    (slice (i + 1) (i + 6) lines).

(** The look-ahead as the specification words it: the first five lines
    after the header that are not blank, any number of tokens, an interior
    token that is a year. *)
Definition nonblank (line : str) : bool :=
  match strip line with [] => false | _ => true end.

Definition following_nonblank (lines : list str) (i : nat) : list str :=
  firstn 5 (filter nonblank (skipn (i + 1) lines)).

Definition has_year_token (line : str) : bool :=
  existsb (fun part => calendar_year part || is_year_code part)
    (interior (split_ws (strip line))).

Definition year_flag_over_nonblank (lines : list str) (i : nat) : bool :=
  existsb has_year_token (following_nonblank lines i).

(** What the row extractor lets into a record: fields that passed the test
    in front of [records.append], a year that is empty or a token that
    passed one of the two year tests, and the file name and the date it was
    given. *)
Definition year_ok (y : str) : Prop :=
  y = [] \/
  (existsb is_space y = false /\
   (calendar_year y = true \/ is_year_code y = true)).

Definition row_ok (source_file event_date : str) (r : Row) : Prop :=
  acceptable (PL r) (NAME r) (TEAM r) (TIME r) = true /\
  year_ok (YEAR r) /\
  SOURCE_FILE r = source_file /\ EVENT_DATE r = event_date.

Definition not_space (c : ascii) : bool := negb (is_space c).

(** The front of a text at which the first date pattern can match:
    letters, at least one, then a space, then a digit. *)
Fixpoint skip_alpha (s : str) : str :=
  match s with
  | c :: s' => if is_alpha c then skip_alpha s' else s
  | [] => []
  end.

Definition date_follows (s : str) : bool :=
  match skip_alpha s with
  | sp :: d :: _ => Ascii.eqb sp " " && is_digit d
  | _ => false
  end.

Definition starts_month_date (s : str) : bool :=
  match s with
  | c :: s' => is_alpha c && date_follows s'
  | [] => false
  end.

(** Text of several lines. *)
Definition text_of (lines : list str) : str := join [newline] lines.

(** A console on which [print] never raises. *)
Definition prints_all (w : World) : Prop := forall m, stdout w m = None.

(** The same surroundings with a console on which [print] never raises. *)
Definition quiet (w : World) : World :=
  mkWorld (PDF_AVAILABLE w) (PDF_LIBRARY w) (folder_exists w) (glob_pdf w)
          (pdf_text w) (csv_writable w) (fun _ => None).

End Spec.

(* ================================================================= *)
(** ** tfrrs_scraper.py: the tables of the page *)

Module Dom.

Import Py Html.

(** [str.lower()], character by character: [A-Z] and the capitals U+00C0
    to U+00DE (but the multiplication sign U+00D7) move up by 32. *)
Definition lower_char (c : ascii) : ascii :=
  if is_upper c then ascii_of_nat (code c + 32)
  else if in_range 192 222 c && negb (code c =? 215)
       then ascii_of_nat (code c + 32)
  else c.

Definition lower (s : str) : str := map lower_char s.

(** [s.replace(a, b)] for single characters [a] and [b]. *)
Definition replace_char (a b : ascii) (s : str) : str :=
  map (fun c => if Ascii.eqb c a then b else c) s.

(** [re.sub(r'\s+', ' ', s)]: every maximal run of white space becomes one
    space.  [in_ws] tells that the previous character was white space. *)
Fixpoint collapse_from (in_ws : bool) (s : str) : str :=
  match s with
  | [] => []
  | c :: s' =>
      if is_space c then
        if in_ws then collapse_from true s'
        else " "%char :: collapse_from true s'
      else c :: collapse_from false s'
  end.

Definition collapse_ws (s : str) : str := collapse_from false s.

Definition str_eqb (a b : str) : bool :=
  if list_eq_dec ascii_dec a b then true else false.

(** What the scraper reads off a [table] element: the text of its caption
    and of the nearest heading before it, when there is one, and for every
    [tr] the texts of its [td] and [th] cells, each as
    [get_text(strip=True)] returns it. *)
Record TableNode : Type := mkTableNode {
  caption : option str;
  prev_heading : option str;
  trs : list (list str)
}.

Definition nonempty (s : str) : bool :=
  match s with [] => false | _ => true end.

(** The cells of a row after the cleaning, and whether the row has data. *)
Definition row_data (cells : list str) : list str := map collapse_ws cells.

Definition has_data (row : list str) : bool :=
  existsb (fun cell => nonempty (strip cell)) row.

(** [extract_table_data]; the table name is used for the log only. *)
Definition extract_table_data (table : option TableNode) : option TableData :=
  match table with
  | None => None
  | Some t =>
      let headers :=
        match trs t with
        | [] => []
        | header_row :: _ => filter nonempty header_row
        end in
      let rows := filter has_data (map row_data (tl (trs t))) in
      Some (mkTableData headers rows)
  end.

Definition heading_keywords : list str :=
  [ "result" : str; "finish" : str; "time" : str; "place" : str;
    "rank" : str ].

(** The name under which table number [i] (from 0) is stored. *)
Definition table_name (i : nat) (table : TableNode) : str :=
  let name := "table_" ++ str_of_nat (i + 1) in
  let name :=
    match caption table with
    | Some c => replace_char " " "_" (lower c)
    | None => name
    end in
  match prev_heading table with
  | Some h =>
      let heading_text := lower h in
      if existsb (fun keyword => contains keyword heading_text) heading_keywords
      then replace_char " " "_" heading_text
      else name
  | None => name
  end.

(** [d[k] = v] on a dict kept in insertion order: a key that is there
    keeps its place and takes the new value. *)
Fixpoint dict_set {V} (k : str) (v : V) (d : list (str * V)) : list (str * V) :=
  match d with
  | [] => [(k, v)]
  | (k', v') :: d' =>
      if str_eqb k' k then (k', v) :: d' else (k', v') :: dict_set k v d'
  end.

(** [d.get(k)]. *)
Fixpoint dict_get {V} (k : str) (d : list (str * V)) : option V :=
  match d with
  | [] => None
  | (k', v) :: d' => if str_eqb k' k then Some v else dict_get k d'
  end.

(** One turn of the loop of [find_all_tables]. *)
Definition store (table_data : Tables) (it : nat * TableNode) : Tables :=
  let '(i, table) := it in
  let name := table_name i table in
  match extract_table_data (Some table) with
  | Some data =>
      match rows data with
      | [] => table_data
      | _ => dict_set name (Some data) table_data
      end
  | None => table_data
  end.

Definition find_all_tables (tables : list TableNode) : Tables :=
  fold_left store (combine (seq 0 (length tables)) tables) [].

(** [save_to_csv]: one file for each table that has rows, the header row
    first when there is one.  [writable] tells for which file names opening
    and writing succeed; the result is [saved_files] and the files
    written. *)
Definition file_name (base_filename table_name : str) : str :=
  base_filename ++ "_" ++ table_name ++ ".csv".

Definition file_rows (data : TableData) : list (list str) :=
  match headers data with
  | [] => rows data
  | hs => hs :: rows data
  end.

Definition save_step (writable : str -> bool) (base_filename : str)
    (st : list str * list (str * list (list str)))
    (nd : str * option TableData)
    : list str * list (str * list (list str)) :=
  let '(table_name, data) := nd in
  match data with
  | None => st
  | Some d =>
      match rows d with
      | [] => st
      | _ =>
          let filename := file_name base_filename table_name in
          if writable filename
          then (fst st ++ [filename], snd st ++ [(filename, file_rows d)])
          else st
      end
  end.

Definition save_to_csv (writable : str -> bool) (table_data : Tables)
    (base_filename : str) : list str * list (str * list (list str)) :=
  fold_left (save_step writable base_filename) table_data ([], []).

End Dom.

(* ================================================================= *)
(** ** Patterns with groups and lazy repetition *)

Module Groups.

Import Py.

(** The patterns of [Re] with two more forms: a repetition is greedy or
    lazy ([r*] or [r*?]), and [(r)] is a numbered group. *)
Inductive gregex : Type :=
| GEps
| GCls (p : ascii -> bool)
| GCat (r1 r2 : gregex)
| GAlt (r1 r2 : gregex)
| GStar (greedy : bool) (r : gregex)
| GGroup (n : nat) (r : gregex)
| GBol
| GEol.

(** [r+] and [r+?], and [r?]. *)
Definition GPlus (greedy : bool) (r : gregex) : gregex :=
  GCat r (GStar greedy r).

Definition GOpt (r : gregex) : gregex := GAlt r GEps.

Fixpoint GSeq (rs : list gregex) : gregex :=
  match rs with
  | [] => GEps
  | [r] => r
  | r :: rs' => GCat r (GSeq rs')
  end.

(** The groups of a match: number and text, the most recent first. *)
Definition groups : Type := list (nat * str).

Definition set_group (n : nat) (w : str) (g : groups) : groups :=
  (n, w) :: g.

(** [m.group(n)]: [None] for a group that took no part in the match. *)
Fixpoint group (n : nat) (g : groups) : option str :=
  match g with
  | [] => None
  | (m, w) :: g' => if m =? n then Some w else group n g'
  end.

Section Matcher.

Variable R : Type.

Definition cont : Type := nat -> str -> groups -> option R.

(** The loop of a repetition over the matcher [m] of its body.  The greedy
    loop tries one more iteration first and the continuation [k] when that
    fails; the lazy loop tries [k] first and one more iteration when [k]
    fails.  An iteration that consumed nothing is given up. *)
Fixpoint rep_loop (greedy : bool)
    (m : nat -> str -> groups -> cont -> option R)
    (k : cont) (fuel : nat) (pos : nat) (s : str) (g : groups) : option R :=
  match fuel with
  | 0 => k pos s g
  | S fuel' =>
      if greedy then
        match m pos s g
                (fun pos' s' g' =>
                   if pos' =? pos then None
                   else rep_loop greedy m k fuel' pos' s' g') with
        | Some x => Some x
        | None => k pos s g
        end
      else
        match k pos s g with
        | Some x => Some x
        | None =>
            m pos s g
              (fun pos' s' g' =>
                 if pos' =? pos then None
                 else rep_loop greedy m k fuel' pos' s' g')
        end
  end.

(** The backtracking matcher of [Re.rmatch], threading the groups: a group
    records the text between the offsets at which it was entered and left. *)
Fixpoint gmatch (r : gregex) (pos : nat) (s : str) (g : groups)
    (k : cont) {struct r} : option R :=
  match r with
  | GEps => k pos s g
  | GCls p =>
      match s with
      | c :: s' => if p c then k (S pos) s' g else None
      | [] => None
      end
  | GCat r1 r2 =>
      gmatch r1 pos s g (fun pos' s' g' => gmatch r2 pos' s' g' k)
  | GAlt r1 r2 =>
      match gmatch r1 pos s g k with
      | Some x => Some x
      | None => gmatch r2 pos s g k
      end
  | GStar greedy r1 => rep_loop greedy (gmatch r1) k (length s) pos s g
  | GGroup n r1 =>
      gmatch r1 pos s g
        (fun pos' s' g' => k pos' s' (set_group n (firstn (pos' - pos) s) g'))
  | GBol => if pos =? 0 then k pos s g else None
  | GEol =>
      match s with
      | [] => k pos s g
      | [c] => if Ascii.eqb c newline then k pos s g else None
      | _ => None
      end
  end.

End Matcher.

(** [re.match(r, s)]: the groups of the first match at offset 0 in the
    order of the search. *)
Definition re_match (r : gregex) (s : str) : option groups :=
  gmatch r 0 s [] (fun _ _ g => Some g).

(** The words of a pattern with the groups they set, independently of the
    order of the search: [glang r pos w rest g g'] says that [w], at offset
    [pos] and followed by [rest], is a word of [r] that turns the groups [g]
    into [g']. *)
Inductive glang : gregex -> nat -> str -> str -> groups -> groups -> Prop :=
| GL_Eps pos rest g : glang GEps pos [] rest g g
| GL_Cls (p : ascii -> bool) c pos rest g :
    p c = true -> glang (GCls p) pos [c] rest g g
| GL_Cat r1 r2 pos w1 w2 rest g g1 g2 :
    glang r1 pos w1 (w2 ++ rest) g g1 ->
    glang r2 (pos + length w1) w2 rest g1 g2 ->
    glang (GCat r1 r2) pos (w1 ++ w2) rest g g2
| GL_AltL r1 r2 pos w rest g g1 :
    glang r1 pos w rest g g1 -> glang (GAlt r1 r2) pos w rest g g1
| GL_AltR r1 r2 pos w rest g g1 :
    glang r2 pos w rest g g1 -> glang (GAlt r1 r2) pos w rest g g1
| GL_Star0 b r pos rest g : glang (GStar b r) pos [] rest g g
| GL_StarS b r pos w1 w2 rest g g1 g2 :
    w1 <> [] ->
    glang r pos w1 (w2 ++ rest) g g1 ->
    glang (GStar b r) (pos + length w1) w2 rest g1 g2 ->
    glang (GStar b r) pos (w1 ++ w2) rest g g2
| GL_Group n r pos w rest g g1 :
    glang r pos w rest g g1 ->
    glang (GGroup n r) pos w rest g (set_group n w g1)
| GL_Bol rest g : glang GBol 0 [] rest g g
| GL_Eol pos rest g :
    rest = [] \/ rest = [newline] -> glang GEol pos [] rest g g.

Definition sound_for (R : Type) (r : gregex) : Prop :=
  forall pos s g (k : cont R) x,
    gmatch r pos s g k = Some x ->
    exists w rest g',
      s = w ++ rest /\ glang r pos w rest g g' /\
      k (pos + length w) rest g' = Some x.

Definition complete_for (R : Type) (r : gregex) : Prop :=
  forall pos w rest g g', glang r pos w rest g g' ->
  forall (k : cont R) x,
    k (pos + length w) rest g' = Some x ->
    exists y, gmatch r pos (w ++ rest) g k = Some y.

End Groups.

(* ================================================================= *)
(** ** pdf_scraper.py: the text fallback and the pages of a file *)

Module Fallback.

Import Py Groups Tables.

Definition letter_or_space (c : ascii) : bool := is_alpha c || is_space c.

Definition colon_or_dot (c : ascii) : bool :=
  Ascii.eqb c ":"%char || Ascii.eqb c "."%char.

(** The parts of the pattern of the fallback: [\s+], the lazy
    [[A-Za-z\s]+?] and the mark, [\d+[:.]?] followed by any number of
    digits. *)
Definition gap : gregex := GPlus true (GCls is_space).

Definition filler : gregex := GPlus false (GCls letter_or_space).

Definition mark : gregex :=
  GSeq [ GPlus true (GCls is_digit);
         GOpt (GCls colon_or_dot);
         GStar true (GCls is_digit) ].

(** [^(\d+)\s+([A-Za-z\s]+?)\s+([A-Za-z\s]+?)\s+(MARK)$] *)
Definition pattern : gregex :=
  GSeq [ GBol;
         GGroup 1 (GPlus true (GCls is_digit));
         gap;
         GGroup 2 filler;
         gap;
         GGroup 3 filler;
         gap;
         GGroup 4 mark;
         GEol ].

(** The body of the loop of [extract_from_text]: the records of one line,
    none for a blank line or a line the pattern does not match.  Every group
    of the pattern takes part in every match. *)
Definition record_of_line (source_file line : str) : list Row :=
  match strip line with
  | [] => []
  | line' =>
      match re_match pattern line' with
      | Some m =>
          match group 1 m, group 2 m, group 3 m, group 4 m with
          | Some pl, Some name, Some team, Some time =>
              [mkRow pl (strip name) (strip team) time source_file []]
          | _, _, _, _ => []
          end
      | None => []
      end
  end.

Definition extract_from_text (text source_file : str) : list Row :=
  flat_map (record_of_line source_file) (split_lines text).

(** A page as [pdfplumber] presents it: [extract_text()], a string or
    [None], and [extract_tables()]. *)
Record Page : Type := mkPage {
  extract_text : option str;
  extract_tables : list (list (list cell))
}.

(** The records of one page: none without text; those of the tables when
    there is one; those of the text otherwise. *)
Definition page_records (source_file : str) (page : Page) : list Row :=
  match extract_text page with
  | None | Some [] => []
  | Some text =>
      match extract_tables page with
      | [] => extract_from_text text source_file
      | tables =>
          flat_map (fun table => process_table table source_file) tables
      end
  end.

(** [extract_data_from_pdf]: [pdf] is [None] when opening or reading the
    file raises, which the method answers with an empty list. *)
Definition extract_data_from_pdf (pdf : option (list Page)) (name : str)
    : list Row :=
  match pdf with
  | Some pages => flat_map (page_records name) pages
  | None => []
  end.

End Fallback.

(* ================================================================= *)
(** ** Further vocabulary *)

Module Terms.

Import Py Re Final.

(** A token of a trimmed line: not empty, and without white space. *)
Definition clean_token (t : str) : Prop :=
  t <> [] /\ existsb is_space t = false.

(** The year of a record as a list of tokens: none when it is empty. *)
Definition year_tokens (year : str) : list str :=
  match year with
  | [] => []
  | _ => [year]
  end.

(** The records of one line of a table, blank lines giving none. *)
Definition line_records (has_year : bool) (source_file event_date line : str)
    : list Row :=
  match strip line with
  | [] => []
  | data_line =>
      match row_of_line has_year data_line source_file event_date with
      | Some record => [record]
      | None => []
      end
  end.

(** A line that ends a table: upper-case letters and white space only,
    more than 10 characters after trimming. *)
Definition ends_table (line : str) : bool :=
  Spec.all_caps (strip line) && (10 <? length (strip line)).

(** The five fields of the table path, in the order in which
    [identify_field_columns] tests their keywords, and the field whose
    keywords a header holds: the first in that order. *)
Inductive Field : Type := FPL | FNAME | FTEAM | FTIME | FDATE.

Definition field_keywords (f : Field) : list str :=
  match f with
  | FPL => [ "PL" : str; "PLACE" : str; "POS" : str; "POSITION" : str;
             "RANK" : str; "RANKING" : str ]
  | FNAME => [ "NAME" : str; "ATHLETE" : str; "RUNNER" : str;
               "COMPETITOR" : str ]
  | FTEAM => [ "TEAM" : str; "SCHOOL" : str; "CLUB" : str;
               "UNIVERSITY" : str; "COLLEGE" : str ]
  | FTIME => [ "TIME" : str; "RESULT" : str; "FINISH" : str; "MARK" : str;
               "PERFORMANCE" : str ]
  | FDATE => [ "DATE" : str; "EVENT DATE" : str; "MEET DATE" : str;
               "COMPETITION DATE" : str ]
  end.

Definition field_of (header : str) : option Field :=
  find (fun f => Tables.has_any (field_keywords f) (upper header))
    [FPL; FNAME; FTEAM; FTIME; FDATE].

Definition field_eqb (a b : Field) : bool :=
  match a, b with
  | FPL, FPL | FNAME, FNAME | FTEAM, FTEAM | FTIME, FTIME | FDATE, FDATE => true
  | _, _ => false
  end.

Definition is_field (f : Field) (header : str) : bool :=
  match field_of header with
  | Some g => field_eqb g f
  | None => false
  end.

(** The column [field_indices] holds for a field. *)
Definition index_of (fi : Tables.Fields) (f : Field) : option nat :=
  match f with
  | FPL => Tables.iPL fi
  | FNAME => Tables.iNAME fi
  | FTEAM => Tables.iTEAM fi
  | FTIME => Tables.iTIME fi
  | FDATE => Tables.iEVENT_DATE fi
  end.

(** The last header of a field among [headers], numbered from [start]. *)
Fixpoint last_with (f : Field) (start : nat) (headers : list str)
    : option nat :=
  match headers with
  | [] => None
  | h :: hs =>
      match last_with f (S start) hs with
      | Some j => Some j
      | None => if is_field f h then Some start else None
      end
  end.

(** The records a row of a table gives: none when the row is empty or
    shorter than the header, at most one otherwise. *)
Definition row_records (headers : list str) (fi : Tables.Fields)
    (source_file : str) (row : list Tables.cell) : list Tables.Row :=
  match row with
  | [] => []
  | _ =>
      if length row <? length headers then []
      else match Tables.extract_record_from_row row fi source_file with
           | Some record => [record]
           | None => []
           end
  end.

(** The fields of a record of the table path that come from cells. *)
Definition cell_fields (r : Tables.Row) : list str :=
  [ Tables.PL r; Tables.NAME r; Tables.TEAM r; Tables.TIME r;
    Tables.EVENT_DATE r ].

(** Every white-space character of [s] is a space that does not follow
    white space; [after_space] tells that the character before [s] was
    white space. *)
Fixpoint spaced_once (after_space : bool) (s : str) : bool :=
  match s with
  | [] => true
  | c :: s' =>
      if is_space c
      then Ascii.eqb c " " && negb after_space && spaced_once true s'
      else spaced_once false s'
  end.

(** The data [find_all_tables] stores for a table: none when the table has
    no row with data. *)
Definition stored (t : Dom.TableNode) : option Html.TableData :=
  match Dom.extract_table_data (Some t) with
  | Some d =>
      match Html.rows d with
      | [] => None
      | _ => Some d
      end
  | None => None
  end.

(** The data of the last table of the name [name] that stores data, the
    tables numbered from [start]. *)
Fixpoint last_named (start : nat) (name : str) (tables : list Dom.TableNode)
    : option Html.TableData :=
  match tables with
  | [] => None
  | t :: ts =>
      match last_named (S start) name ts with
      | Some d => Some d
      | None =>
          if Dom.str_eqb (Dom.table_name start t) name then stored t else None
      end
  end.

End Terms.

(* ================================================================= *)
(** ** The shapes of the lines of the text fallback *)

Module Shapes.

Import Py.

(** White space, at least one character. *)
Definition blanks (w : str) : bool :=
  match w with
  | [] => false
  | _ => forallb is_space w
  end.

(** Digits 0 to 9, at least one: what [\d+] holds. *)
Definition digits (w : str) : bool :=
  match w with
  | [] => false
  | _ => forallb is_digit w
  end.

(** Letters, at least one. *)
Definition letters (w : str) : bool :=
  match w with
  | [] => false
  | _ => forallb is_alpha w
  end.

Definition head_is (p : ascii -> bool) (w : str) : bool :=
  match w with
  | c :: _ => p c
  | [] => false
  end.

Definition last_is (p : ascii -> bool) (w : str) : bool := head_is p (rev w).

(** Letters and white space, a letter first and a letter last. *)
Definition phrase (w : str) : bool :=
  forallb Fallback.letter_or_space w && head_is is_alpha w &&
  last_is is_alpha w.

Fixpoint drop_digits (s : str) : str :=
  match s with
  | c :: s' => if is_digit c then drop_digits s' else s
  | [] => []
  end.

(** A mark: digits, then nothing more or a colon or period and digits. *)
Definition is_mark (t : str) : bool :=
  head_is is_digit t &&
  match drop_digits t with
  | [] => true
  | c :: d => Fallback.colon_or_dot c && forallb is_digit d
  end.

(** Letters and white space, at least one character: what a lazy group
    of the fallback pattern can hold. *)
Definition filling (w : str) : bool :=
  match w with
  | [] => false
  | _ => forallb Fallback.letter_or_space w
  end.

(** The lines the fallback pattern matches, with the texts of its four
    groups: a place of digits, two fillings and a mark, separated by white
    space. *)
Definition fallback_shape (line pl x y time : str) : Prop :=
  exists ws1 ws2 ws3,
    line = pl ++ ws1 ++ x ++ ws2 ++ y ++ ws3 ++ time /\
    digits pl = true /\ blanks ws1 = true /\ filling x = true /\
    blanks ws2 = true /\ filling y = true /\ blanks ws3 = true /\
    is_mark time = true.

End Shapes.

(* ================================================================= *)
(** * Properties *)

(** ** The matcher against the words of a pattern *)

Module ReFacts.

Import Py Re.

Section Sound.

Variable R : Type.

Lemma star_loop_sound r (k : nat -> str -> option R) :
  sound_for R r ->
  forall fuel pos s x,
    star_loop (rmatch r) k fuel pos s = Some x ->
    exists w rest,
      s = w ++ rest /\ lang (Star r) pos w rest /\
      k (pos + length w) rest = Some x.
Proof.
  intros Hr. induction fuel as [|fuel IH]; intros pos s x H; simpl in H.
  - exists [], s. rewrite Nat.add_0_r. repeat split; auto. constructor.
  - destruct (rmatch r pos s _) as [y|] eqn:E.
    + inversion H; subst y; clear H.
      apply Hr in E. destruct E as (w1 & rest1 & -> & L1 & K).
      destruct (Nat.eqb_spec (pos + length w1) pos) as [|Hne]; [discriminate|].
      apply IH in K. destruct K as (w2 & rest & -> & L2 & K).
      exists (w1 ++ w2), rest. rewrite app_assoc. split; [reflexivity|].
      split.
      * apply L_StarS; auto.
        intros ->. simpl in Hne. lia.
      * rewrite length_app, Nat.add_assoc. exact K.
    + exists [], s. rewrite Nat.add_0_r. repeat split; auto. constructor.
Qed.

Lemma rmatch_sound r : sound_for R r.
Proof.
  induction r as [|p|r1 IH1 r2 IH2|r1 IH1 r2 IH2|r IH| |];
    intros pos s k x H; simpl in H.
  - exists [], s. rewrite Nat.add_0_r. repeat split; auto. constructor.
  - destruct s as [|c s']; [discriminate|].
    destruct (p c) eqn:Pc; [|discriminate].
    exists [c], s'. simpl. rewrite Nat.add_1_r. repeat split; auto.
    constructor; auto.
  - apply IH1 in H. destruct H as (w1 & rest1 & -> & L1 & H).
    apply IH2 in H. destruct H as (w2 & rest & -> & L2 & H).
    exists (w1 ++ w2), rest. rewrite app_assoc. split; [reflexivity|].
    split; [constructor; auto|].
    rewrite length_app, Nat.add_assoc. exact H.
  - destruct (rmatch r1 pos s k) as [y|] eqn:E.
    + inversion H; subst y. apply IH1 in E.
      destruct E as (w & rest & -> & L & K).
      exists w, rest. repeat split; auto. apply L_AltL; auto.
    + apply IH2 in H. destruct H as (w & rest & -> & L & K).
      exists w, rest. repeat split; auto. apply L_AltR; auto.
  - eapply star_loop_sound; eauto.
  - destruct (Nat.eqb_spec pos 0) as [->|]; [|discriminate].
    exists [], s. repeat split; auto. constructor.
  - exists [], s. rewrite Nat.add_0_r.
    destruct s as [|c [|d s']]; try discriminate.
    + repeat split; auto. constructor; auto.
    + destruct (Ascii.eqb_spec c newline) as [->|]; [|discriminate].
      repeat split; auto. constructor; auto.
Qed.

Lemma star_loop_complete r (k : nat -> str -> option R) :
  complete_for R r ->
  forall fuel pos w rest x,
    length w <= fuel ->
    lang (Star r) pos w rest ->
    k (pos + length w) rest = Some x ->
    exists y, star_loop (rmatch r) k fuel pos (w ++ rest) = Some y.
Proof.
  intros Hr. induction fuel as [|fuel IH]; intros pos w rest x Hlen L K.
  - destruct w; [|simpl in Hlen; lia].
    simpl in *. rewrite Nat.add_0_r in K. eauto.
  - simpl. inversion L; subst.
    + simpl in *. rewrite Nat.add_0_r in K.
      destruct (rmatch r pos rest _); eauto.
    + rewrite length_app in Hlen, K. rewrite Nat.add_assoc in K.
      assert (Hw1 : 0 < length w1) by (destruct w1; simpl; [congruence|lia]).
      destruct (IH (pos + length w1) w2 rest x) as (y & Hy); auto; [lia|].
      rewrite <- app_assoc.
      destruct (Hr pos w1 (w2 ++ rest) ltac:(eassumption)
                  (fun pos' s' =>
                     if pos' =? pos then None
                     else star_loop (rmatch r) k fuel pos' s') y) as (z & Hz).
      * destruct (Nat.eqb_spec (pos + length w1) pos); [lia|]. exact Hy.
      * rewrite Hz. eauto.
Qed.

Lemma rmatch_complete r : complete_for R r.
Proof.
  induction r as [|p|r1 IH1 r2 IH2|r1 IH1 r2 IH2|r IH| |];
    intros pos w rest L k x K.
  - inversion L; subst. simpl in *. rewrite Nat.add_0_r in K. eauto.
  - inversion L as [|? ? ? ? Pc| | | | | | |]; subst. simpl in *. rewrite Pc.
    rewrite Nat.add_1_r in K. eauto.
  - inversion L as [| |? ? ? w1 w2 ? L1 L2| | | | | |]; subst. simpl.
    rewrite length_app, Nat.add_assoc in K.
    destruct (IH2 _ _ _ L2 k x K) as (y & Hy).
    rewrite <- app_assoc.
    apply (IH1 _ _ _ L1 (fun pos' s' => rmatch r2 pos' s' k) y Hy).
  - simpl. inversion L as [| | |? ? ? ? ? L1|? ? ? ? ? L2| | | |]; subst.
    + destruct (IH1 _ _ _ L1 k x K) as (y & ->). eauto.
    + destruct (rmatch r1 pos (w ++ rest) k); eauto.
  - simpl. eapply star_loop_complete; eauto.
    rewrite length_app. lia.
  - inversion L; subst. simpl in *. eauto.
  - inversion L as [| | | | | | | |? ? He]; subst. simpl in *.
    rewrite Nat.add_0_r in K.
    destruct He as [->| ->]; simpl; eauto.
Qed.

End Sound.

Lemma match_at_sound r pos s e :
  match_at r pos s = Some e ->
  exists w rest, s = w ++ rest /\ lang r pos w rest /\ e = pos + length w.
Proof.
  intros H. apply rmatch_sound in H.
  destruct H as (w & rest & -> & L & K). inversion K. eauto.
Qed.

Lemma match_at_complete r pos w rest :
  lang r pos w rest -> exists e, match_at r pos (w ++ rest) = Some e.
Proof.
  intros L. eapply rmatch_complete; eauto.
Qed.

Lemma match_at_none r pos s :
  match_at r pos s = None ->
  forall w rest, s = w ++ rest -> ~ lang r pos w rest.
Proof.
  intros H w rest -> L.
  destruct (match_at_complete L) as (e & He). congruence.
Qed.

(** A search that succeeds returns a word of the pattern, and no word of
    the pattern starts further left. *)
Lemma search_from_sound r s : forall pos st e,
  search_from r pos s = Some (st, e) ->
  exists pre w rest,
    s = pre ++ w ++ rest /\ st = pos + length pre /\ e = st + length w /\
    lang r st w rest /\
    (forall pre' w' rest',
        s = pre' ++ w' ++ rest' -> lang r (pos + length pre') w' rest' ->
        length pre <= length pre').
Proof.
  induction s as [|c s IH]; intros pos st e H; simpl in H.
  - destruct (match_at r pos []) as [e'|] eqn:E; [|discriminate].
    inversion H; subst. apply match_at_sound in E.
    destruct E as (w & rest & Hs & L & ->).
    exists [], w, rest. simpl. rewrite Nat.add_0_r.
    repeat split; auto. intros; lia.
  - destruct (match_at r pos (c :: s)) as [e'|] eqn:E.
    + inversion H; subst. apply match_at_sound in E.
      destruct E as (w & rest & Hs & L & ->).
      exists [], w, rest. simpl. rewrite Nat.add_0_r.
      repeat split; auto. intros; lia.
    + apply IH in H.
      destruct H as (pre & w & rest & -> & -> & -> & L & Hleft).
      exists (c :: pre), w, rest. simpl.
      replace (pos + S (length pre)) with (S pos + length pre) by lia.
      repeat split; auto.
      intros [|c' pre'] w' rest' Hs L'.
      * simpl in *. rewrite Nat.add_0_r in L'.
        exfalso. eapply match_at_none; eauto.
      * simpl in *. inversion Hs; subst.
        apply le_n_S. eapply Hleft; eauto.
        replace (S (pos + length pre')) with (pos + S (length pre')) by lia.
        exact L'.
Qed.

Lemma search_from_none r s : forall pos,
  search_from r pos s = None ->
  forall pre w rest,
    s = pre ++ w ++ rest -> ~ lang r (pos + length pre) w rest.
Proof.
  induction s as [|c s IH]; intros pos H pre w rest Hs L; simpl in H.
  - destruct (match_at r pos []) eqn:E; [discriminate|].
    destruct pre; [|discriminate]. simpl in *. rewrite Nat.add_0_r in L.
    eapply match_at_none; eauto.
  - destruct (match_at r pos (c :: s)) eqn:E; [discriminate|].
    destruct pre as [|c' pre]; simpl in *.
    + rewrite Nat.add_0_r in L. eapply match_at_none; eauto.
    + inversion Hs; subst. eapply (IH (S pos)); eauto.
      replace (S pos + length pre) with (pos + S (length pre)) by lia.
      exact L.
Qed.

Lemma re_search_occurs r s :
  matched (re_search r s) = true <-> occurs r s.
Proof.
  unfold re_search. split.
  - destruct (search_from r 0 s) as [[st e]|] eqn:E; [|discriminate].
    intros _. apply search_from_sound in E.
    destruct E as (pre & w & rest & -> & -> & -> & L & _).
    exists pre, w, rest. auto.
  - intros (pre & w & rest & Hs & L).
    destruct (search_from r 0 s) eqn:E; [reflexivity|].
    exfalso. eapply search_from_none; eauto.
Qed.

Lemma re_search_none r s :
  re_search r s = None <-> ~ occurs r s.
Proof.
  rewrite <- re_search_occurs.
  destruct (re_search r s); simpl; split; congruence.
Qed.

(** The first element of [findall] is the match of [search]. *)
Lemma findall_search r s :
  findall r s =
  match re_search r s with
  | None => []
  | Some (st, e) =>
      firstn (e - st) (skipn st s) :: tl (findall r s)
  end.
Proof.
  unfold findall, re_search. simpl.
  destruct (search_from r 0 s) as [[st e]|]; [|reflexivity].
  rewrite Nat.sub_0_r. reflexivity.
Qed.

(** *** Shapes of words *)

Lemma in_all_ascii c : In c all_ascii.
Proof.
  unfold all_ascii. rewrite <- (ascii_nat_embedding c).
  apply in_map. apply in_seq. pose proof (nat_ascii_bounded c). lia.
Qed.

Lemma cls_clean_spec p c :
  cls_clean p = true -> p c = true -> is_space c = false.
Proof.
  unfold cls_clean. rewrite forallb_forall. intros H Pc.
  specialize (H c (in_all_ascii c)). rewrite Pc in H.
  destruct (is_space c); [discriminate|reflexivity].
Qed.

Lemma nonnull_spec r pos w rest :
  lang r pos w rest -> nonnull r = true -> w <> [].
Proof.
  induction 1 as [| | r1 r2 ? w1 w2 ? L1 IH1 L2 IH2 | | | | | |];
    simpl; intros N; try discriminate.
  - apply orb_true_iff in N. intros E. apply app_eq_nil in E.
    destruct E as [E1 E2]. destruct N as [N|N]; [apply IH1|apply IH2]; auto.
  - apply andb_true_iff in N. tauto.
  - apply andb_true_iff in N. tauto.
Qed.

Lemma starts_clean_spec r pos w rest :
  lang r pos w rest -> starts_clean r = true -> head_clean w.
Proof.
  induction 1 as [| p c ? ? Pc | r1 r2 ? w1 w2 ? L1 IH1 L2 IH2 | | | |
                  r ? w1 w2 ? Hne L1 IH1 L2 IH2 | |];
    simpl; intros C; auto.
  - eapply cls_clean_spec; eauto.
  - apply andb_true_iff in C. destruct C as [C1 C2].
    destruct w1 as [|c w1]; simpl.
    + apply orb_true_iff in C2. destruct C2 as [C2|N]; auto.
      exfalso. exact (nonnull_spec L1 N eq_refl).
    + apply IH1; auto.
  - apply andb_true_iff in C. tauto.
  - apply andb_true_iff in C. tauto.
  - destruct w1; [congruence|]. simpl. apply IH1; auto.
Qed.

Lemma ends_clean_spec r pos w rest :
  lang r pos w rest -> ends_clean r = true -> last_clean w.
Proof.
  unfold last_clean.
  induction 1 as [| p c ? ? Pc | r1 r2 ? w1 w2 ? L1 IH1 L2 IH2 | | | |
                  r ? w1 w2 ? Hne L1 IH1 L2 IH2 | |];
    simpl; intros C; auto.
  - eapply cls_clean_spec; eauto.
  - apply andb_true_iff in C. destruct C as [C2 C1].
    rewrite rev_app_distr.
    destruct (rev w2) as [|c v] eqn:E; simpl.
    + apply orb_true_iff in C1. destruct C1 as [C1|N]; auto.
      exfalso. apply (nonnull_spec L2 N).
      rewrite <- (rev_involutive w2), E. reflexivity.
    + apply (IH2 C2).
  - apply andb_true_iff in C. tauto.
  - apply andb_true_iff in C. tauto.
  - rewrite rev_app_distr.
    destruct (rev w2) as [|c v] eqn:E; simpl.
    + apply IH1; auto.
    + apply (IH2 C).
Qed.

Lemma lstrip_clean w : head_clean w -> lstrip w = w.
Proof.
  destruct w as [|c w]; simpl; auto. intros ->. reflexivity.
Qed.

Lemma strip_clean w : head_clean w -> last_clean w -> strip w = w.
Proof.
  intros Hh Hl. unfold strip, rstrip.
  rewrite (lstrip_clean _ Hh), (lstrip_clean _ Hl).
  apply rev_involutive.
Qed.

(** *** Words of literals, classes and repetitions *)

Lemma lang_star_cls (p : ascii -> bool) rest : forall w pos,
  forallb p w = true -> lang (Star (Cls p)) pos w rest.
Proof.
  induction w as [|c w IH]; intros pos H; simpl in H.
  - constructor.
  - apply andb_true_iff in H. destruct H as [Pc Pw].
    apply (L_StarS (r := Cls p) (w1 := [c]) (w2 := w)).
    + discriminate.
    + constructor. exact Pc.
    + apply IH. exact Pw.
Qed.

Lemma lang_plus_cls (p : ascii -> bool) rest w pos :
  w <> [] -> forallb p w = true -> lang (Plus (Cls p)) pos w rest.
Proof.
  destruct w as [|c w]; [congruence|]. intros _ H. simpl in H.
  apply andb_true_iff in H. destruct H as [Pc Pw].
  apply (L_Cat (r1 := Cls p) (r2 := Star (Cls p)) (w1 := [c]) (w2 := w)).
  - constructor. exact Pc.
  - apply lang_star_cls. exact Pw.
Qed.

Lemma lang_lit s rest : forall pos, lang (Lit s) pos s rest.
Proof.
  induction s as [|c s IH]; intros pos; [constructor|].
  destruct s as [|c' s].
  - constructor. apply Ascii.eqb_refl.
  - change (lang (Cat (Chr c) (Lit (c' :: s))) pos ([c] ++ c' :: s) rest).
    constructor; [constructor; apply Ascii.eqb_refl|apply IH].
Qed.

Lemma lang_chr_inv c pos w rest : lang (Chr c) pos w rest -> w = [c].
Proof.
  unfold Chr. intros L.
  inversion L as [|? ? ? ? Pc| | | | | | |]; subst.
  apply Ascii.eqb_eq in Pc. subst. reflexivity.
Qed.

Lemma lang_lit_inv s : forall pos w rest, lang (Lit s) pos w rest -> w = s.
Proof.
  induction s as [|c s IH]; intros pos w rest L.
  - inversion L; reflexivity.
  - destruct s as [|c' s].
    + apply (lang_chr_inv L).
    + change (Lit (c :: c' :: s)) with (Cat (Chr c) (Lit (c' :: s))) in L.
      inversion L as [| |? ? ? w1 w2 ? L1 L2| | | | | |]; subst.
      apply lang_chr_inv in L1. apply IH in L2. subst. reflexivity.
Qed.

Lemma lang_star_cls_inv (p : ascii -> bool) pos w rest :
  lang (Star (Cls p)) pos w rest -> forallb p w = true.
Proof.
  remember (Star (Cls p)) as r eqn:Er. intros L. revert Er.
  induction L as [| | | | | | r ? w1 w2 ? Hne L1 IH1 L2 IH2 | |];
    intros Er; try discriminate; [reflexivity|].
  inversion Er; subst.
  inversion L1 as [|? ? ? ? Pc| | | | | | |]; subst.
  simpl. rewrite Pc. apply IH2. reflexivity.
Qed.

Lemma lang_opt_chr_inv c pos w rest :
  lang (Opt (Chr c)) pos w rest -> w = [] \/ w = [c].
Proof.
  unfold Opt. intros L.
  inversion L as [| | |? ? ? ? ? L1|? ? ? ? ? L2| | | |]; subst.
  - right. apply (lang_chr_inv L1).
  - left. inversion L2; reflexivity.
Qed.

End ReFacts.

(* ================================================================= *)
(** ** The event date *)

Module DateFacts.

Import Py Re ReFacts Final Spec.

Lemma cut_out (pre w rest : str) :
  firstn (length pre + length w - length pre) (skipn (length pre) (pre ++ w ++ rest)) = w.
Proof.
  rewrite skipn_app, skipn_all, Nat.sub_diag. simpl.
  replace (length pre + length w - length pre) with (length w + 0) by lia.
  rewrite firstn_app_2. simpl. apply app_nil_r.
Qed.

Lemma first_date_spec patterns text :
  forallb (fun p => starts_clean p && ends_clean p) patterns = true ->
  (first_match_of patterns text (first_date patterns text)) \/
  (no_match_of patterns text /\ first_date patterns text = []).
Proof.
  induction patterns as [|pattern rest IH]; simpl; intros C.
  - right. split; [intros p []|reflexivity].
  - apply andb_true_iff in C. destruct C as [Cp C].
    apply andb_true_iff in Cp. destruct Cp as [Cs Ce].
    rewrite findall_search.
    destruct (re_search pattern text) as [[st e]|] eqn:E.
    + left. apply search_from_sound in E.
      destruct E as (pre & w & rest' & -> & -> & -> & L & Hleft).
      simpl in *. rewrite cut_out.
      rewrite (strip_clean w (starts_clean_spec L Cs) (ends_clean_spec L Ce)).
      exists 0, pattern, pre, rest'. simpl.
      repeat split; auto. intros m p Hm. lia.
    + apply re_search_none in E.
      destruct (IH C) as [(n & p & pre & rest' & Hn & Hbefore & Ht & L & Hleft)
                         |(Hno & Hd)].
      * left. exists (S n), p, pre, rest'. simpl.
        repeat split; auto.
        intros [|m] q Hm Hq; simpl in Hq.
        -- inversion Hq; subst. exact E.
        -- apply (Hbefore m); auto. lia.
      * right. split; auto.
        intros q [<-|Hq]; auto.
Qed.

Lemma demands_spec q r pos w rest :
  lang r pos w rest -> demands q r = true -> existsb q w = true.
Proof.
  induction 1 as [| p c ? ? Pc | r1 r2 ? w1 w2 ? L1 IH1 L2 IH2 | | | | | |];
    intros D; cbn [demands] in D; try discriminate.
  - rewrite forallb_forall in D. specialize (D c (in_all_ascii c)).
    rewrite Pc in D. simpl in D. cbn [existsb]. rewrite D. reflexivity.
  - rewrite existsb_app. apply orb_true_iff in D. apply orb_true_iff.
    destruct D; [left|right]; auto.
  - apply andb_true_iff in D. tauto.
  - apply andb_true_iff in D. tauto.
Qed.

Lemma no_digit_no_date text :
  existsb is_digit text = false -> no_match_of date_patterns text.
Proof.
  intros Hd p Hp (pre & w & rest & -> & L).
  assert (D : demands is_digit p = true).
  { pose proof (eq_refl : forallb (demands is_digit) date_patterns = true) as A.
    rewrite forallb_forall in A. auto. }
  pose proof (demands_spec _ L D) as Hw.
  rewrite !existsb_app, Hw in Hd.
  simpl in Hd. rewrite orb_true_r in Hd. discriminate.
Qed.

(** *** The words of the month pattern *)

Lemma all_in_spec q r pos w rest :
  lang r pos w rest -> all_in q r = true -> forallb q w = true.
Proof.
  induction 1 as [| p c ? ? Pc | r1 r2 ? w1 w2 ? L1 IH1 L2 IH2 | | | |
                  r ? w1 w2 ? Hne L1 IH1 L2 IH2 | |];
    intros A; cbn [all_in] in A; try reflexivity.
  - rewrite forallb_forall in A. specialize (A c (in_all_ascii c)).
    rewrite Pc in A. simpl in A. cbn [forallb]. rewrite A. reflexivity.
  - apply andb_true_iff in A. rewrite forallb_app, IH1, IH2; tauto.
  - apply andb_true_iff in A. tauto.
  - apply andb_true_iff in A. tauto.
  - rewrite forallb_app, IH1, IH2; auto.
Qed.

Lemma lang_cls_inv (p : ascii -> bool) pos w rest :
  lang (Cls p) pos w rest -> exists c, w = [c] /\ p c = true.
Proof.
  intros L. inversion L as [|? c ? ? Pc| | | | | | |]; subst. eauto.
Qed.

Lemma lang_rep_cls_length (p : ascii -> bool) : forall n pos w rest,
  lang (Rep n (Cls p)) pos w rest -> length w = n.
Proof.
  induction n as [|n IH]; intros pos w rest L.
  - inversion L; reflexivity.
  - destruct n as [|n].
    + apply lang_cls_inv in L. destruct L as (c & -> & _). reflexivity.
    + change (Rep (S (S n)) (Cls p))
        with (Cat (Cls p) (Rep (S n) (Cls p))) in L.
      inversion L as [| |? ? ? w1 w2 ? L1 L2| | | | | |]; subst.
      apply lang_cls_inv in L1. destruct L1 as (c & -> & _).
      apply IH in L2. simpl. rewrite L2. reflexivity.
Qed.

(** A list splits in one way only at its first element outside a class. *)
Lemma split_unique (P : ascii -> bool) : forall a a' x x' b b',
  forallb P a = true -> forallb P a' = true ->
  P x = false -> P x' = false ->
  a ++ x :: b = a' ++ x' :: b' -> a = a' /\ x = x' /\ b = b'.
Proof.
  induction a as [|c a IH]; intros [|c' a'] x x' b b' Ha Ha' Hx Hx' E;
    simpl in *.
  - inversion E. auto.
  - inversion E; subst. apply andb_true_iff in Ha'. destruct Ha'. congruence.
  - inversion E; subst. apply andb_true_iff in Ha. destruct Ha. congruence.
  - inversion E; subst.
    apply andb_true_iff in Ha, Ha'. destruct Ha, Ha'.
    destruct (IH a' x x' b b') as (-> & -> & ->); auto.
Qed.

(** A word of the month pattern: letters, a space, a digit and more
    without white space, a space, four characters. *)
Lemma month_word pos w rest :
  lang (Seq (Plus alpha :: day_year)) pos w rest ->
  exists ls d mid d4,
    w = ls ++ " "%char :: (d :: mid) ++ " "%char :: d4 /\
    ls <> [] /\ forallb is_alpha ls = true /\
    is_digit d = true /\ forallb not_space (d :: mid) = true /\
    length d4 = 4.
Proof.
  intros L.
  change (Seq (Plus alpha :: day_year)) with
    (Cat (Cat alpha (Star alpha))
       (Cat (Chr " ")
          (Cat digit
             (Cat (Opt digit)
                (Cat (Opt (Chr "-"))
                   (Cat (UpTo 2 digit)
                      (Cat (Opt (Chr ","))
                         (Cat (Chr " ") (Rep 4 digit))))))))) in L.
  inversion L as [| |? ? ? ls w1 ? Lls L1| | | | | |]; subst; clear L.
  inversion L1 as [| |? ? ? sp w2 ? Lsp L2| | | | | |]; subst; clear L1.
  inversion L2 as [| |? ? ? dd w3 ? Ldd L3| | | | | |]; subst; clear L2.
  inversion L3 as [| |? ? ? o1 w4 ? Lo1 L4| | | | | |]; subst; clear L3.
  inversion L4 as [| |? ? ? o2 w5 ? Lo2 L5| | | | | |]; subst; clear L4.
  inversion L5 as [| |? ? ? u w6 ? Lu L6| | | | | |]; subst; clear L5.
  inversion L6 as [| |? ? ? o3 w7 ? Lo3 L7| | | | | |]; subst; clear L6.
  inversion L7 as [| |? ? ? sp' d4 ? Lsp' Ld4| | | | | |]; subst; clear L7.
  apply lang_chr_inv in Lsp, Lsp'. subst sp sp'.
  apply lang_cls_inv in Ldd. destruct Ldd as (d & -> & Hd).
  pose proof (nonnull_spec Lls eq_refl) as Hne.
  apply (all_in_spec is_alpha) in Lls; [|reflexivity].
  apply (all_in_spec not_space) in Lo1; [|reflexivity].
  apply (all_in_spec not_space) in Lo2; [|reflexivity].
  apply (all_in_spec not_space) in Lu; [|reflexivity].
  apply (all_in_spec not_space) in Lo3; [|reflexivity].
  apply (lang_rep_cls_length is_digit 4) in Ld4.
  exists ls, d, (o1 ++ o2 ++ u ++ o3), d4.
  repeat split; auto.
  - simpl. rewrite <- !app_assoc. reflexivity.
  - cbn [forallb]. rewrite !forallb_app, Lo1, Lo2, Lu, Lo3.
    unfold not_space.
    destruct d as [[|] [|] [|] [|] [|] [|] [|] [|]];
      try discriminate Hd; reflexivity.
Qed.

(** Until the letters end, a word of the month pattern is not decided. *)
Lemma date_follows_alpha ls d z :
  forallb is_alpha ls = true ->
  date_follows (ls ++ " "%char :: d :: z) = is_digit d.
Proof.
  unfold date_follows. induction ls as [|c ls IH]; simpl; intros H.
  - reflexivity.
  - apply andb_true_iff in H. destruct H as [Hc Hls].
    rewrite Hc. apply IH. exact Hls.
Qed.

Lemma month_word_front pos w rest :
  lang (Seq (Plus alpha :: day_year)) pos w rest ->
  starts_month_date (w ++ rest) = true.
Proof.
  intros L. apply month_word in L.
  destruct L as (ls & d & mid & d4 & -> & Hne & Hls & Hd & _).
  destruct ls as [|c ls]; [congruence|].
  simpl in Hls. apply andb_true_iff in Hls. destruct Hls as [Hc Hls].
  cbn [app starts_month_date]. rewrite Hc. cbn [andb].
  rewrite <- app_assoc. cbn [app].
  rewrite date_follows_alpha; auto.
Qed.

(** In front of "on February 23, 2024 at", a text without digits offers
    the month pattern no place to start. *)
Lemma no_date_follows suf : forall s0,
  existsb is_digit s0 = false ->
  date_follows (s0 ++ "on February 23, 2024 at" ++ suf) = false.
Proof.
  induction s0 as [|c s0 IH]; intros Hd.
  - reflexivity.
  - simpl in Hd. apply orb_false_iff in Hd. destruct Hd as [Hc Hd].
    unfold date_follows in *. cbn [app skip_alpha].
    destruct (is_alpha c) eqn:Ea; [apply IH; exact Hd|].
    destruct s0 as [|c' s0].
    + cbn [app list_ascii_of_string]. rewrite andb_false_r. reflexivity.
    + cbn [app]. simpl in Hd. apply orb_false_iff in Hd.
      destruct Hd as [Hc' _]. rewrite Hc', andb_false_r. reflexivity.
Qed.

Lemma no_month_date_before suf s0 :
  existsb is_digit s0 = false ->
  starts_month_date (s0 ++ "on February 23, 2024 at" ++ suf) = false.
Proof.
  destruct s0 as [|c s0]; intros Hd.
  - reflexivity.
  - simpl in Hd. apply orb_false_iff in Hd. destruct Hd as [_ Hd].
    cbn [app starts_month_date].
    rewrite (no_date_follows suf s0 Hd). apply andb_false_r.
Qed.

(** Without anchors, a word is a word at any offset and in front of any
    rest. *)
Lemma lang_anchor_free r pos w rest :
  lang r pos w rest -> anchor_free r = true ->
  forall pos' rest', lang r pos' w rest'.
Proof.
  induction 1 as [| | r1 r2 ? w1 w2 ? L1 IH1 L2 IH2
                  | ? ? ? ? ? L1 IH1 | ? ? ? ? ? L2 IH2 |
                  | r ? w1 w2 ? Hne L1 IH1 L2 IH2 | |];
    intros A pos' rest'; cbn [anchor_free] in A; try discriminate.
  - constructor.
  - constructor. assumption.
  - apply andb_true_iff in A. destruct A. constructor; auto.
  - apply andb_true_iff in A. destruct A. apply L_AltL; auto.
  - apply andb_true_iff in A. destruct A. apply L_AltR; auto.
  - constructor.
  - apply L_StarS; auto.
Qed.

Lemma february_word pos rest :
  lang (Seq (Plus alpha :: day_year)) pos "February 23, 2024" rest.
Proof.
  assert (M : match_at (Seq (Plus alpha :: day_year)) 0 "February 23, 2024"
              = Some 17) by reflexivity.
  apply match_at_sound in M. destruct M as (w & r & E & L & Hlen).
  assert (Hr : r = []).
  { apply (f_equal (@length ascii)) in E. rewrite length_app in E.
    simpl in E, Hlen. destruct r; [reflexivity|simpl in E; lia]. }
  subst r. rewrite app_nil_r in E. subst w.
  apply (lang_anchor_free L). reflexivity.
Qed.

(** The match of the month pattern in a text that has no digit before
    "on February 23, 2024 at". *)
Lemma february_search pre suf :
  existsb is_digit pre = false ->
  re_search (Seq (Plus alpha :: day_year))
    (pre ++ "on February 23, 2024 at" ++ suf) =
  Some (length pre + 3, length pre + 3 + 17).
Proof.
  intros Hd.
  destruct (re_search _ (pre ++ "on February 23, 2024 at" ++ suf))
    as [[st e]|] eqn:E.
  2:{ exfalso. apply re_search_none in E. apply E.
      exists (pre ++ "on "), "February 23, 2024", (" at" ++ suf).
      split; [rewrite <- app_assoc; reflexivity|apply february_word]. }
  apply search_from_sound in E.
  destruct E as (pre' & w & rest' & Ht & -> & -> & L & Hleft).
  simpl in L |- *.
  assert (Hle : length pre' <= length pre + 3).
  { specialize (Hleft (pre ++ "on ") "February 23, 2024" (" at" ++ suf)).
    rewrite length_app in Hleft. simpl in Hleft. apply Hleft.
    - rewrite <- app_assoc. reflexivity.
    - apply february_word. }
  pose proof (month_word_front L) as Hfront.
  symmetry in Ht. apply app_eq_app in Ht.
  destruct Ht as (l & [[-> Hk]|[-> Hk]]).
  - rewrite length_app in Hle.
    assert (Hk' : w ++ rest' =
                  skipn (length l) ("on February 23, 2024 at" ++ suf)).
    { rewrite Hk at 1. rewrite skipn_app, skipn_all, Nat.sub_diag.
      reflexivity. }
    assert (Hl : l = firstn (length l) ("on February 23, 2024 at" ++ suf)).
    { rewrite Hk at 1. rewrite firstn_app, firstn_all, Nat.sub_diag.
      simpl. symmetry. apply app_nil_r. }
    clear Hk.
    destruct l as [|a [|b [|c [|x l]]]]; simpl in Hle; try lia;
      simpl in Hk';
      try (rewrite Hk' in Hfront; discriminate Hfront).
    clear Hfront. simpl in Hl. rewrite Hl. clear Hl.
    apply month_word in L.
    destruct L as (ls & d & mid & d4 & -> & Hne & Hls & Hdig & Hmid & Hd4).
    symmetry in Hk'.
    rewrite <- !app_assoc in Hk'. cbn [app] in Hk'.
    rewrite <- app_assoc in Hk'. cbn [app] in Hk'.
    apply (@split_unique is_alpha "February" ls " " " "
             ("23, 2024 at" ++ suf)
             ((d :: mid) ++ " "%char :: d4 ++ rest')) in Hk'; auto.
    destruct Hk' as (<- & _ & Hk').
    apply (@split_unique not_space "23," (d :: mid) " " " "
             ("2024 at" ++ suf) (d4 ++ rest')) in Hk'; auto.
    destruct Hk' as (<- & _ & Hk').
    destruct d4 as [|d1 [|d2 [|d3 [|d4' [|x d4]]]]]; try discriminate Hd4.
    simpl in Hk'. inversion Hk'; subst.
    rewrite length_app. reflexivity.
  - exfalso. rewrite existsb_app in Hd. apply orb_false_iff in Hd.
    destruct Hd as [_ Hl].
    rewrite Hk, (no_month_date_before suf l Hl) in Hfront. discriminate.
Qed.

Lemma february_date pre suf :
  existsb is_digit pre = false ->
  extract_event_date (pre ++ "on February 23, 2024 at" ++ suf) =
  "February 23, 2024".
Proof.
  intros Hd. unfold extract_event_date.
  change date_patterns with
    (Seq (Plus alpha :: day_year) :: tl date_patterns).
  cbn [first_date]. rewrite findall_search, (february_search pre suf Hd).
  replace (pre ++ "on February 23, 2024 at" ++ suf)
    with ((pre ++ "on ") ++ "February 23, 2024" ++ (" at" ++ suf))
    by (rewrite <- app_assoc; reflexivity).
  replace (length pre + 3) with (length (pre ++ "on "))
    by (rewrite length_app; reflexivity).
  change 17 with (length (list_ascii_of_string "February 23, 2024")).
  rewrite cut_out. reflexivity.
Qed.

(** C4: the event-date extractor goes through the date patterns in their
    order and returns the leftmost match of the first pattern that has a
    match anywhere in the text, and the empty string when no pattern has
    one; a text without a date-like substring (in particular one without a
    digit) gives the empty string, and a text that holds
    "on February 23, 2024 at" with no digit before it, such as
    "...on February 23, 2024 at...", gives "February 23, 2024". *)
Theorem extract_event_date_first_match :
  (forall text,
      first_match_of date_patterns text (extract_event_date text) \/
      (no_match_of date_patterns text /\ extract_event_date text = [])) /\
  (forall text,
      no_match_of date_patterns text -> extract_event_date text = []) /\
  (forall text,
      existsb is_digit text = false -> extract_event_date text = []) /\
  (forall pre suf,
      existsb is_digit pre = false ->
      extract_event_date (pre ++ "on February 23, 2024 at" ++ suf) =
      "February 23, 2024") /\
  extract_event_date "...on February 23, 2024 at..." = "February 23, 2024".
Proof.
  assert (A : forall text,
      first_match_of date_patterns text (extract_event_date text) \/
      (no_match_of date_patterns text /\ extract_event_date text = [])).
  { intros text. apply first_date_spec. reflexivity. }
  assert (B : forall text,
      no_match_of date_patterns text -> extract_event_date text = []).
  { intros text Hno.
    destruct (A text) as [(n & p & pre & rest & Hn & _ & Ht & L & _)|[_ H]];
      auto.
    exfalso. apply (Hno p (nth_error_In _ _ Hn)).
    exists pre, (extract_event_date text), rest. auto. }
  split; [exact A|]. split; [exact B|]. split; [|split].
  - intros text Hd. apply B. apply no_digit_no_date. exact Hd.
  - apply february_date.
  - reflexivity.
Qed.

End DateFacts.

(* ================================================================= *)
(** ** The table locator and the row extractor *)

Module TextFacts.

Import Py Re ReFacts Final Spec.

(** The row loop only appends to the records it was given. *)
Lemma scan_rows_acc hy src d rows : forall acc,
  scan_rows hy src d rows acc = acc ++ scan_rows hy src d rows [].
Proof.
  induction rows as [|l rows IH]; intros acc; simpl.
  - symmetry. apply app_nil_r.
  - destruct (strip l) as [|c dl]; [apply IH|].
    destruct (is_section_break (c :: dl)); [symmetry; apply app_nil_r|].
    destruct (row_of_line hy (c :: dl) src d) as [r|]; [|apply IH].
    rewrite IH, (IH [r]), app_assoc. reflexivity.
Qed.

Lemma scan_table_acc lines i line_upper src d acc :
  scan_table lines i line_upper src d acc =
  bind (scan_table lines i line_upper src d [])
       (fun records => Ok (acc ++ records)).
Proof.
  unfold scan_table. destruct (detect_year lines i line_upper); simpl.
  - rewrite scan_rows_acc. reflexivity.
  - reflexivity.
Qed.

Lemma try_patterns_spec lines i line_upper src d : forall patterns st,
  try_patterns patterns lines i line_upper src d st =
  if existsb (fun pattern => matched (re_search pattern line_upper)) patterns
  then bind (scan_table lines i line_upper src d (snd st))
            (fun records => Ok (true, records))
  else Ok st.
Proof.
  induction patterns as [|p ps IH]; intros st; simpl; [reflexivity|].
  destruct (matched (re_search p line_upper)); simpl; auto.
Qed.

Lemma collect_cons t rest :
  collect (t :: rest) =
  bind t (fun records =>
            bind (collect rest) (fun more => Ok (records ++ more))).
Proof.
  destruct t; reflexivity.
Qed.

Lemma scan_lines_spec lines src d : forall todo i st,
  (forall k, k < length todo -> nth k todo [] = nth (i + k) lines []) ->
  bind (scan_lines lines i todo src d st) (fun st' => Ok (snd st')) =
  bind (collect
          (map (fun j => table_at lines j src d)
             (filter (fun j => is_header (nth j lines []))
                (seq i (length todo)))))
       (fun records => Ok (snd st ++ records)).
Proof.
  induction todo as [|line todo IH]; intros i st Hnth.
  - simpl. rewrite app_nil_r. reflexivity.
  - cbn [scan_lines].
    pose proof (Hnth 0 ltac:(simpl; lia)) as H0. simpl in H0.
    rewrite Nat.add_0_r in H0.
    assert (Hnth' : forall k, k < length todo ->
                              nth k todo [] = nth (S i + k) lines []).
    { intros k Hk. specialize (Hnth (S k) ltac:(simpl; lia)).
      simpl in Hnth. rewrite Hnth. f_equal. lia. }
    rewrite try_patterns_spec.
    cbn [length seq filter]. rewrite <- H0.
    fold (is_header line).
    destruct (is_header line); cbn [map].
    + rewrite collect_cons. unfold table_at at 1. rewrite <- H0.
      rewrite (scan_table_acc lines i (strip (upper line)) src d (snd st)).
      destruct (scan_table lines i (strip (upper line)) src d [])
        as [records|e]; [|reflexivity].
      cbn [bind]. rewrite (IH (S i) (true, snd st ++ records) Hnth').
      cbn [snd].
      destruct (collect _) as [more|e]; [|reflexivity].
      cbn [bind]. rewrite app_assoc. reflexivity.
    + apply IH. exact Hnth'.
Qed.

Lemma extract_all_table_data_tables text src d :
  extract_all_table_data text src d =
  collect
    (map (fun i => table_at (split_lines text) i src d)
       (header_positions (split_lines text))).
Proof.
  unfold extract_all_table_data, header_positions.
  pose proof (scan_lines_spec (split_lines text) src d (split_lines text) 0
                (false, []) ltac:(intros; reflexivity)) as H.
  cbn [snd app] in H.
  destruct (scan_lines _ _ _ _ _ _) as [st|e];
    destruct (collect _) as [records|e']; simpl in H; congruence.
Qed.

(** *** Section lines *)

(** A line of upper-case letters and white space only is a word of the
    section pattern. *)
Lemma all_caps_section_line line :
  line <> [] -> all_caps line = true ->
  matched (re_search section_line line) = true.
Proof.
  intros Hne Hcaps. apply re_search_occurs.
  exists [], line, []. split; [simpl; symmetry; apply app_nil_r|].
  change section_line
    with (Cat Bol (Cat (Plus (Cls (fun c => is_upper c || is_space c))) Eol)).
  apply (L_Cat (r1 := Bol) (w1 := []) (w2 := line)); [constructor|].
  rewrite <- (app_nil_r line).
  apply L_Cat.
  - apply lang_plus_cls; auto.
  - constructor. auto.
Qed.

Lemma all_caps_section_break line :
  all_caps line = true -> 10 < length line -> is_section_break line = true.
Proof.
  intros Hcaps Hlen. unfold is_section_break.
  rewrite all_caps_section_line; auto.
  - simpl. apply Nat.ltb_lt. exact Hlen.
  - intros ->. simpl in Hlen. lia.
Qed.

(** The row loop never looks behind a section line. *)
Lemma scan_rows_break hy src d l after : forall before acc,
  strip l <> [] -> is_section_break (strip l) = true ->
  scan_rows hy src d (before ++ l :: after) acc =
  scan_rows hy src d before acc.
Proof.
  intros before acc Hne Hbreak. revert acc.
  induction before as [|b before IH]; intros acc; simpl.
  - destruct (strip l) as [|c dl]; [congruence|]. rewrite Hbreak. reflexivity.
  - destruct (strip b) as [|c dl]; [apply IH|].
    destruct (is_section_break (c :: dl)); [reflexivity|].
    destruct (row_of_line hy (c :: dl) src d); apply IH.
Qed.

(** *** Slices *)

Lemma firstn_plus {A} (l : list A) : forall n k,
  firstn (n + k) l = firstn n l ++ firstn k (skipn n l).
Proof.
  induction l as [|x l IH]; intros [|n] k; simpl; auto.
  - destruct k; reflexivity.
  - rewrite IH. reflexivity.
Qed.

Lemma skipn_nth {A} (d : A) : forall (l : list A) j,
  j < length l -> skipn j l = nth j l d :: skipn (S j) l.
Proof.
  induction l as [|x l IH]; intros [|j] H; simpl in *; try lia; auto.
  apply IH. lia.
Qed.

Lemma slice_split {A} (d : A) (l : list A) a j b :
  a <= j -> j < b -> j < length l ->
  slice a b l = slice a j l ++ nth j l d :: slice (j + 1) b l.
Proof.
  intros Haj Hjb Hj. unfold slice.
  replace (b - a) with ((j - a) + S (b - (j + 1))) by lia.
  rewrite firstn_plus. f_equal.
  rewrite skipn_skipn. replace (j - a + a) with j by lia.
  rewrite (skipn_nth d l Hj). simpl.
  replace (j + 1) with (S j) by lia. reflexivity.
Qed.

(** *** Year tokens *)

(** A character of [isdigit] is no white space of [int], no sign and no
    underscore. *)
Lemma digit_char_plain c :
  is_digit_char c = true ->
  is_int_space c = false /\ Ascii.eqb c "-" = false /\
  Ascii.eqb c "+" = false /\ Ascii.eqb c "_" = false.
Proof.
  destruct c as [[] [] [] [] [] [] [] []]; intros H;
    try discriminate H; repeat split; reflexivity.
Qed.

Lemma drop_int_space_digits s :
  forallb is_digit_char s = true -> drop_int_space s = s.
Proof.
  destruct s as [|c s]; [reflexivity|]. simpl. intros H.
  apply andb_true_iff in H. destruct H as [H _].
  destruct (digit_char_plain c H) as [-> _]. reflexivity.
Qed.

Lemma digit_groups_digits s : forall b,
  forallb is_digit_char s = true ->
  digit_groups b s =
  if forallb is_digit s then match s with [] => b | _ => true end else false.
Proof.
  induction s as [|c s IH]; intros b H; [reflexivity|].
  cbn [forallb] in H. apply andb_true_iff in H. destruct H as [Hc H].
  cbn [digit_groups forallb]. destruct (is_digit c); cbn [andb].
  - rewrite (IH true H). destruct (forallb is_digit s); [|reflexivity].
    destruct s; reflexivity.
  - destruct (digit_char_plain c Hc) as (_ & _ & _ & ->). reflexivity.
Qed.

Lemma filter_all {A} (f : A -> bool) l :
  forallb f l = true -> filter f l = l.
Proof.
  induction l as [|x l IH]; simpl; [reflexivity|].
  intros H. apply andb_true_iff in H. destruct H as [-> H].
  rewrite IH; auto.
Qed.

(** [int] on a string of [isdigit]: its value when all its characters are
    decimal digits, a [ValueError] when a superscript is among them. *)
Lemma int_isdigit part :
  isdigit part = true ->
  int part =
  if forallb is_digit part then Ok (decimal part) else Raise ValueError.
Proof.
  unfold isdigit, int. destruct part as [|c part]; [discriminate|].
  intros H.
  rewrite (drop_int_space_digits _ H).
  rewrite drop_int_space_digits.
  2:{ apply forallb_forall. intros x Hx. apply in_rev in Hx.
      rewrite forallb_forall in H. auto. }
  rewrite rev_involutive.
  pose proof H as Hc. cbn [forallb] in Hc.
  apply andb_true_iff in Hc. destruct Hc as [Hc _].
  destruct (digit_char_plain c Hc) as (_ & -> & -> & _).
  rewrite (digit_groups_digits _ false H).
  destruct (forallb is_digit (c :: part)) eqn:D; [|reflexivity].
  rewrite (filter_all _ _ D). reflexivity.
Qed.

(** The year test of a token: [int] raises on an ill token, and the test
    is the boolean one otherwise. *)
Lemma is_calendar_year_cases part :
  is_calendar_year part =
  if ill_year part then Raise ValueError else Ok (calendar_year part).
Proof.
  unfold calendar_year, ill_year, is_calendar_year.
  destruct (isdigit part) eqn:D; [|reflexivity].
  rewrite (int_isdigit _ D).
  destruct (length part =? 4); [|reflexivity].
  destruct (forallb is_digit part); reflexivity.
Qed.

Lemma decimal_digits_isdigit part :
  part <> [] -> forallb is_digit part = true -> isdigit part = true.
Proof.
  destruct part as [|c part]; [congruence|]. intros _ H. unfold isdigit.
  rewrite forallb_forall in *. intros x Hx. unfold is_digit_char.
  rewrite (H x Hx). reflexivity.
Qed.

Lemma calendar_year_shape_iff part :
  calendar_year part = true <-> calendar_year_shape part.
Proof.
  unfold calendar_year, is_calendar_year, calendar_year_shape. split.
  - destruct (isdigit part) eqn:D; [|discriminate].
    rewrite (int_isdigit _ D).
    destruct (Nat.eqb_spec (length part) 4); [|discriminate].
    destruct (forallb is_digit part); [|discriminate].
    intros H. apply andb_true_iff in H. destruct H as [H1 H2].
    apply Z.leb_le in H1, H2. auto.
  - intros (Hlen & Hdig & Hlo & Hhi).
    assert (D : isdigit part = true).
    { apply decimal_digits_isdigit; [|exact Hdig].
      intros E. rewrite E in Hlen. discriminate. }
    rewrite D, (int_isdigit _ D), Hlen, Hdig. simpl.
    apply andb_true_iff. split; apply Z.leb_le; auto.
Qed.

Lemma calendar_not_ill part : calendar_year part = true -> ill_year part = false.
Proof.
  intros H. apply calendar_year_shape_iff in H.
  destruct H as (_ & Hd & _). unfold ill_year. rewrite Hd.
  apply andb_false_r.
Qed.

Lemma ill_not_calendar part : ill_year part = true -> calendar_year part = false.
Proof.
  intros H. destruct (calendar_year part) eqn:E; [|reflexivity].
  rewrite (calendar_not_ill _ E) in H. discriminate.
Qed.

Lemma upper_char_space c :
  existsb is_space (upper_char c) = is_space c.
Proof.
  destruct c as [[|] [|] [|] [|] [|] [|] [|] [|]]; reflexivity.
Qed.

Lemma upper_space s : existsb is_space (upper s) = existsb is_space s.
Proof.
  induction s as [|c s IH]; simpl; [reflexivity|].
  rewrite existsb_app, upper_char_space, IH. reflexivity.
Qed.

(** On a token without white space, the test of the code pattern is the
    shape of an academic-year code. *)
Lemma is_year_code_shape part :
  existsb is_space part = false ->
  (is_year_code part = true <-> year_code_shape (upper part)).
Proof.
  intros Hws. unfold is_year_code, re_match. split.
  - destruct (match_at year_code 0 (upper part)) as [e|] eqn:E;
      [intros _|discriminate].
    apply match_at_sound in E. destruct E as (w & rest & Hu & L & _).
    change year_code with
      (Cat Bol
         (Cat (Alt (Lit "FR") (Alt (Lit "SO") (Alt (Lit "JR")
                      (Alt (Lit "SR") (Lit "GR")))))
            (Cat (Opt (Chr "-")) (Cat (Star digit) Eol)))) in L.
    inversion L as [| |? ? ? w0 w' ? L0 L'| | | | | |]; subst.
    inversion L0; subst. clear L0.
    inversion L' as [| |? ? ? code w'' ? Lc L''| | | | | |]; subst.
    inversion L'' as [| |? ? ? hy w3 ? Lh L3| | | | | |]; subst.
    inversion L3 as [| |? ? ? ds w4 ? Ld L4| | | | | |]; subst.
    inversion L4 as [| | | | | | | |? ? Hrest]; subst.
    apply lang_star_cls_inv in Ld. apply lang_opt_chr_inv in Lh.
    assert (Hr : rest = []).
    { destruct Hrest as [->| ->]; [reflexivity|].
      rewrite <- upper_space, Hu in Hws.
      rewrite !existsb_app in Hws. simpl in Hws.
      rewrite !orb_true_r in Hws. discriminate. }
    subst rest. simpl in Hu. rewrite !app_nil_r in Hu.
    exists code, hy, ds. repeat split; auto.
    clear - Lc. unfold year_codes.
    repeat match goal with
           | H : lang (Alt _ _) _ _ _ |- _ =>
               inversion H as [| | |? ? ? ? ? ?|? ? ? ? ? ?| | | |];
               subst; clear H
           | H : lang (Cat (Chr ?a) (Chr ?b)) _ _ _ |- _ =>
               apply (lang_lit_inv [a; b]) in H; subst
           end; simpl; auto 10.
  - intros (code & hy & ds & Hu & Hcode & Hhy & Hds).
    assert (L : lang year_code 0 (upper part) []).
    { rewrite Hu.
      change year_code with
        (Cat Bol
           (Cat (Alt (Lit "FR") (Alt (Lit "SO") (Alt (Lit "JR")
                        (Alt (Lit "SR") (Lit "GR")))))
              (Cat (Opt (Chr "-")) (Cat (Star digit) Eol)))).
      apply (L_Cat (r1 := Bol) (w1 := []) (w2 := code ++ hy ++ ds));
        [constructor|].
      rewrite <- (app_nil_r ds).
      repeat apply L_Cat.
      - unfold year_codes in Hcode. simpl in Hcode.
        destruct Hcode as [<-|[<-|[<-|[<-|[<-|[]]]]]];
          [ apply L_AltL
          | apply L_AltR, L_AltL
          | apply L_AltR, L_AltR, L_AltL
          | apply L_AltR, L_AltR, L_AltR, L_AltL
          | apply L_AltR, L_AltR, L_AltR, L_AltR ];
          apply lang_lit.
      - destruct Hhy as [->| ->].
        + apply L_AltR. constructor.
        + apply L_AltL. constructor. reflexivity.
      - apply lang_star_cls. exact Hds.
      - constructor. auto. }
    destruct (match_at_complete L) as (e & He).
    rewrite app_nil_r in He. rewrite He. reflexivity.
Qed.

(** The pieces of [re.split] hold no white space. *)
Lemma split_ws_from_clean s : forall in_ws,
  Forall (fun t => existsb is_space t = false) (split_ws_from in_ws s).
Proof.
  induction s as [|c s IH]; intros in_ws; simpl.
  - repeat constructor.
  - destruct (is_space c) eqn:Ec.
    + destruct in_ws; [apply IH|]. constructor; [reflexivity|apply IH].
    + specialize (IH false).
      destruct (split_ws_from false s) as [|t ts].
      * repeat constructor. simpl. rewrite Ec. reflexivity.
      * inversion IH; subst. constructor; auto. simpl.
        rewrite Ec. auto.
Qed.

Lemma in_removelast {A} (x : A) : forall l, In x (removelast l) -> In x l.
Proof.
  induction l as [|y l IH]; [auto|].
  destruct l as [|z l]; [intros []|].
  intros [H|H]; [left; exact H|right; apply IH; exact H].
Qed.

Lemma in_interior {A} (x : A) l : In x (interior l) -> In x l.
Proof.
  unfold interior. intros H. apply in_removelast in H.
  destruct l; simpl in *; auto.
Qed.

Lemma interior_clean s part :
  In part (interior (split_ws s)) -> existsb is_space part = false.
Proof.
  intros H. apply in_interior in H.
  pose proof (split_ws_from_clean s false) as C.
  rewrite Forall_forall in C. auto.
Qed.

Lemma year_token_test part :
  existsb is_space part = false ->
  (calendar_year part = true \/ is_year_code part = true <->
   year_token part).
Proof.
  intros Hws. unfold year_token.
  rewrite calendar_year_shape_iff, (is_year_code_shape _ Hws). reflexivity.
Qed.

(** A code begins with a letter, a token of [isdigit] does not. *)
Lemma isdigit_not_code part :
  isdigit part = true -> is_year_code part = true -> False.
Proof.
  destruct part as [|c part]; [discriminate|]. unfold isdigit.
  cbn [forallb]. intros H. apply andb_true_iff in H. destruct H as [Hc _].
  unfold is_year_code. cbn [upper flat_map].
  destruct c as [[|] [|] [|] [|] [|] [|] [|] [|]]; try discriminate Hc;
    vm_compute; discriminate.
Qed.

(** The look-ahead stops at the first token that decides: an ill token
    raises, a year token sets the flag. *)
Lemma any_year_part_cons part rest :
  any_year_part (part :: rest) =
  if ill_year part then Raise ValueError
  else if calendar_year part || is_year_code part then Ok true
  else any_year_part rest.
Proof.
  cbn [any_year_part]. rewrite is_calendar_year_cases.
  destruct (ill_year part); [reflexivity|].
  destruct (calendar_year part); reflexivity.
Qed.

Lemma any_year_part_app a : forall b,
  any_year_part (a ++ b) =
  match any_year_part a with
  | Ok false => any_year_part b
  | r => r
  end.
Proof.
  induction a as [|p a IH]; intros b; [reflexivity|].
  cbn [app]. rewrite !any_year_part_cons.
  destruct (ill_year p); [reflexivity|].
  destruct (calendar_year p || is_year_code p); [reflexivity|]. apply IH.
Qed.

Lemma peek_year_tokens check_lines :
  peek_year check_lines =
  any_year_part
    (flat_map
       (fun check_line =>
          if 4 <=? length (split_ws (strip check_line))
          then interior (split_ws (strip check_line)) else [])
       check_lines).
Proof.
  induction check_lines as [|l ls IH]; [reflexivity|].
  cbn [peek_year flat_map]. rewrite any_year_part_app.
  destruct (4 <=? length (split_ws (strip l))).
  - destruct (any_year_part (interior (split_ws (strip l)))) as [[|]|e];
      auto.
  - exact IH.
Qed.

Lemma any_year_part_true parts :
  any_year_part parts = Ok true <->
  exists pre part post,
    parts = pre ++ part :: post /\
    (calendar_year part = true \/ is_year_code part = true) /\
    existsb ill_year pre = false.
Proof.
  induction parts as [|p parts IH].
  - split; [discriminate|]. intros ([|? ?] & ? & ? & E & _); discriminate.
  - rewrite any_year_part_cons. destruct (ill_year p) eqn:Ei.
    + split; [discriminate|].
      intros ([|q pre] & part & post & E & Hy & Hpre); inversion E; subst.
      * destruct Hy as [Hy|Hy].
        -- rewrite (calendar_not_ill _ Hy) in Ei. discriminate.
        -- exfalso. clear - Ei Hy. unfold ill_year in Ei.
           apply andb_true_iff in Ei. destruct Ei as [Ei _].
           apply andb_true_iff in Ei. destruct Ei as [Ei _].
           revert Ei Hy. apply isdigit_not_code.
      * simpl in Hpre. rewrite Ei in Hpre. discriminate.
    + destruct (calendar_year p || is_year_code p) eqn:Ey.
      * split; [intros _|reflexivity].
        exists [], p, parts. apply orb_true_iff in Ey. auto.
      * rewrite IH. apply orb_false_iff in Ey. destruct Ey as [Ey1 Ey2]. split.
        -- intros (pre & part & post & -> & Hy & Hpre).
           exists (p :: pre), part, post. simpl. rewrite Ei. auto.
        -- intros ([|q pre] & part & post & E & Hy & Hpre);
             inversion E; subst.
           ++ destruct Hy; congruence.
           ++ simpl in Hpre. rewrite Ei in Hpre.
              exists pre, part, post. auto.
Qed.

Lemma any_year_part_raise parts e :
  any_year_part parts = Raise e <->
  e = ValueError /\
  exists pre part post,
    parts = pre ++ part :: post /\ ill_year part = true /\
    existsb (fun q => calendar_year q || is_year_code q) pre = false.
Proof.
  induction parts as [|p parts IH].
  - split; [discriminate|].
    intros (_ & [|? ?] & ? & ? & E & _); discriminate.
  - rewrite any_year_part_cons. destruct (ill_year p) eqn:Ei.
    + split.
      * intros H. inversion H. split; [reflexivity|].
        exists [], p, parts. auto.
      * intros (-> & _). reflexivity.
    + destruct (calendar_year p || is_year_code p) eqn:Ey.
      * split; [discriminate|].
        intros (_ & [|q pre] & part & post & E & Hi & Hpre);
          inversion E; subst.
        -- congruence.
        -- simpl in Hpre. rewrite Ey in Hpre. discriminate.
      * rewrite IH. split.
        -- intros (-> & pre & part & post & -> & Hi & Hpre).
           split; [reflexivity|].
           exists (p :: pre), part, post. simpl. rewrite Ey. auto.
        -- intros (-> & [|q pre] & part & post & E & Hi & Hpre);
             inversion E; subst.
           ++ congruence.
           ++ simpl in Hpre. rewrite Ey in Hpre. split; [reflexivity|].
              exists pre, part, post. auto.
Qed.

(** *** What a record holds *)

Lemma scan_year_spec parts : forall i year year_index,
  scan_year i parts = Ok (year, year_index) ->
  (year = [] /\ year_index = (-1)%Z) \/
  (In year parts /\
   (calendar_year year = true \/ is_year_code year = true)).
Proof.
  induction parts as [|p parts IH]; intros i year year_index; cbn [scan_year].
  - intros H. inversion H. left. auto.
  - rewrite is_calendar_year_cases.
    destruct (ill_year p); [discriminate|].
    destruct (calendar_year p) eqn:E1.
    + intros H. inversion H; subst. right. simpl. auto.
    + destruct (is_year_code p) eqn:E2.
      * intros H. inversion H; subst. right. simpl. auto.
      * intros H. apply IH in H. destruct H as [H|[H1 H2]]; [left|right]; auto.
        split; [right; exact H1|exact H2].
Qed.

Lemma row_with_year_ok data_line src d r :
  row_with_year (split_ws data_line) src d = Some r -> row_ok src d r.
Proof.
  unfold row_with_year.
  destruct (isdigit (nth 0 (split_ws data_line) [])); [|discriminate].
  destruct (scan_year 0 (interior (split_ws data_line)))
    as [[year year_index]|e] eqn:Es; [|discriminate].
  apply scan_year_spec in Es.
  destruct (2 <=? length (interior (split_ws data_line))); [|discriminate].
  destruct (name_and_team team_keywords_year _) as [name team].
  destruct (acceptable _ name team _) eqn:Ha; [|discriminate].
  intros H. inversion H; subst r; clear H.
  unfold row_ok. simpl. repeat split; auto.
  destruct Es as [[-> _]|[Hin Ht]]; [left; reflexivity|right].
  split; auto. eapply interior_clean; eauto.
Qed.

Lemma row_without_year_ok parts src d r :
  row_without_year parts src d = Some r -> row_ok src d r.
Proof.
  unfold row_without_year.
  destruct (isdigit (nth 0 parts [])); [|discriminate].
  destruct (2 <=? length (interior parts)); [|discriminate].
  destruct (name_and_team team_keywords_plain _) as [name team].
  destruct (acceptable _ name team _) eqn:Ha; [|discriminate].
  intros H. inversion H; subst r; clear H.
  unfold row_ok. simpl. repeat split; auto. left. reflexivity.
Qed.

Lemma row_of_line_ok hy data_line src d r :
  row_of_line hy data_line src d = Some r -> row_ok src d r.
Proof.
  unfold row_of_line.
  destruct (hy && (5 <=? length (split_ws data_line))).
  - apply row_with_year_ok.
  - destruct (4 <=? length (split_ws data_line)); [|discriminate].
    apply row_without_year_ok.
Qed.

Lemma scan_rows_ok hy src d rows : forall acc,
  Forall (row_ok src d) acc ->
  Forall (row_ok src d) (scan_rows hy src d rows acc).
Proof.
  induction rows as [|l rows IH]; intros acc Hacc; simpl; auto.
  destruct (strip l) as [|c dl]; [auto|].
  destruct (is_section_break (c :: dl)); [auto|].
  destruct (row_of_line hy (c :: dl) src d) as [r|] eqn:E; [|auto].
  apply IH. apply Forall_app. split; auto.
  constructor; [|constructor]. eapply row_of_line_ok; eauto.
Qed.

Lemma collect_forall (P : Row -> Prop) tables : forall records,
  (forall t rs, In t tables -> t = Ok rs -> Forall P rs) ->
  collect tables = Ok records -> Forall P records.
Proof.
  induction tables as [|t tables IH]; intros records Ht; cbn [collect].
  - intros H. inversion H. constructor.
  - destruct t as [rs|e]; [|discriminate].
    destruct (collect tables) as [more|e] eqn:E; [|discriminate].
    intros H. inversion H; subst. apply Forall_app. split.
    + apply (Ht (Ok rs)); [left|]; reflexivity.
    + apply IH; auto. intros t' rs' Hin. apply Ht. right. exact Hin.
Qed.

Lemma extract_all_table_data_ok text src d records :
  extract_all_table_data text src d = Ok records ->
  Forall (row_ok src d) records.
Proof.
  rewrite extract_all_table_data_tables. apply collect_forall.
  intros t rs Hin Ht. apply in_map_iff in Hin.
  destruct Hin as (i & <- & _). unfold table_at, scan_table in Ht.
  destruct (detect_year _ _ _); [|discriminate].
  inversion Ht. apply scan_rows_ok. constructor.
Qed.

Lemma extract_from_text_ok text src records r :
  extract_from_text text src = Ok records -> In r records ->
  row_ok src (extract_event_date text) r.
Proof.
  unfold extract_from_text.
  destruct (extract_all_table_data text src (extract_event_date text))
    as [rs|e] eqn:E; [|discriminate].
  intros H. inversion H; subst. simpl.
  apply extract_all_table_data_ok in E.
  rewrite Forall_forall in E. auto.
Qed.

(** The loose time pattern is matched at the front of a token exactly when
    the token begins with a digit. *)
Lemma loose_time_front time_part :
  matched (re_match loose_time time_part) = true <->
  exists c rest, time_part = c :: rest /\ is_digit c = true.
Proof.
  split.
  - destruct time_part as [|c rest]; [discriminate|].
    intros H. exists c, rest. split; auto.
    unfold re_match, match_at in H. cbn [loose_time Seq Plus rmatch] in H.
    fold digit in H. unfold digit at 1 in H. cbn [rmatch] in H.
    destruct (is_digit c); [reflexivity|discriminate].
  - intros (c & rest & -> & Hc).
    assert (L : lang loose_time 0 [c] rest).
    { change loose_time with
        (Cat (Plus digit)
           (Cat (Opt (Cls (fun c => Ascii.eqb c ":" || Ascii.eqb c ".")))
              (Star digit))).
      apply (L_Cat (w1 := [c]) (w2 := [])).
      - apply lang_plus_cls; [discriminate|]. simpl. rewrite Hc. reflexivity.
      - apply (L_Cat (w1 := []) (w2 := [])).
        + apply L_AltR. constructor.
        + constructor. }
    destruct (match_at_complete L) as (e & He).
    unfold re_match. simpl in He. rewrite He. reflexivity.
Qed.

Lemma acceptable_fields place name team time_part :
  acceptable place name team time_part = true ->
  isdigit place = true /\
  1 < length name /\ 1 < length team /\
  matched (re_match loose_time time_part) = true.
Proof.
  unfold acceptable. intros H.
  repeat (apply andb_true_iff in H; destruct H as [H ?]).
  repeat match goal with
         | H : (_ <? _) = true |- _ => apply Nat.ltb_lt in H
         end.
  repeat split; auto.
Qed.

Lemma year_ok_shape y :
  year_ok y ->
  y = [] \/ calendar_year_shape y \/ year_code_shape (upper y).
Proof.
  intros [->|[Hws [H|H]]]; auto.
  - right. left. apply calendar_year_shape_iff. exact H.
  - right. right. apply (is_year_code_shape _ Hws). exact H.
Qed.

Lemma existsb_none {A} (f : A -> bool) l :
  existsb f l = false <-> forall x, In x l -> f x = false.
Proof.
  induction l as [|y l IH]; simpl.
  - split; [intros _ x []|reflexivity].
  - rewrite orb_false_iff, IH. split.
    + intros [Hy Hl] x [<-|Hx]; auto.
    + intros H. split; [apply H; left; reflexivity|].
      intros x Hx. apply H. right. exact Hx.
Qed.

(** C2, as the code has it: the [break] after a matched header leaves the
    loop over the patterns, not the loop over the lines.  Every line in
    which a header pattern is found starts a row scan of its own, once, and
    the records of the text are the records of these tables one after the
    other, in the order of their headers; when the look-ahead of one of the
    headers raises, the call raises and gives no records at all. *)
Theorem every_header_starts_a_table text source_file event_date :
  extract_all_table_data text source_file event_date =
  collect
    (map (fun i => table_at (split_lines text) i source_file event_date)
       (header_positions (split_lines text))).
Proof.
  apply extract_all_table_data_tables.
Qed.

(** C2 as stated fails on a text with two headers: the second header is
    found as well, and the record below it is extracted under it, not under
    the first. *)
Lemma second_header_is_scanned :
  let lines : list str :=
    [ "PL NAME TEAM TIME" : str;
      "1 John Smith University of State 21.45" : str;
      "PLACE NAME TEAM TIME" : str;
      "2 Jane Doe College of X 22.10" : str ] in
  let john :=
    mkRow "1" "John Smith" "" "University of State" "21.45" "f.pdf" "" in
  let jane := mkRow "2" "Jane Doe" "" "College of X" "22.10" "f.pdf" "" in
  split_lines (text_of lines) = lines /\
  header_positions lines = [0; 2] /\
  extract_all_table_data (text_of lines) "f.pdf" "" = Ok [john; jane] /\
  first_table_only lines "f.pdf" "" = Ok [john] /\
  table_at lines 0 "f.pdf" "" = Ok [john] /\
  table_at lines 2 "f.pdf" "" = Ok [jane].
Proof.
  cbv zeta. repeat split; vm_compute; reflexivity.
Qed.

(** The one way the scan of a text ends early: four superscript twos in
    the window of the first header make [int] raise in the look-ahead; the
    call raises, the record under the second header is lost with it, and
    the document gives no record. *)
Lemma ill_token_aborts_the_document :
  let ill : str := repeat (ascii_of_nat 178) 4 in
  let lines : list str :=
    [ "PL NAME TEAM TIME" : str;
      ("1 John " : str) ++ ill ++ (" State College 21.45" : str);
      "PLACE NAME TEAM TIME" : str;
      "2 Jane Doe College of X 22.10" : str ] in
  let jane := mkRow "2" "Jane Doe" "" "College of X" "22.10" "f.pdf" "" in
  isdigit ill = true /\ int ill = Raise ValueError /\
  header_positions lines = [0; 2] /\
  table_at lines 0 "f.pdf" "" = Raise ValueError /\
  table_at lines 2 "f.pdf" "" = Ok [jane] /\
  extract_all_table_data (text_of lines) "f.pdf" "" = Raise ValueError /\
  extract_data_from_pdf
    (mkWorld true "pdfplumber" (Ok true) (Ok [ "f.pdf" : str ])
       (fun _ => Some (text_of lines)) true (fun _ => None))
    (init "results") "f.pdf" = [].
Proof.
  repeat split; vm_compute; reflexivity.
Qed.


(** C5, as the code has it: when a data line of a table's scan, after
    trimming, is made of the letters A to Z and white space only and is
    longer than 10 characters, the row loop ends at that line: the records
    of the table are those of the lines before it, so neither that line nor
    any later line gives a record. *)
Theorem section_line_ends_the_table
    lines i line_upper source_file event_date records j :
  i < j -> j < Nat.min (i + 200) (length lines) ->
  all_caps (strip (nth j lines [])) = true ->
  10 < length (strip (nth j lines [])) ->
  (forall has_year,
      scan_rows has_year source_file event_date (data_window lines i) records =
      scan_rows has_year source_file event_date (slice (i + 1) j lines)
        records) /\
  scan_table lines i line_upper source_file event_date records =
  bind (detect_year lines i line_upper)
       (fun has_year =>
          Ok (scan_rows has_year source_file event_date
                (slice (i + 1) j lines) records)).
Proof.
  intros Hij Hj Hcaps Hlen.
  assert (A : forall has_year,
      scan_rows has_year source_file event_date (data_window lines i) records =
      scan_rows has_year source_file event_date (slice (i + 1) j lines)
        records).
  { intros has_year. unfold data_window.
    rewrite (slice_split [] lines (a := i + 1) (j := j)); try lia.
    apply scan_rows_break.
    - intros E. rewrite E in Hlen. simpl in Hlen. lia.
    - apply all_caps_section_break; auto. }
  split; [exact A|]. unfold scan_table.
  destruct (detect_year lines i line_upper); simpl; [|reflexivity].
  rewrite A. reflexivity.
Qed.

Lemma section_line_ends_the_table_witness :
  let lines : list str :=
    [ "PL NAME TEAM TIME" : str;
      "1 John Smith University of State 21.45" : str;
      "  FINAL RESULTS  " : str;
      "2 Jane Doe College of X 22.10" : str ] in
  scan_table lines 0 "PL NAME TEAM TIME" "f.pdf" "" [] =
  bind (detect_year lines 0 "PL NAME TEAM TIME")
       (fun has_year =>
          Ok (scan_rows has_year "f.pdf" "" (slice (0 + 1) 2 lines) [])).
Proof.
  cbv zeta.
  apply (section_line_ends_the_table
           [ "PL NAME TEAM TIME" : str;
             "1 John Smith University of State 21.45" : str;
             "  FINAL RESULTS  " : str;
             "2 Jane Doe College of X 22.10" : str ]
           (i := 0) "PL NAME TEAM TIME" "f.pdf" "" [] (j := 2)).
  - lia.
  - simpl. lia.
  - reflexivity.
  - vm_compute. lia.
Defined.

(** C5 as stated fails for capitals outside A to Z: CLASIFICACION FINAL
    written with the accented O, U+00D3, is a line of upper-case letters
    longer than 10 characters, yet the scan goes on and the line after it
    gives a record. *)
Lemma accented_capitals_do_not_end_the_table :
  let title : str :=
    ("CLASIFICACI" : str) ++ [ascii_of_nat 211] ++ ("N FINAL" : str) in
  let lines : list str :=
    [ "PL NAME TEAM TIME" : str; title;
      "1 Ana Diaz UPR Ponce 12.3" : str ] in
  let ana := mkRow "1" "Ana Diaz" "" "UPR Ponce" "12.3" "f.pdf" "" in
  length (strip title) = 19 /\
  Dom.lower (strip title) <> strip title /\ upper (strip title) = strip title /\
  is_section_break (strip title) = false /\
  table_at lines 0 "f.pdf" "" = Ok [ana] /\
  extract_all_table_data (text_of lines) "f.pdf" "" = Ok [ana].
Proof.
  cbv zeta. repeat split; try (vm_compute; reflexivity).
  vm_compute. discriminate.
Qed.

(** C6, as the code has it: for a header without the YEAR keyword the
    look-ahead goes through the interior tokens (neither the first nor the
    last) of those of the five lines after the header, blank lines counted,
    that have at least four tokens.  The year flag is set exactly when one
    of these tokens is a four-digit value from 2020 to 2030 or an
    academic-year code and no token before it is ill, four characters of
    [isdigit] with a superscript digit among them; the look-ahead raises
    exactly when an ill token comes before every such year token. *)
Theorem year_flag_from_next_five_lines lines i line_upper :
  contains "YEAR" line_upper = false ->
  (detect_year lines i line_upper = Ok true <->
   exists pre part post,
     window_tokens lines i = pre ++ part :: post /\
     year_token part /\ existsb ill_year pre = false) /\
  (detect_year lines i line_upper = Raise ValueError <->
   exists pre part post,
     window_tokens lines i = pre ++ part :: post /\
     ill_year part = true /\ forall q, In q pre -> ~ year_token q) /\
  (forall part,
      In part (window_tokens lines i) <->
      exists check_line,
        In check_line (slice (i + 1) (i + 6) lines) /\
        4 <= length (split_ws (strip check_line)) /\
        In part (interior (split_ws (strip check_line)))).
Proof.
  intros Hkw.
  assert (Hclean : forall part,
             In part (window_tokens lines i) -> existsb is_space part = false).
  { intros part Hin. unfold window_tokens in Hin.
    apply in_flat_map in Hin. destruct Hin as (l & _ & Hin).
    destruct (4 <=? length (split_ws (strip l))); [|destruct Hin].
    eapply interior_clean; eauto. }
  assert (Hd : detect_year lines i line_upper =
               any_year_part (window_tokens lines i)).
  { unfold detect_year. rewrite Hkw. cbn [negb]. apply peek_year_tokens. }
  rewrite Hd. split; [|split].
  - rewrite any_year_part_true. split.
    + intros (pre & part & post & E & Hy & Hpre).
      exists pre, part, post. repeat split; auto.
      apply year_token_test; auto. apply Hclean. rewrite E.
      apply in_or_app. right. left. reflexivity.
    + intros (pre & part & post & E & Hy & Hpre).
      exists pre, part, post. repeat split; auto.
      apply year_token_test; auto. apply Hclean. rewrite E.
      apply in_or_app. right. left. reflexivity.
  - rewrite any_year_part_raise. split.
    + intros (_ & pre & part & post & E & Hi & Hpre).
      exists pre, part, post. repeat split; auto.
      intros q Hq Hy.
      apply year_token_test in Hy.
      * assert (Hq' : (calendar_year q || is_year_code q) = true).
        { apply orb_true_iff. exact Hy. }
        rewrite (proj1 (existsb_none _ pre) Hpre q Hq) in Hq'.
        discriminate.
      * apply Hclean. rewrite E. apply in_or_app. left. exact Hq.
    + intros (pre & part & post & E & Hi & Hpre). split; [reflexivity|].
      exists pre, part, post. repeat split; auto.
      apply existsb_none. intros q Hq.
      destruct (calendar_year q || is_year_code q) eqn:Ey; [|reflexivity].
      exfalso. apply (Hpre q Hq). apply year_token_test.
      * apply Hclean. rewrite E. apply in_or_app. left. exact Hq.
      * apply orb_true_iff. exact Ey.
  - intros part. unfold window_tokens. rewrite in_flat_map. split.
    + intros (l & Hl & Hin).
      destruct (Nat.leb_spec 4 (length (split_ws (strip l))));
        [|destruct Hin].
      exists l. auto.
    + intros (l & Hl & Hlen & Hin). exists l. split; [exact Hl|].
      apply Nat.leb_le in Hlen. rewrite Hlen. exact Hin.
Qed.

Lemma year_flag_from_next_five_lines_witness :
  detect_year
    [ "PL NAME TEAM TIME" : str; "" : str;
      "1 John Smith SR State College 12.3" : str ] 0 "PL NAME TEAM TIME"
  = Ok true.
Proof.
  apply (proj2
           (proj1
              (@year_flag_from_next_five_lines
                 [ "PL NAME TEAM TIME" : str; "" : str;
                   "1 John Smith SR State College 12.3" : str ] 0
                 "PL NAME TEAM TIME" eq_refl))).
  exists [ "John" : str; "Smith" : str ], ("SR" : str),
         [ "State" : str; "College" : str ].
  split; [vm_compute; reflexivity|]. split; [|reflexivity].
  right. exists ("SR" : str), [], []. simpl. auto 10.
Defined.

(** C6 as stated fails when blank lines stand between the header and the
    data: five blank lines use up the window, the flag stays false, although
    the first line after the header that is not blank has the interior
    token SR. *)
Lemma blank_lines_use_up_the_window :
  let lines : list str :=
    [ "PL NAME TEAM TIME" : str; "" : str; "" : str; "" : str; "" : str;
      "" : str; "1 John Smith SR State College 12.3" : str ] in
  let line_upper := strip (upper (nth 0 lines [])) in
  is_header (nth 0 lines []) = true /\
  contains "YEAR" line_upper = false /\
  following_nonblank lines 0 = [ "1 John Smith SR State College 12.3" : str ] /\
  year_flag_over_nonblank lines 0 = true /\
  detect_year lines 0 line_upper = Ok false.
Proof.
  cbv zeta. repeat split; vm_compute; reflexivity.
Qed.

(** C10: the YEAR of a record of the text path is empty, or four digits
    with a value from 2020 to 2030, or a token whose upper-casing is FR, SO,
    JR, SR or GR, then a hyphen or none, then digits or none; so a token of
    four characters of [isdigit] is the YEAR only when [int] gives it a
    value from 2020 to 2030, and 1999 never is. *)
Theorem year_field_values text source_file records r :
  extract_from_text text source_file = Ok records -> In r records ->
  (YEAR r = [] \/ calendar_year_shape (YEAR r) \/
   year_code_shape (upper (YEAR r))) /\
  (length (YEAR r) = 4 -> isdigit (YEAR r) = true ->
   exists n, int (YEAR r) = Ok n /\ (2020 <= n <= 2030)%Z).
Proof.
  intros Hrun Hin.
  apply (@extract_from_text_ok text source_file records r Hrun) in Hin.
  destruct Hin as (_ & Hy & _).
  split; [apply year_ok_shape; exact Hy|]. intros Hlen Hd.
  destruct Hy as [E|[_ [H|H]]].
  - rewrite E in Hlen. discriminate.
  - apply calendar_year_shape_iff in H. destruct H as (_ & Hdig & Hb).
    exists (decimal (YEAR r)). split; [|exact Hb].
    rewrite (int_isdigit _ Hd), Hdig. reflexivity.
  - destruct (isdigit_not_code _ Hd H).
Qed.

Lemma year_field_values_witness :
  let r := mkRow "3" "Maria Rivera" "SR" "Caribbean University" "12.34"
                 "f.pdf" "" in
  (YEAR r = [] \/ calendar_year_shape (YEAR r) \/
   year_code_shape (upper (YEAR r))) /\
  (length (YEAR r) = 4 -> isdigit (YEAR r) = true ->
   exists n, int (YEAR r) = Ok n /\ (2020 <= n <= 2030)%Z).
Proof.
  apply (@year_field_values
           (text_of [ "PL NAME YEAR TEAM TIME" : str;
                      "3 Maria Rivera SR Caribbean University 12.34" : str ])
           "f.pdf"
           [ mkRow "3" "Maria Rivera" "SR" "Caribbean University" "12.34"
                   "f.pdf" "" ]).
  - vm_compute. reflexivity.
  - left. reflexivity.
Defined.

End TextFacts.

(* ================================================================= *)
(** ** The fields of emitted records *)

Module RecordFacts.

Import Py Re ReFacts Spec TextFacts.

(** C1, as the code has it: a record of the text path has a PL for which
    [isdigit] holds, at least one character, each a decimal digit or one of
    the superscripts U+00B2, U+00B3, U+00B9; a NAME and a TEAM of more than
    one character; and a TIME at whose front the loose time pattern matches,
    which is to say a TIME that begins with a decimal digit; it carries the
    file name and the event date of its text, and YEAR and EVENT_DATE can be
    empty.  A record of the table-row mapper has at least one of PL, NAME,
    TEAM and TIME non-empty. *)
Theorem emitted_record_fields :
  (forall text source_file records r,
      Final.extract_from_text text source_file = Ok records ->
      In r records ->
      Final.PL r <> [] /\ forallb is_digit_char (Final.PL r) = true /\
      1 < length (Final.NAME r) /\ 1 < length (Final.TEAM r) /\
      matched (re_match Final.loose_time (Final.TIME r)) = true /\
      (exists c rest, Final.TIME r = c :: rest /\ is_digit c = true) /\
      Final.SOURCE_FILE r = source_file /\
      Final.EVENT_DATE r = Final.extract_event_date text) /\
  (exists text r,
      Final.extract_from_text text "f.pdf" = Ok [r] /\
      Final.YEAR r = [] /\ Final.EVENT_DATE r = []) /\
  (exists text r,
      Final.extract_from_text text "f.pdf" = Ok [r] /\
      Final.PL r = [ascii_of_nat 178]) /\
  (forall row field_indices source_file r,
      Tables.extract_record_from_row row field_indices source_file = Some r ->
      Tables.PL r <> [] \/ Tables.NAME r <> [] \/
      Tables.TEAM r <> [] \/ Tables.TIME r <> []).
Proof.
  split; [|split; [|split]].
  - intros text src records r Hrun Hin.
    apply (@extract_from_text_ok text src records r Hrun) in Hin.
    destruct Hin as (Ha & _ & Hs & Hd).
    apply acceptable_fields in Ha.
    destruct Ha as (H1 & H3 & H4 & H5).
    unfold isdigit in H1.
    destruct (Final.PL r) as [|c pl] eqn:E; [discriminate|].
    repeat split; auto; [discriminate|]. apply loose_time_front. exact H5.
  - exists (text_of [ "PL NAME TEAM TIME" : str;
                      "1 John Smith University of State 21.45" : str ]).
    exists (Final.mkRow "1" "John Smith" "" "University of State" "21.45"
                        "f.pdf" "").
    vm_compute. auto.
  - exists (text_of [ "PL NAME TEAM TIME" : str;
                      [ascii_of_nat 178] ++
                      (" John Smith University of State 21.45" : str) ]).
    exists (Final.mkRow [ascii_of_nat 178] "John Smith" ""
                        "University of State" "21.45" "f.pdf" "").
    vm_compute. auto.
  - intros row fi src r. unfold Tables.extract_record_from_row.
    destruct (existsb _ _) eqn:E; [|discriminate].
    intros H. inversion H; subst r; clear H.
    cbn [Tables.PL Tables.NAME Tables.TEAM Tables.TIME] in *.
    cbn [existsb] in E.
    repeat (apply orb_true_iff in E; destruct E as [E|E]);
      try discriminate;
      [left | right; left | right; right; left | right; right; right];
      intros E'; rewrite E' in E; discriminate.
Qed.

(** C1 as stated fails on the table path: a table row that fills the place
    column only is kept, with empty NAME, TEAM and TIME. *)
Lemma table_row_with_place_only :
  Tables.process_table
    [ [ Some ("Place" : str); Some ("Name" : str); Some ("Team" : str);
        Some ("Time" : str) ];
      [ Some ("1" : str); None; None; None ] ] "f.pdf" =
  [ Tables.mkRow "1" "" "" "" "f.pdf" "" ] /\
  Tables.extract_record_from_row
    [ Some ("1" : str); None; None; None ]
    (Tables.mkFields (Some 0) (Some 1) (Some 2) (Some 3) None) "f.pdf" =
  Some (Tables.mkRow "1" "" "" "" "f.pdf" "").
Proof.
  split; vm_compute; reflexivity.
Qed.

End RecordFacts.

(* ================================================================= *)
(** ** Runs of the scraper *)

Module RunFacts.

Import Py Final Spec.

(** *** The folder *)

Lemma fold_process_file w files : forall self,
  extracted_data (fold_left (process_file w) files self) =
    extracted_data self ++
    flat_map (extract_data_from_pdf w self) files /\
  total_records (fold_left (process_file w) files self) =
    total_records self +
    length (flat_map (extract_data_from_pdf w self) files) /\
  folder_path (fold_left (process_file w) files self) = folder_path self.
Proof.
  induction files as [|f files IH]; intros self; simpl.
  - rewrite app_nil_r, Nat.add_0_r. auto.
  - destruct (IH (process_file w self f)) as (He & Ht & Hf).
    rewrite He, Ht, Hf. unfold process_file. cbn [extracted_data total_records
      folder_path].
    change (extract_data_from_pdf w
              {| folder_path := folder_path self;
                 extracted_data :=
                   extracted_data self ++ extract_data_from_pdf w self f;
                 total_records :=
                   total_records self + length (extract_data_from_pdf w self f)
              |}) with (extract_data_from_pdf w self).
    rewrite length_app, <- app_assoc, Nat.add_assoc. auto.
Qed.

Lemma flat_map_nil {A B} (f : A -> list B) l :
  flat_map f l = [] <-> forall x, In x l -> f x = [].
Proof.
  induction l as [|x l IH]; simpl.
  - split; [intros _ ? []|reflexivity].
  - split.
    + intros H. apply app_eq_nil in H. destruct H as [Hx Hl].
      intros y [<-|Hy]; auto. apply IH; auto.
    + intros H. rewrite (H x), (proj2 IH); auto.
Qed.




(** *** Printing *)

Lemma print_all_prints w ms : forall out,
  (forall m, In m ms -> stdout w m = None) ->
  print_all w ms out = (out ++ ms, Ok tt).
Proof.
  induction ms as [|m ms IH]; intros out H; simpl.
  - unfold ret. rewrite app_nil_r. reflexivity.
  - unfold then_, print. rewrite (H m (or_introl eq_refl)).
    rewrite IH by (intros; apply H; right; auto).
    rewrite <- app_assoc. reflexivity.
Qed.

Lemma print_all_ok w ms : forall out out' u,
  print_all w ms out = (out', Ok u) ->
  forall m, In m ms -> stdout w m = None.
Proof.
  induction ms as [|m ms IH]; intros out out' u H x Hx; [destruct Hx|].
  simpl in H. unfold then_, print in H.
  destruct (stdout w m) eqn:E; [discriminate|].
  destruct Hx as [<-|Hx]; [exact E|].
  exact (IH _ _ _ H x Hx).
Qed.

(** What [main] prints and ends with when [print] raises on none of its
    lines. *)
Lemma main_report w argv out :
  prints_all w ->
  main w argv out =
  if negb (length argv =? 2)
  then (out ++ [MUsage; MExample], Ok (Usage, NotTried))
  else
    match process_folder w (init (nth 1 argv [])) with
    | Raise e => (out ++ [MStarting (nth 1 argv []); MDashes], Raise e)
    | Ok (false, _) =>
        (out ++ [MStarting (nth 1 argv []); MDashes] ++ [MProcessFailed],
         Ok (ProcessFailed, NotTried))
    | Ok (true, scraper) =>
        (out ++ [MStarting (nth 1 argv []); MDashes] ++
           summary_lines w scraper ++
           (if fst (save_to_csv w scraper)
            then [MCompleted; MSavedTo; MTotalRecords (total_records scraper)]
            else [MSaveFailed]),
         Ok (if fst (save_to_csv w scraper) then Completed else SaveFailed,
             snd (save_to_csv w scraper)))
    end.
Proof.
  intros Hq. unfold main.
  destruct (negb (length argv =? 2)).
  - unfold then_. rewrite print_all_prints by (intros; apply Hq).
    reflexivity.
  - unfold then_ at 1. rewrite print_all_prints by (intros; apply Hq).
    destruct (process_folder w _) as [[[|] scraper]|e]; [| |reflexivity].
    + unfold then_ at 1, display_summary.
      rewrite print_all_prints by (intros; apply Hq).
      destruct (save_to_csv w scraper) as [[|] saved]; cbn [fst snd].
      * unfold then_. rewrite print_all_prints by (intros; apply Hq).
        unfold ret. rewrite <- !app_assoc. reflexivity.
      * unfold then_, print. rewrite Hq.
        unfold ret. rewrite <- !app_assoc. reflexivity.
    + unfold then_, print. rewrite Hq.
      unfold ret. rewrite <- !app_assoc. reflexivity.
Qed.

Lemma quiet_prints_all w : prints_all (quiet w).
Proof. intros m. reflexivity. Qed.


(** When [print] raises on none of the lines that a run comes to, the run
    is the run on the console that prints every line. *)
Lemma main_as_quiet w argv out :
  (forall m, In m (fst (main (quiet w) argv [])) -> stdout w m = None) ->
  main w argv out =
    (out ++ fst (main (quiet w) argv []), snd (main (quiet w) argv [])).
Proof.
  rewrite (@main_report (quiet w) argv ([]) (quiet_prints_all w)).
  change (process_folder (quiet w)) with (process_folder w).
  unfold main.
  destruct (negb (length argv =? 2)); cbn [fst snd app].
  - intros H. unfold then_. rewrite print_all_prints by exact H. reflexivity.
  - destruct (process_folder w _) as [[[|] scraper]|e] eqn:E;
      cbn [fst snd app]; intros H.
    + change (summary_lines (quiet w) scraper) with (summary_lines w scraper)
        in *.
      change (save_to_csv (quiet w) scraper) with (save_to_csv w scraper)
        in *.
      unfold then_ at 1.
      rewrite print_all_prints
        by (intros m [<-|[<-|[]]]; apply H; simpl; auto).
      unfold then_ at 1, display_summary.
      rewrite print_all_prints
        by (intros m Hm; apply H; right; right; apply in_or_app; auto).
      destruct (save_to_csv w scraper) as [[|] saved]; cbn [fst snd] in *.
      * unfold then_.
        rewrite print_all_prints
          by (intros m Hm; apply H; right; right; apply in_or_app; auto).
        unfold ret. rewrite <- !app_assoc. reflexivity.
      * unfold then_, print.
        rewrite (H MSaveFailed)
          by (right; right; apply in_or_app; right; left; reflexivity).
        unfold ret. rewrite <- !app_assoc. reflexivity.
    + unfold then_ at 1.
      rewrite print_all_prints
        by (intros m [<-|[<-|[]]]; apply H; simpl; auto).
      unfold then_, print.
      rewrite (H MProcessFailed) by (simpl; auto).
      unfold ret. rewrite <- !app_assoc. reflexivity.
    + unfold then_ at 1.
      rewrite print_all_prints
        by (intros m [<-|[<-|[]]]; apply H; simpl; auto).
      reflexivity.
Qed.

(** When [main] returns, [print] raised on none of the lines of the run on
    the console that prints every line. *)
Lemma main_ok_lines w argv out out' r :
  main w argv out = (out', Ok r) ->
  forall m, In m (fst (main (quiet w) argv [])) -> stdout w m = None.
Proof.
  rewrite (@main_report (quiet w) argv ([]) (quiet_prints_all w)).
  change (process_folder (quiet w)) with (process_folder w).
  unfold main.
  destruct (negb (length argv =? 2)); cbn [fst snd app].
  - unfold then_.
    destruct (print_all w [MUsage; MExample] out) as [o [u|e]] eqn:E1;
      [|discriminate].
    intros _. exact (print_all_ok _ _ _ E1).
  - unfold then_ at 1.
    destruct (print_all w [MStarting (nth 1 argv []); MDashes] out)
      as [o1 [u1|e1]] eqn:E1; [|discriminate].
    pose proof (print_all_ok _ _ _ E1) as A1.
    destruct (process_folder w _) as [[[|] scraper]|e] eqn:E;
      cbn [fst snd app]; [| |discriminate].
    + change (summary_lines (quiet w) scraper) with (summary_lines w scraper).
      change (save_to_csv (quiet w) scraper) with (save_to_csv w scraper).
      unfold then_ at 1, display_summary.
      destruct (print_all w (summary_lines w scraper) o1)
        as [o2 [u2|e2]] eqn:E2; [|discriminate].
      pose proof (print_all_ok _ _ _ E2) as A2.
      destruct (save_to_csv w scraper) as [[|] saved]; cbn [fst snd].
      * unfold then_.
        destruct (print_all w _ o2) as [o3 [u3|e3]] eqn:E3; [|discriminate].
        pose proof (print_all_ok _ _ _ E3) as A3.
        intros _ m [<-|[<-|Hm]]; [apply A1; simpl; auto..|].
        apply in_app_or in Hm. destruct Hm; auto.
      * unfold then_, print.
        destruct (stdout w MSaveFailed) eqn:E3; [discriminate|].
        intros _ m [<-|[<-|Hm]]; [apply A1; simpl; auto..|].
        apply in_app_or in Hm. destruct Hm as [Hm|[<-|[]]]; auto.
    + unfold then_, print.
      destruct (stdout w MProcessFailed) eqn:E3; [discriminate|].
      intros _ m [<-|[<-|[<-|[]]]]; auto; apply A1; simpl; auto.
Qed.







(** Two runs that end with status 1 after [main] was given its argument:
    [exists()] raises for a folder name that is too long, and [print]
    raises on the line for a failed processing on a console that encodes
    ASCII only.  Both runs print the dashes last. *)
Lemma uncaught_exceptions_exit_with_one :
  run (mkWorld false [] (Raise OSError) (Ok []) (fun _ => None) true
         (fun _ => None))
      [ "final_pdf_scraper.py" : str; "aaaa" : str ] =
    ([ MNoLibrary; MInstallHint; MStarting "aaaa"; MDashes ], 1) /\
  run (mkWorld false [] (Ok false) (Ok []) (fun _ => None) true
         (fun m => match m with
                   | MCompleted | MSavedTo | MTotalRecords _
                   | MSaveFailed | MProcessFailed => Some UnicodeEncodeError
                   | _ => None
                   end))
      [ "final_pdf_scraper.py" : str; "missing" : str ] =
    ([ MNoLibrary; MInstallHint; MStarting "missing"; MDashes ], 1).
Proof.
  split; vm_compute; reflexivity.
Qed.

End RunFacts.

(* ================================================================= *)
(** ** The combined CSV file *)

Module CsvFacts.

Import Py Html.

Lemma padded_row_length row :
  length (padded_row row) = Nat.max 20 (length row).
Proof.
  unfold padded_row. rewrite length_app, repeat_length. lia.
Qed.

Lemma in_combine_seq {A} (l : list A) : forall start n x,
  In (n, x) (combine (seq start (length l)) l) <->
  start <= n /\ nth_error l (n - start) = Some x.
Proof.
  induction l as [|y l IH]; intros start n x; simpl.
  - split; [intros []|]. intros [_ H]. destruct (n - start); discriminate.
  - rewrite IH. split.
    + intros [H|[H1 H2]].
      * inversion H; subst. rewrite Nat.sub_diag. auto.
      * split; [lia|]. replace (n - start) with (S (n - S start)) by lia.
        exact H2.
    + intros [H1 H2]. destruct (n - start) as [|k] eqn:E.
      * left. inversion H2; subst. f_equal. lia.
      * right. split; [lia|]. replace (n - S start) with k by lia.
        exact H2.
Qed.

Lemma table_rows_spec table_name data out :
  In out (table_rows table_name data) <->
  exists d n row,
    data = Some d /\ nth_error (rows d) n = Some row /\
    out = [FStr table_name; FInt (S n)] ++ map FStr (padded_row row).
Proof.
  unfold table_rows. destruct data as [d|].
  - assert (H : In out
                  (map (fun nr : nat * list str =>
                          [FStr table_name; FInt (fst nr)] ++
                          map FStr (padded_row (snd nr)))
                       (combine (seq 1 (length (rows d))) (rows d))) <->
                exists d0 n row,
                  Some d = Some d0 /\ nth_error (rows d0) n = Some row /\
                  out = [FStr table_name; FInt (S n)] ++
                        map FStr (padded_row row)).
    { rewrite in_map_iff. split.
      - intros ([n row] & <- & Hin). apply in_combine_seq in Hin.
        destruct Hin as [Hn Hrow]. exists d, (n - 1), row. simpl.
        replace (S (n - 1)) with n by lia. auto.
      - intros (d0 & n & row & Hd & Hrow & ->). inversion Hd; subst d0.
        exists (S n, row). split; [reflexivity|].
        apply in_combine_seq. split; [lia|].
        replace (S n - 1) with n by lia. exact Hrow. }
    destruct (rows d) as [|r rs] eqn:E; [|exact H].
    split; [intros []|].
    intros (d0 & n & row & Hd & Hrow & _). inversion Hd; subst d0.
    rewrite E in Hrow. destruct n; discriminate.
  - split; [intros []|]. intros (d & n & row & Hd & _). discriminate.
Qed.

(** C8, as the code has it: the file begins with the header row
    Table_Name, Row_Number, Column_0 .. Column_19, and every row of every
    table is written after the name of its table and its number, from 1,
    padded with empty strings up to 20 cells when it has fewer; a row of
    more than 20 cells is written whole, so a written row has the larger of
    20 and its own number of cells. *)
Theorem combined_rows_padded table_data :
  save_combined_csv true table_data = Some (combined_rows table_data) /\
  hd [] (combined_rows table_data) =
    map FStr
      [ "Table_Name" : str; "Row_Number" : str;
        "Column_0" : str; "Column_1" : str; "Column_2" : str;
        "Column_3" : str; "Column_4" : str; "Column_5" : str;
        "Column_6" : str; "Column_7" : str; "Column_8" : str;
        "Column_9" : str; "Column_10" : str; "Column_11" : str;
        "Column_12" : str; "Column_13" : str; "Column_14" : str;
        "Column_15" : str; "Column_16" : str; "Column_17" : str;
        "Column_18" : str; "Column_19" : str ] /\
  (forall out,
      In out (tl (combined_rows table_data)) <->
      exists table_name d n row,
        In (table_name, Some d) table_data /\
        nth_error (rows d) n = Some row /\
        out = [FStr table_name; FInt (S n)] ++
              map FStr (row ++ repeat [] (20 - length row))) /\
  (forall row,
      length (row ++ repeat ([] : str) (20 - length row)) =
      Nat.max 20 (length row)) /\
  (forall row : list str,
      20 <= length row -> row ++ repeat [] (20 - length row) = row).
Proof.
  repeat split.
  - cbn [combined_rows tl]. rewrite in_flat_map.
    intros ([name data] & Hin & Hout). apply table_rows_spec in Hout.
    destruct Hout as (d & n & row & Hd & Hrow & ->). simpl in Hd. subst data.
    exists name, d, n, row. auto.
  - intros (name & d & n & row & Hin & Hrow & ->).
    cbn [combined_rows tl]. apply in_flat_map.
    exists (name, Some d). split; auto.
    apply table_rows_spec. exists d, n, row. auto.
  - intros row. apply padded_row_length.
  - intros row H. replace (20 - length row) with 0 by lia.
    simpl. apply app_nil_r.
Qed.

(** C8 as stated fails on a row of 21 cells: it is written with its 21
    cells, not cut to 20. *)
Lemma long_row_is_not_truncated :
  save_combined_csv true
    [ ("results" : str,
       Some (mkTableData [] [ repeat ("x" : str) 21 ])) ] =
  Some [ combined_header;
         [ FStr "results"; FInt 1 ] ++ map FStr (repeat ("x" : str) 21) ] /\
  length (map FStr (repeat ("x" : str) 21)) = 21.
Proof.
  split; vm_compute; reflexivity.
Qed.

End CsvFacts.

(* ================================================================= *)
(** ** Trimming, splitting and joining *)

Module StringFacts.

Import Py Re ReFacts.

Lemma lstrip_suffix s :
  exists p, s = p ++ lstrip s /\ forallb is_space p = true.
Proof.
  induction s as [|c s IH]; simpl.
  - exists []. auto.
  - destruct (is_space c) eqn:E.
    + destruct IH as (p & Hs & Hp). exists (c :: p). simpl.
      rewrite E, Hp. split; [f_equal; exact Hs|reflexivity].
    + exists []. auto.
Qed.

Lemma lstrip_head s : head_clean (lstrip s).
Proof.
  induction s as [|c s IH]; simpl; auto.
  destruct (is_space c) eqn:E; simpl; auto.
Qed.

Lemma rstrip_prefix s :
  exists q, s = rstrip s ++ q /\ forallb is_space q = true.
Proof.
  unfold rstrip. destruct (lstrip_suffix (rev s)) as (p & Hs & Hp).
  exists (rev p). split.
  - rewrite <- rev_app_distr, <- Hs. symmetry. apply rev_involutive.
  - rewrite forallb_forall in *. intros c Hc. apply Hp.
    apply in_rev. exact Hc.
Qed.

Lemma strip_head s : head_clean (strip s).
Proof.
  unfold strip. pose proof (lstrip_head s) as H.
  destruct (rstrip_prefix (lstrip s)) as (q & Hq & _).
  destruct (rstrip (lstrip s)) as [|c r]; simpl; auto.
  rewrite Hq in H. exact H.
Qed.

Lemma strip_last s : last_clean (strip s).
Proof.
  unfold last_clean, strip, rstrip. rewrite rev_involutive.
  apply lstrip_head.
Qed.

(** Trimming a trimmed string changes nothing. *)
Lemma strip_strip s : strip (strip s) = strip s.
Proof.
  apply strip_clean; [apply strip_head|apply strip_last].
Qed.

Lemma last_clean_cons c s :
  last_clean (c :: s) -> s <> [] -> last_clean s.
Proof.
  unfold last_clean. simpl. intros H Hne.
  destruct (rev s) as [|d r] eqn:E.
  - exfalso. apply Hne. rewrite <- (rev_involutive s), E. reflexivity.
  - exact H.
Qed.

Lemma last_clean_single c : last_clean [c] -> is_space c = false.
Proof.
  unfold last_clean. simpl. auto.
Qed.

(** Splitting a string that does not end in white space: all pieces but
    the first are non-empty, and the first as well when the string does not
    follow white space and does not start with it. *)
Lemma split_ws_from_tail s : forall in_ws,
  last_clean s ->
  match split_ws_from in_ws s with
  | t :: ts =>
      Forall (fun x => x <> []) ts /\
      (in_ws = true -> s <> [] -> t <> [])
  | [] => False
  end.
Proof.
  induction s as [|c s IH]; intros in_ws Hl; simpl.
  - split; [constructor|congruence].
  - destruct (is_space c) eqn:Ec.
    + assert (Hne : s <> []).
      { intros ->. apply last_clean_single in Hl. congruence. }
      specialize (IH true (@last_clean_cons c s Hl Hne)).
      destruct (split_ws_from true s) as [|t ts]; [contradiction|].
      destruct IH as [Hts Ht]. destruct in_ws.
      * split; auto.
      * split; [constructor; auto|congruence].
    + assert (Hl' : last_clean s).
      { destruct s; [exact I|]. apply (@last_clean_cons c _ Hl). discriminate. }
      specialize (IH false Hl').
      destruct (split_ws_from false s) as [|t ts]; [contradiction|].
      destruct IH as [Hts _]. split; auto. discriminate.
Qed.

(** The tokens of a trimmed, non-empty line are non-empty. *)
Lemma tokens_nonempty s :
  s <> [] -> head_clean s -> last_clean s ->
  Forall (fun t => t <> []) (split_ws s).
Proof.
  intros Hne Hh Hl. unfold split_ws.
  pose proof (@split_ws_from_tail s false Hl) as H.
  destruct s as [|c s]; [congruence|]. simpl in *. rewrite Hh in *.
  destruct (split_ws_from false s) as [|t ts];
    destruct H as [Hts _]; constructor; try discriminate; exact Hts.
Qed.

Lemma split_ws_from_true s :
  head_clean s -> s <> [] -> split_ws_from true s = split_ws_from false s.
Proof.
  destruct s as [|c s]; [congruence|]. simpl. intros -> _. reflexivity.
Qed.

Lemma split_ws_from_nonnil b s : split_ws_from b s <> [].
Proof.
  revert b. induction s as [|c s IH]; intros b; simpl; [discriminate|].
  destruct (is_space c).
  - destruct b; [apply IH|discriminate].
  - destruct (split_ws_from false s); discriminate.
Qed.

Lemma split_ws_from_app p : forall s,
  existsb is_space p = false ->
  split_ws_from false (p ++ s) =
  match split_ws_from false s with
  | t :: ts => (p ++ t) :: ts
  | [] => [p]
  end.
Proof.
  induction p as [|c p IH]; intros s Hp; simpl.
  - destruct (split_ws_from false s) eqn:E; [|reflexivity].
    exfalso. apply (split_ws_from_nonnil false s E).
  - simpl in Hp. apply orb_false_iff in Hp. destruct Hp as [Hc Hp].
    rewrite Hc, (IH s Hp).
    destruct (split_ws_from false s); reflexivity.
Qed.

Lemma join_head sep p ps :
  join sep (p :: ps) = match ps with [] => p | _ => p ++ sep ++ join sep ps end.
Proof.
  destruct ps; reflexivity.
Qed.

(** Tokens joined with single spaces split back into the same tokens. *)
Lemma split_ws_join ps :
  ps <> [] ->
  Forall (fun t => t <> [] /\ existsb is_space t = false) ps ->
  split_ws (join " " ps) = ps.
Proof.
  unfold split_ws. induction ps as [|p ps IH]; [congruence|].
  intros _ H. inversion H as [|? ? [Hne Hp] Hps]; subst.
  rewrite join_head. destruct ps as [|q ps].
  - rewrite <- (app_nil_r p) at 1. rewrite split_ws_from_app; auto.
    simpl. rewrite app_nil_r. reflexivity.
  - rewrite split_ws_from_app; auto.
    change (list_ascii_of_string " " ++ join " " (q :: ps))
      with (" "%char :: join " " (q :: ps)).
    cbn [split_ws_from]. change (is_space " ") with true. cbn iota.
    rewrite split_ws_from_true.
    + rewrite IH; [|discriminate|exact Hps]. rewrite app_nil_r. reflexivity.
    + inversion Hps as [|? ? [Hq Hqs] _]; subst.
      rewrite join_head. destruct q as [|c q]; [congruence|].
      simpl in Hqs. apply orb_false_iff in Hqs. destruct Hqs as [Hc _].
      destruct ps; simpl; exact Hc.
    + inversion Hps as [|? ? [Hq _] _]; subst.
      rewrite join_head. destruct q; [congruence|].
      destruct ps; discriminate.
Qed.

End StringFacts.

(* ================================================================= *)
(** ** More on the table locator and the row extractor *)

Module TextMore.

Import Py Re ReFacts DateFacts Final Spec Terms TextFacts StringFacts.

(** *** Headers and windows *)

Lemma filter_none {A} (f : A -> bool) l :
  (forall x, In x l -> f x = false) -> filter f l = [].
Proof.
  induction l as [|x l IH]; simpl; intros H; [reflexivity|].
  rewrite (H x); auto.
Qed.

Lemma existsb_false {A} (f : A -> bool) l x :
  existsb f l = false -> In x l -> f x = false.
Proof.
  intros H Hin. destruct (f x) eqn:E; [|reflexivity].
  rewrite <- H. symmetry. apply existsb_exists. eauto.
Qed.

Lemma no_header_positions lines :
  existsb is_header lines = false -> header_positions lines = [].
Proof.
  intros H. unfold header_positions. apply filter_none.
  intros i Hi. apply in_seq in Hi.
  apply (existsb_false _ _ _ H). apply nth_In. lia.
Qed.

(** X1: a text in which no line is a header gives no record, whatever its
    lines hold. *)
Theorem no_header_no_records text source_file :
  existsb is_header (split_lines text) = false ->
  extract_from_text text source_file = Ok [].
Proof.
  intros H. unfold extract_from_text.
  rewrite extract_all_table_data_tables, (no_header_positions _ H).
  reflexivity.
Qed.

Lemma no_header_no_records_witness :
  extract_from_text
    (text_of [ "Results of the meet" : str;
               "1 John Smith University of State 21.45" : str;
               "2 Jane Doe College of X 22.10" : str ]) "f.pdf" = Ok [].
Proof.
  apply (no_header_no_records
           (text_of [ "Results of the meet" : str;
                      "1 John Smith University of State 21.45" : str;
                      "2 Jane Doe College of X 22.10" : str ]) "f.pdf").
  vm_compute. reflexivity.
Defined.

Lemma slice_app_l {A} (l more : list A) a b :
  b <= length l -> slice a b (l ++ more) = slice a b l.
Proof.
  intros Hb. unfold slice.
  destruct (Nat.le_gt_cases a (length l)) as [Ha|Ha].
  - rewrite skipn_app. replace (a - length l) with 0 by lia. simpl.
    rewrite firstn_app.
    replace (b - a - length (skipn a l)) with 0
      by (rewrite length_skipn; lia).
    simpl. apply app_nil_r.
  - replace (b - a) with 0 by lia. reflexivity.
Qed.

Lemma nth_app_l {A} (l more : list A) i d :
  i < length l -> nth i (l ++ more) d = nth i l d.
Proof.
  intros H. apply app_nth1. exact H.
Qed.

Lemma table_at_window lines more i src d :
  i + 200 <= length lines ->
  table_at (lines ++ more) i src d = table_at lines i src d.
Proof.
  intros H. unfold table_at, scan_table, data_window, detect_year.
  rewrite nth_app_l by lia.
  rewrite length_app.
  replace (Nat.min (i + 200) (length lines + length more)) with (i + 200)
    by lia.
  replace (Nat.min (i + 200) (length lines)) with (i + 200) by lia.
  rewrite !slice_app_l by lia. reflexivity.
Qed.

(** X2: the rows of a table are looked for in the 199 lines after its
    header, [lines[i+1]] to [lines[i+199]]: what stands at [lines[i+200]] or
    later changes nothing of the records under the header at [i]. *)
Theorem lines_past_the_window_are_not_read
    lines more i source_file event_date :
  i + 200 <= length lines ->
  table_at (lines ++ more) i source_file event_date =
  table_at lines i source_file event_date.
Proof.
  apply table_at_window.
Qed.

Lemma lines_past_the_window_are_not_read_witness :
  table_at
    (("PL NAME TEAM TIME" : str) :: repeat ([] : str) 199 ++
     [ "1 John Smith University of State 21.45" : str ]) 0 "f.pdf" "" =
  table_at (("PL NAME TEAM TIME" : str) :: repeat ([] : str) 199) 0
    "f.pdf" "".
Proof.
  apply (lines_past_the_window_are_not_read
           (("PL NAME TEAM TIME" : str) :: repeat ([] : str) 199)
           [ "1 John Smith University of State 21.45" : str ] 0 "f.pdf" "").
  vm_compute. repeat constructor.
Defined.

(** *** Lines that give no record *)

Lemma row_of_line_place hy data_line src d r :
  row_of_line hy data_line src d = Some r ->
  isdigit (nth 0 (split_ws data_line) []) = true.
Proof.
  unfold row_of_line, row_with_year, row_without_year.
  destruct (hy && (5 <=? length (split_ws data_line))).
  - destruct (isdigit (nth 0 (split_ws data_line) [])); auto. discriminate.
  - destruct (4 <=? length (split_ws data_line)); [|discriminate].
    destruct (isdigit (nth 0 (split_ws data_line) [])); auto. discriminate.
Qed.

Lemma row_of_line_length hy data_line src d r :
  row_of_line hy data_line src d = Some r ->
  4 <= length (split_ws data_line).
Proof.
  unfold row_of_line.
  destruct (hy && (5 <=? length (split_ws data_line))) eqn:E.
  - intros _. apply andb_true_iff in E. destruct E as [_ E].
    apply Nat.leb_le in E. lia.
  - destruct (Nat.leb_spec 4 (length (split_ws data_line))); auto.
    discriminate.
Qed.

(** X3: lines that do not begin with a token of digits only, and lines of
    fewer than four tokens, never give a record: a scan over such lines only
    returns the records it was given. *)
Theorem rows_need_a_leading_number hy source_file event_date rows records :
  forallb (fun l => negb (isdigit (nth 0 (split_ws (strip l)) [])) ||
                    (length (split_ws (strip l)) <? 4)) rows = true ->
  scan_rows hy source_file event_date rows records = records.
Proof.
  revert records.
  induction rows as [|l rows IH]; intros records H; [reflexivity|].
  cbn [forallb] in H. apply andb_true_iff in H. destruct H as [Hl H].
  cbn [scan_rows].
  destruct (strip l) as [|c dl] eqn:E; [apply IH; exact H|].
  destruct (is_section_break (c :: dl)); [reflexivity|].
  destruct (row_of_line hy (c :: dl) source_file event_date) as [r|] eqn:Er;
    [|apply IH; exact H].
  exfalso. apply orb_true_iff in Hl. destruct Hl as [Hl|Hl].
  - apply row_of_line_place in Er. rewrite Er in Hl. discriminate.
  - apply row_of_line_length in Er. apply Nat.ltb_lt in Hl. lia.
Qed.

Lemma rows_need_a_leading_number_witness :
  scan_rows true "f.pdf" ""
    [ "John Smith University of State 21.45" : str;
      "1. Jane Doe College of X 22.10" : str;
      "3 Relay 44.1" : str ] [] = [].
Proof.
  apply (rows_need_a_leading_number true "f.pdf" ""
           [ "John Smith University of State 21.45" : str;
             "1. Jane Doe College of X 22.10" : str;
             "3 Relay 44.1" : str ] []).
  vm_compute. reflexivity.
Defined.

(** *** Name and team *)

Lemma sort_parts_found keywords parts : forall name_parts team_parts,
  sort_parts keywords parts (true, name_parts, team_parts) =
  (true, name_parts, team_parts ++ parts).
Proof.
  induction parts as [|p parts IH]; intros np tp; simpl.
  - rewrite app_nil_r. reflexivity.
  - rewrite IH, <- app_assoc. reflexivity.
Qed.

Lemma sort_parts_none keywords parts : forall name_parts team_parts,
  existsb (has_keyword keywords) parts = false ->
  sort_parts keywords parts (false, name_parts, team_parts) =
  (false, name_parts ++ parts, team_parts).
Proof.
  induction parts as [|p parts IH]; intros np tp H; simpl.
  - rewrite app_nil_r. reflexivity.
  - simpl in H. apply orb_false_iff in H. destruct H as [Hp H].
    rewrite Hp. simpl. rewrite IH, <- app_assoc; auto.
Qed.

Lemma sort_parts_split keywords before k after name_parts team_parts :
  existsb (has_keyword keywords) before = false ->
  has_keyword keywords k = true ->
  sort_parts keywords (before ++ k :: after) (false, name_parts, team_parts) =
  (true, name_parts ++ before, team_parts ++ k :: after).
Proof.
  revert name_parts. induction before as [|p before IH]; intros np H Hk.
  - simpl. rewrite Hk. simpl. rewrite sort_parts_found, app_nil_r, <- app_assoc.
    reflexivity.
  - simpl in H. apply orb_false_iff in H. destruct H as [Hp H].
    simpl. rewrite Hp. simpl. rewrite IH, <- app_assoc; auto.
Qed.

(** A list either has no element of a class or splits at the first one. *)
Lemma first_split {A} (f : A -> bool) l :
  existsb f l = false \/
  exists before k after,
    l = before ++ k :: after /\ existsb f before = false /\ f k = true.
Proof.
  induction l as [|x l IH]; simpl; [left; reflexivity|].
  destruct (f x) eqn:E.
  - right. exists [], x, l. auto.
  - destruct IH as [H|(before & k & after & -> & Hb & Hk)]; [left; exact H|].
    right. exists (x :: before), k, after. simpl. rewrite E. auto.
Qed.

Lemma name_and_team_keyword keywords before k after :
  existsb (has_keyword keywords) before = false ->
  has_keyword keywords k = true ->
  name_and_team keywords (before ++ k :: after) =
  (join " " before, join " " (k :: after)).
Proof.
  intros Hb Hk. unfold name_and_team.
  rewrite sort_parts_split; auto.
Qed.

Lemma name_and_team_fallback keywords middle_parts :
  existsb (has_keyword keywords) middle_parts = false ->
  name_and_team keywords middle_parts =
  (join " " (firstn 2 middle_parts), join " " (skipn 2 middle_parts)).
Proof.
  intros H. unfold name_and_team. rewrite sort_parts_none; auto.
  cbn [negb andb app].
  destruct (Nat.leb_spec 2 (length middle_parts)); [reflexivity|].
  destruct middle_parts as [|a [|b l]]; simpl in *; try reflexivity. lia.
Qed.

Lemma name_and_team_parts keywords middle_parts :
  exists name_parts team_parts,
    name_parts ++ team_parts = middle_parts /\
    name_and_team keywords middle_parts =
    (join " " name_parts, join " " team_parts).
Proof.
  destruct (first_split (has_keyword keywords) middle_parts)
    as [H|(before & k & after & -> & Hb & Hk)].
  - exists (firstn 2 middle_parts), (skipn 2 middle_parts).
    split; [apply firstn_skipn|apply name_and_team_fallback; exact H].
  - exists before, (k :: after).
    split; [reflexivity|apply name_and_team_keyword; auto].
Qed.

Lemma startswith_in p : forall s c,
  startswith p s = true -> In c p -> In c s.
Proof.
  induction p as [|a p IH]; intros [|b s] c H Hc; simpl in *;
    try contradiction; try discriminate.
  apply andb_true_iff in H. destruct H as [Hab H].
  apply Ascii.eqb_eq in Hab. subst b.
  destruct Hc as [<-|Hc]; [left; reflexivity|right; eauto].
Qed.

Lemma contains_in p : forall s c,
  contains p s = true -> In c p -> In c s.
Proof.
  induction s as [|b s IH]; intros c H Hc; simpl in H.
  - rewrite orb_false_r in H. exact (startswith_in _ _ _ H Hc).
  - apply orb_true_iff in H. destruct H as [H|H].
    + exact (startswith_in _ _ _ H Hc).
    + right. eauto.
Qed.

(** An academic-year code is made of the letters of the codes, a hyphen
    and digits; [$] lets a line feed follow. *)
Lemma year_code_chars part :
  is_year_code part = true ->
  forallb (fun c => is_digit c || existsb (Ascii.eqb c) ("FRSOJG-" : str) ||
                    Ascii.eqb c newline) (upper part) = true.
Proof.
  unfold is_year_code, re_match.
  destruct (match_at year_code 0 (upper part)) as [e|] eqn:E;
    [intros _|discriminate].
  apply match_at_sound in E. destruct E as (w & rest & Hu & L & _).
  change year_code with
    (Cat Bol
       (Cat (Alt (Lit "FR") (Alt (Lit "SO") (Alt (Lit "JR")
                    (Alt (Lit "SR") (Lit "GR")))))
          (Cat (Opt (Chr "-")) (Cat (Star digit) Eol)))) in L.
  inversion L as [| |? ? ? w0 w' ? L0 L'| | | | | |]; subst.
  inversion L0; subst. clear L0.
  inversion L' as [| |? ? ? code w'' ? Lc L''| | | | | |]; subst.
  inversion L'' as [| |? ? ? hy w3 ? Lh L3| | | | | |]; subst.
  inversion L3 as [| |? ? ? ds w4 ? Ld L4| | | | | |]; subst.
  inversion L4 as [| | | | | | | |? ? Hrest]; subst.
  apply lang_star_cls_inv in Ld. apply lang_opt_chr_inv in Lh.
  rewrite Hu. rewrite !forallb_app. cbn [app forallb].
  assert (Hc : forallb (fun c => is_digit c ||
                          existsb (Ascii.eqb c) ("FRSOJG-" : str) ||
                          Ascii.eqb c newline) code = true).
  { clear - Lc.
    repeat match goal with
           | H : lang (Alt _ _) _ _ _ |- _ =>
               inversion H as [| | |? ? ? ? ? ?|? ? ? ? ? ?| | | |];
               subst; clear H
           | H : lang (Cat (Chr ?a) (Chr ?b)) _ _ _ |- _ =>
               apply (lang_lit_inv [a; b]) in H; subst
           end; reflexivity. }
  rewrite Hc. cbn [andb].
  assert (Hh : forallb (fun c => is_digit c ||
                          existsb (Ascii.eqb c) ("FRSOJG-" : str) ||
                          Ascii.eqb c newline) hy = true).
  { destruct Lh as [->| ->]; reflexivity. }
  rewrite Hh. cbn [andb].
  assert (Hd : forallb (fun c => is_digit c ||
                          existsb (Ascii.eqb c) ("FRSOJG-" : str) ||
                          Ascii.eqb c newline) ds = true).
  { apply forallb_forall. intros c Hin.
    rewrite forallb_forall in Ld. rewrite (Ld c Hin). reflexivity. }
  rewrite Hd. destruct Hrest as [->| ->]; reflexivity.
Qed.

(** A token that holds an institution keyword is neither a calendar year
    nor an academic-year code, and [int] is not reached for it. *)
Lemma keyword_not_year k :
  has_keyword team_keywords_year k = true ->
  is_calendar_year k = Ok false /\ is_year_code k = false.
Proof.
  intros H. unfold has_keyword in H. apply existsb_exists in H.
  destruct H as (kw & Hin & Hc). split.
  - assert (C : forallb (fun kw => existsb (fun c => negb (is_digit_char c))
                                     kw) team_keywords_year = true)
      by (vm_compute; reflexivity).
    rewrite forallb_forall in C. specialize (C kw Hin).
    apply existsb_exists in C. destruct C as (c & Hckw & Hnd).
    pose proof (contains_in _ _ _ Hc Hckw) as Hck.
    unfold is_calendar_year.
    replace (isdigit k) with false; [reflexivity|].
    symmetry. unfold isdigit. destruct k as [|a k]; [reflexivity|].
    destruct (forallb is_digit_char (a :: k)) eqn:F; [|reflexivity].
    rewrite forallb_forall in F. rewrite (F c Hck) in Hnd. discriminate.
  - assert (C : forallb
                  (fun kw =>
                     existsb
                       (fun c =>
                          existsb
                            (fun d => negb (is_digit d ||
                                            existsb (Ascii.eqb d)
                                              ("FRSOJG-" : str) ||
                                            Ascii.eqb d newline))
                            (upper_char c)) kw) team_keywords_year = true)
      by (vm_compute; reflexivity).
    rewrite forallb_forall in C. specialize (C kw Hin).
    apply existsb_exists in C. destruct C as (c & Hckw & Hd).
    apply existsb_exists in Hd. destruct Hd as (d & Hdc & Hbad).
    pose proof (contains_in _ _ _ Hc Hckw) as Hck.
    destruct (is_year_code k) eqn:Y; [|reflexivity].
    apply year_code_chars in Y. rewrite forallb_forall in Y.
    assert (Hdk : In d (upper k)).
    { unfold upper. apply in_flat_map. exists c. auto. }
    rewrite (Y d Hdk) in Hbad. discriminate.
Qed.

Lemma scan_year_split parts : forall i year year_index,
  scan_year i parts = Ok (year, year_index) ->
  (year = [] /\ year_index = (-1)%Z) \/
  exists before after,
    parts = before ++ year :: after /\
    year_index = (Z.of_nat (i + length before) + 1)%Z /\
    Forall (fun t => is_calendar_year t = Ok false /\ is_year_code t = false)
      before.
Proof.
  induction parts as [|p parts IH]; intros i year year_index; cbn [scan_year].
  { intros H. inversion H. left. auto. }
  destruct (is_calendar_year p) as [[|]|e] eqn:E1; [| |discriminate].
  { intros H. inversion H; subst. right. exists [], parts. simpl.
    rewrite Nat.add_0_r. auto. }
  destruct (is_year_code p) eqn:E2.
  { intros H. inversion H; subst. right. exists [], parts. simpl.
    rewrite Nat.add_0_r. auto. }
  intros H. apply IH in H.
  destruct H as [H|(before & after & Hp & Hi & Hb)]; [left; exact H|].
  right. exists (p :: before), after. simpl. split; [|split].
  - f_equal. exact Hp.
  - rewrite Hi. f_equal. f_equal. lia.
  - constructor; auto.
Qed.

Lemma scan_year_index parts : forall i year year_index,
  scan_year i parts = Ok (year, year_index) ->
  year_index = (-1)%Z \/ (Z.of_nat i < year_index)%Z.
Proof.
  induction parts as [|p parts IH]; intros i year year_index; cbn [scan_year].
  { intros H. inversion H. left. reflexivity. }
  destruct (is_calendar_year p) as [[|]|e]; [| |discriminate].
  { intros H. inversion H. right. lia. }
  destruct (is_year_code p).
  { intros H. inversion H. right. lia. }
  intros H. apply IH in H. destruct H; [left; assumption|right; lia].
Qed.

Lemma filter_index_keep (k : Z) (l : list str) : forall start,
  (k < Z.of_nat start)%Z ->
  map snd (filter (fun ip : nat * str => negb (Z.of_nat (fst ip) =? k)%Z)
             (combine (seq start (length l)) l)) = l.
Proof.
  induction l as [|x l IH]; intros start H; simpl; [reflexivity|].
  destruct (Z.eqb_spec (Z.of_nat start) k); [lia|]. simpl.
  rewrite IH; [reflexivity|lia].
Qed.

Lemma filter_index_drop before y after : forall start,
  map snd
    (filter (fun ip : nat * str =>
               negb (Z.of_nat (fst ip) =? Z.of_nat (start + length before))%Z)
       (combine (seq start (length (before ++ y :: after)))
          (before ++ y :: after))) = before ++ after.
Proof.
  induction before as [|x before IH]; intros start; simpl.
  - rewrite Nat.add_0_r, Z.eqb_refl. simpl.
    apply filter_index_keep. lia.
  - destruct (Z.eqb_spec (Z.of_nat start)
                (Z.of_nat (start + S (length before)))); [lia|].
    simpl. f_equal.
    replace (start + S (length before)) with (S start + length before) by lia.
    apply IH.
Qed.

Lemma without_index_split before y after :
  without_index (Z.of_nat (0 + length before) + 1) (before ++ y :: after) =
  before ++ after.
Proof.
  unfold without_index, enumerate.
  replace (Z.of_nat (0 + length before) + 1 - 1)%Z
    with (Z.of_nat (0 + length before)) by lia.
  apply filter_index_drop.
Qed.

(** X4: name and team part at the first interior token that holds an
    institution keyword (the token goes to the team); without such a token
    the first two tokens are the name and the rest the team; and a line
    whose first interior token holds a keyword has an empty name and gives
    no record, under a header without a year and under one with a year. *)
Theorem name_team_split_rule keywords :
  (forall before k after,
      existsb (has_keyword keywords) before = false ->
      has_keyword keywords k = true ->
      name_and_team keywords (before ++ k :: after) =
      (join " " before, join " " (k :: after))) /\
  (forall middle_parts,
      existsb (has_keyword keywords) middle_parts = false ->
      name_and_team keywords middle_parts =
      (join " " (firstn 2 middle_parts), join " " (skipn 2 middle_parts))) /\
  (forall place k after time_part source_file event_date,
      has_keyword team_keywords_plain k = true ->
      row_without_year (place :: k :: after ++ [time_part])
        source_file event_date = None) /\
  (forall place k after time_part source_file event_date,
      has_keyword team_keywords_year k = true ->
      row_with_year (place :: k :: after ++ [time_part])
        source_file event_date = None).
Proof.
  split; [|split; [|split]].
  4:{ intros place k after time_part src d Hk. unfold row_with_year.
      cbn [nth]. destruct (isdigit place); [|reflexivity].
      assert (Hi : interior (place :: k :: after ++ [time_part]) = k :: after).
      { unfold interior. cbn [tl].
        change (k :: after ++ [time_part]) with ((k :: after) ++ [time_part]).
        apply removelast_last. }
      rewrite Hi.
      destruct (scan_year 0 (k :: after)) as [[year year_index]|e] eqn:Es;
        [|reflexivity].
      destruct (2 <=? length (k :: after)); [|reflexivity].
      destruct (keyword_not_year k Hk) as [Hc Hy].
      assert (Hm : exists rest,
                 (if (year_index >? 0)%Z
                  then without_index year_index (k :: after)
                  else k :: after) = k :: rest).
      { destruct (scan_year_split _ _ Es)
          as [[_ ->]|(before & after' & Hp & -> & Hb)].
        - exists after. reflexivity.
        - replace (Z.of_nat (0 + length before) + 1 >? 0)%Z with true
            by (symmetry; apply Z.gtb_lt; lia).
          rewrite Hp, without_index_split.
          destruct before as [|b before].
          + exfalso. cbn [scan_year] in Es. rewrite Hc, Hy in Es.
            apply scan_year_index in Es. simpl in Es. lia.
          + simpl in Hp. injection Hp as <- _.
            exists (before ++ after'). reflexivity. }
      destruct Hm as [rest Hm]. rewrite Hm.
      pose proof (name_and_team_keyword team_keywords_year [] k rest
                    eq_refl Hk) as E.
      cbn [app] in E. rewrite E. unfold acceptable.
      replace (1 <? length (join " " [])) with false by reflexivity.
      rewrite andb_false_r. reflexivity. }
  - intros. apply name_and_team_keyword; auto.
  - intros. apply name_and_team_fallback; auto.
  - intros place k after time_part src d Hk. unfold row_without_year.
    cbn [nth]. destruct (isdigit place); [|reflexivity].
    assert (Hi : interior (place :: k :: after ++ [time_part]) = k :: after).
    { unfold interior. cbn [tl].
      change (k :: after ++ [time_part]) with ((k :: after) ++ [time_part]).
      apply removelast_last. }
    rewrite Hi.
    destruct (2 <=? length (k :: after)); [|reflexivity].
    pose proof (name_and_team_keyword team_keywords_plain [] k after
                  eq_refl Hk) as E.
    cbn [app] in E. rewrite E. unfold acceptable.
    replace (1 <? length (join " " [])) with false by reflexivity.
    rewrite andb_false_r. reflexivity.
Qed.

(** *** The tokens of a line in its record *)

Lemma list_ends {A} (d : A) l :
  2 <= length l -> l = nth 0 l d :: interior l ++ [last l d].
Proof.
  destruct l as [|x l]; simpl; [lia|]. intros H.
  unfold interior. cbn [tl]. f_equal.
  destruct l as [|y l]; [simpl in H; lia|].
  apply app_removelast_last. discriminate.
Qed.

Lemma join_nil_length (name_parts : list str) :
  1 < length (join " " name_parts) -> name_parts <> [].
Proof.
  intros H ->. simpl in H. lia.
Qed.

Lemma tokens_clean line :
  strip line <> [] -> Forall clean_token (split_ws (strip line)).
Proof.
  intros Hne. apply Forall_forall. intros t Ht. split.
  - pose proof (tokens_nonempty Hne (strip_head line) (strip_last line)) as H.
    rewrite Forall_forall in H. auto.
  - pose proof (split_ws_from_clean (strip line) false) as H.
    rewrite Forall_forall in H. auto.
Qed.

Lemma forall_interior {A} (P : A -> Prop) l :
  Forall P l -> Forall P (interior l).
Proof.
  rewrite !Forall_forall. intros H x Hx. apply H, in_interior, Hx.
Qed.

Lemma rejoin name_parts team_parts :
  Forall clean_token (name_parts ++ team_parts) ->
  1 < length (join " " name_parts) -> 1 < length (join " " team_parts) ->
  split_ws (join " " name_parts) ++ split_ws (join " " team_parts) =
  name_parts ++ team_parts.
Proof.
  intros H Hn Ht. apply Forall_app in H. destruct H as [H1 H2].
  rewrite !split_ws_join; auto using join_nil_length.
Qed.

(** *** What ends a table *)

Lemma section_line_all_caps line :
  matched (re_search section_line line) = true -> all_caps line = true.
Proof.
  intros H. apply re_search_occurs in H.
  destruct H as (pre & w & rest & -> & L).
  change section_line
    with (Cat Bol (Cat (Plus (Cls (fun c => is_upper c || is_space c))) Eol))
    in L.
  inversion L as [| |? ? ? w0 w1 ? L0 L1| | | | | |]; subst.
  inversion L0 as [| | | | | | |rest0 Hpos|]; subst. clear L0.
  inversion L1 as [| |? ? ? w2 w3 ? L2 L3| | | | | |]; subst.
  inversion L3 as [| | | | | | | |? ? Hrest]; subst.
  apply (all_in_spec (fun c => is_upper c || is_space c)) in L2;
    [|reflexivity].
  assert (Hpre : pre = []) by (destruct pre; [reflexivity|discriminate]).
  subst pre. unfold all_caps. simpl.
  rewrite !forallb_app, L2. simpl.
  destruct Hrest as [->| ->]; reflexivity.
Qed.

Lemma is_section_break_iff line :
  is_section_break line = true <->
  all_caps line = true /\ 10 < length line.
Proof.
  split.
  - unfold is_section_break. intros H. apply andb_true_iff in H.
    destruct H as [H1 H2]. apply Nat.ltb_lt in H2.
    split; [apply section_line_all_caps; exact H1|exact H2].
  - intros [H1 H2]. apply all_caps_section_break; auto.
Qed.

Lemma scan_rows_all hy src d rows : forall acc,
  existsb ends_table rows = false ->
  scan_rows hy src d rows acc =
  acc ++ flat_map (line_records hy src d) rows.
Proof.
  induction rows as [|l rows IH]; intros acc H.
  - simpl. symmetry. apply app_nil_r.
  - cbn [existsb] in H. apply orb_false_iff in H. destruct H as [Hl H].
    cbn [scan_rows flat_map]. unfold line_records at 1.
    destruct (strip l) as [|c dl] eqn:E; [apply IH; exact H|].
    assert (Hb : is_section_break (c :: dl) = false).
    { destruct (is_section_break (c :: dl)) eqn:B; [|reflexivity].
      apply is_section_break_iff in B. destruct B as [B1 B2].
      unfold ends_table in Hl. rewrite E, B1 in Hl.
      apply Nat.ltb_lt in B2. rewrite B2 in Hl. discriminate. }
    rewrite Hb.
    destruct (row_of_line hy (c :: dl) src d) as [r|].
    + rewrite IH, <- app_assoc; auto.
    + apply IH. exact H.
Qed.

(** X14: only a line of the letters A to Z and white space, longer than 10
    characters after trimming, ends a table.  When no line of the rows is
    such a line, every line is examined and the records are those of the
    lines, in the order of the lines, after the records already there. *)
Theorem only_section_lines_end_a_table
    hy source_file event_date rows records :
  existsb ends_table rows = false ->
  scan_rows hy source_file event_date rows records =
  records ++ flat_map (line_records hy source_file event_date) rows.
Proof.
  apply scan_rows_all.
Qed.

Lemma only_section_lines_end_a_table_witness :
  scan_rows false "f.pdf" ""
    [ "1 John Smith University of State 21.45" : str;
      "HEAT 2" : str;
      "Wind: +1.2" : str;
      "2 Jane Doe College of X 22.10" : str ] [] =
  [] ++
  flat_map (line_records false "f.pdf" "")
    [ "1 John Smith University of State 21.45" : str;
      "HEAT 2" : str;
      "Wind: +1.2" : str;
      "2 Jane Doe College of X 22.10" : str ].
Proof.
  apply (only_section_lines_end_a_table false "f.pdf" ""
           [ "1 John Smith University of State 21.45" : str;
             "HEAT 2" : str;
             "Wind: +1.2" : str;
             "2 Jane Doe College of X 22.10" : str ] []).
  vm_compute. reflexivity.
Defined.

(** X5: a record carries every token of its line once and in order: the
    line is PL, then tokens, then the YEAR token if there is one, then
    tokens, then TIME, and the tokens of NAME followed by those of TEAM are
    the tokens before and after the year. *)
Theorem record_keeps_every_token hy line source_file event_date r :
  row_of_line hy (strip line) source_file event_date = Some r ->
  exists before after,
    split_ws (strip line) =
      PL r :: before ++ year_tokens (YEAR r) ++ after ++ [TIME r] /\
    split_ws (NAME r) ++ split_ws (TEAM r) = before ++ after.
Proof.
  intros Hr.
  pose proof (row_of_line_length _ _ _ _ Hr) as Hlen.
  assert (Hne : strip line <> []).
  { intros E. rewrite E in Hlen. simpl in Hlen. lia. }
  pose proof (tokens_clean line Hne) as Hclean.
  pose proof (@forall_interior _ _ _ Hclean) as Hmid.
  pose proof (list_ends [] (split_ws (strip line)) ltac:(lia)) as Hends.
  unfold row_of_line in Hr.
  remember (split_ws (strip line)) as parts eqn:Ep. clear Ep Hlen Hne.
  destruct (hy && (5 <=? length parts)).
  - unfold row_with_year in Hr.
    destruct (isdigit (nth 0 parts [])); [|discriminate].
    destruct (scan_year 0 (interior parts)) as [[year year_index]|e] eqn:Es;
      [|discriminate].
    pose proof (scan_year_split _ _ Es) as Hy.
    destruct (2 <=? length (interior parts)); [|discriminate].
    destruct Hy as [[-> ->]|(before & after & Hsplit & -> & _)].
    + cbn in Hr.
      destruct (name_and_team_parts team_keywords_year (interior parts))
        as (np & tp & Hcat & Hnt).
      rewrite Hnt in Hr.
      destruct (acceptable _ _ _ _) eqn:Ha; [|discriminate].
      inversion Hr; subst r; clear Hr. cbn [PL NAME YEAR TEAM TIME].
      apply acceptable_fields in Ha. destruct Ha as (_ & Hn & Ht & _).
      exists (interior parts), []. cbn [year_tokens app]. split.
      * exact Hends.
      * rewrite app_nil_r, <- Hcat. apply rejoin; auto.
        rewrite Hcat. exact Hmid.
    + replace (Z.of_nat (0 + length before) + 1 >? 0)%Z with true in Hr
        by (symmetry; apply Z.gtb_lt; lia).
      rewrite Hsplit, without_index_split in Hr.
      destruct (name_and_team_parts team_keywords_year (before ++ after))
        as (np & tp & Hcat & Hnt).
      rewrite Hnt in Hr.
      destruct (acceptable _ _ _ _) eqn:Ha; [|discriminate].
      inversion Hr; subst r; clear Hr. cbn [PL NAME YEAR TEAM TIME].
      apply acceptable_fields in Ha. destruct Ha as (_ & Hn & Ht & _).
      assert (Hyne : year <> []).
      { rewrite Hsplit in Hmid. apply Forall_app in Hmid.
        destruct Hmid as [_ Hm]. inversion Hm as [|? ? [Hy _] _]. exact Hy. }
      exists before, after. split.
      * rewrite Hends at 1. rewrite Hsplit.
        destruct year; [congruence|]. cbn [year_tokens].
        rewrite <- !app_assoc. reflexivity.
      * rewrite <- Hcat. apply rejoin; auto.
        rewrite Hcat. rewrite Hsplit in Hmid.
        apply Forall_app in Hmid. destruct Hmid as [Hb Hm].
        inversion Hm; subst. apply Forall_app. auto.
  - destruct (4 <=? length parts); [|discriminate].
    unfold row_without_year in Hr.
    destruct (isdigit (nth 0 parts [])); [|discriminate].
    destruct (2 <=? length (interior parts)); [|discriminate].
    destruct (name_and_team_parts team_keywords_plain (interior parts))
      as (np & tp & Hcat & Hnt).
    rewrite Hnt in Hr.
    destruct (acceptable _ _ _ _) eqn:Ha; [|discriminate].
    inversion Hr; subst r; clear Hr. cbn [PL NAME YEAR TEAM TIME].
    apply acceptable_fields in Ha. destruct Ha as (_ & Hn & Ht & _).
    exists (interior parts), []. cbn [year_tokens app]. split.
    + exact Hends.
    + rewrite app_nil_r, <- Hcat. apply rejoin; auto.
      rewrite Hcat. exact Hmid.
Qed.

Lemma record_keeps_every_token_witness :
  exists before after,
    split_ws (strip "  3 Maria Rivera SR Caribbean University 12.34 ") =
      PL (mkRow "3" "Maria Rivera" "SR" "Caribbean University" "12.34"
                "f.pdf" "") ::
      before ++
      year_tokens (YEAR (mkRow "3" "Maria Rivera" "SR" "Caribbean University"
                               "12.34" "f.pdf" "")) ++
      after ++
      [TIME (mkRow "3" "Maria Rivera" "SR" "Caribbean University" "12.34"
                   "f.pdf" "")] /\
    split_ws (NAME (mkRow "3" "Maria Rivera" "SR" "Caribbean University"
                          "12.34" "f.pdf" "")) ++
    split_ws (TEAM (mkRow "3" "Maria Rivera" "SR" "Caribbean University"
                          "12.34" "f.pdf" "")) = before ++ after.
Proof.
  apply (record_keeps_every_token true
           "  3 Maria Rivera SR Caribbean University 12.34 " "f.pdf" "").
  vm_compute. reflexivity.
Defined.

(** *** Lines that give a record *)

Lemma contains_length p : forall s,
  contains p s = true -> length p <= length s.
Proof.
  assert (S : forall p s, startswith p s = true -> length p <= length s).
  { induction p0 as [|a p0 IH]; intros [|b s] H; simpl in *; try lia;
      try discriminate.
    apply andb_true_iff in H. destruct H as [_ H]. apply IH in H. lia. }
  induction s as [|c s IH]; simpl; intros H.
  - rewrite orb_false_r in H. apply S in H. simpl in H. exact H.
  - apply orb_true_iff in H. destruct H as [H|H].
    + apply S in H. simpl in H. exact H.
    + apply IH in H. lia.
Qed.

Lemma keyword_token_long keywords k :
  forallb (fun kw => 2 <=? length kw) keywords = true ->
  has_keyword keywords k = true -> 1 < length k.
Proof.
  intros Hk H. unfold has_keyword in H. apply existsb_exists in H.
  destruct H as (kw & Hin & Hc). rewrite forallb_forall in Hk.
  specialize (Hk kw Hin). apply Nat.leb_le in Hk.
  apply contains_length in Hc. lia.
Qed.

Lemma join_cons_length (k : str) teams :
  length k <= length (join " " (k :: teams)).
Proof.
  rewrite join_head. destruct teams; [lia|]. rewrite length_app. lia.
Qed.

Lemma interior_ends {A} (x y : A) l : interior (x :: l ++ [y]) = l.
Proof.
  unfold interior. cbn [tl]. apply removelast_last.
Qed.

Lemma last_ends {A} (x y d : A) l : last (x :: l ++ [y]) d = y.
Proof.
  change (x :: l ++ [y]) with ((x :: l) ++ [y]). apply last_last.
Qed.

Lemma year_token_not_ill y :
  calendar_year y || is_year_code y = true -> ill_year y = false.
Proof.
  intros H. apply orb_true_iff in H. destruct H as [H|H].
  - apply calendar_not_ill. exact H.
  - destruct (ill_year y) eqn:E; [|reflexivity].
    exfalso. unfold ill_year in E.
    apply andb_true_iff in E. destruct E as [E _].
    apply andb_true_iff in E. destruct E as [E _].
    exact (isdigit_not_code _ E H).
Qed.

Lemma scan_year_first names y rest : forall i,
  existsb (fun t => ill_year t || calendar_year t || is_year_code t) names =
    false ->
  calendar_year y || is_year_code y = true ->
  scan_year i (names ++ y :: rest) =
  Ok (y, (Z.of_nat (i + length names) + 1)%Z).
Proof.
  induction names as [|n names IH]; intros i Hn Hy; cbn [app scan_year];
    rewrite is_calendar_year_cases.
  - rewrite (year_token_not_ill _ Hy). simpl. rewrite Nat.add_0_r.
    destruct (calendar_year y); [reflexivity|].
    simpl in Hy. rewrite Hy. reflexivity.
  - simpl in Hn. apply orb_false_iff in Hn. destruct Hn as [Hn Hns].
    apply orb_false_iff in Hn. destruct Hn as [Hn ->].
    apply orb_false_iff in Hn. destruct Hn as [-> ->].
    rewrite IH; auto. do 3 f_equal. simpl. lia.
Qed.

Lemma scan_year_ill names y rest : forall i,
  existsb (fun t => ill_year t || calendar_year t || is_year_code t) names =
    false ->
  ill_year y = true ->
  scan_year i (names ++ y :: rest) = Raise ValueError.
Proof.
  induction names as [|n names IH]; intros i Hn Hy; cbn [app scan_year];
    rewrite is_calendar_year_cases.
  - rewrite Hy. reflexivity.
  - simpl in Hn. apply orb_false_iff in Hn. destruct Hn as [Hn Hns].
    apply orb_false_iff in Hn. destruct Hn as [Hn ->].
    apply orb_false_iff in Hn. destruct Hn as [-> ->].
    apply IH; auto.
Qed.

Lemma acceptable_intro place name team time_part c rest :
  isdigit place = true -> 1 < length name -> 1 < length team ->
  time_part = c :: rest -> is_digit c = true ->
  acceptable place name team time_part = true.
Proof.
  intros Hp Hn Ht Htime Hc. unfold acceptable.
  rewrite Hp. apply Nat.ltb_lt in Hn, Ht. rewrite Hn, Ht. simpl.
  apply loose_time_front. eauto.
Qed.

(** X15: a line made of a place of [isdigit] characters, name tokens
    without an institution keyword, team tokens of which the first holds
    one, and a time that begins with a digit 0 to 9, the tokens joined by
    single spaces, gives exactly the record of these fields under a header
    without a year; with a year token between the name and the team, and
    among the name tokens neither a year token nor four [isdigit] characters
    that [int] refuses, it gives the record with that year under a header
    with a year.  The name must be longer than one character.  Under a
    header with a year, a line of five tokens or more in which four
    [isdigit] characters that [int] refuses come before any year token
    gives no record: the [ValueError] is caught and the line passed over. *)
Theorem well_formed_line_gives_its_record :
  (forall place names k teams time_part c rest source_file event_date,
      isdigit place = true ->
      Forall clean_token (place :: (names ++ k :: teams) ++ [time_part]) ->
      1 < length (join " " names) ->
      existsb (has_keyword team_keywords_plain) names = false ->
      has_keyword team_keywords_plain k = true ->
      time_part = c :: rest -> is_digit c = true ->
      row_of_line false
        (join " " (place :: (names ++ k :: teams) ++ [time_part]))
        source_file event_date =
      Some (mkRow place (join " " names) [] (join " " (k :: teams))
                  time_part source_file event_date)) /\
  (forall place names year k teams time_part c rest source_file event_date,
      isdigit place = true ->
      Forall clean_token
        (place :: (names ++ year :: k :: teams) ++ [time_part]) ->
      1 < length (join " " names) ->
      existsb (fun t => ill_year t || calendar_year t || is_year_code t)
        names = false ->
      calendar_year year || is_year_code year = true ->
      existsb (has_keyword team_keywords_year) names = false ->
      has_keyword team_keywords_year k = true ->
      time_part = c :: rest -> is_digit c = true ->
      row_of_line true
        (join " " (place :: (names ++ year :: k :: teams) ++ [time_part]))
        source_file event_date =
      Some (mkRow place (join " " names) year (join " " (k :: teams))
                  time_part source_file event_date)) /\
  (forall place before ill after time_part source_file event_date,
      Forall clean_token
        (place :: (before ++ ill :: after) ++ [time_part]) ->
      3 <= length (before ++ ill :: after) ->
      existsb (fun t => ill_year t || calendar_year t || is_year_code t)
        before = false ->
      ill_year ill = true ->
      row_of_line true
        (join " " (place :: (before ++ ill :: after) ++ [time_part]))
        source_file event_date = None).
Proof.
  split; [|split].
  3:{ intros place before ill after time_part src d Hclean Hlen Hb Hill.
      unfold row_of_line. rewrite split_ws_join; [|discriminate|exact Hclean].
      replace (5 <=? length
                 (place :: (before ++ ill :: after) ++ [time_part]))
        with true.
      2:{ symmetry. apply Nat.leb_le. simpl. rewrite length_app. simpl. lia. }
      cbn [andb]. unfold row_with_year. cbn [nth].
      destruct (isdigit place); [|reflexivity].
      rewrite interior_ends.
      rewrite (scan_year_ill before ill after 0 Hb Hill). reflexivity. }
  - intros place names k teams time_part c rest src d
           Hp Hclean Hname Hnk Hk Htime Hc.
    assert (Hnames : names <> []) by (apply join_nil_length; exact Hname).
    unfold row_of_line. rewrite split_ws_join; [|discriminate|exact Hclean].
    cbn [andb].
    replace (4 <=? length (place :: (names ++ k :: teams) ++ [time_part]))
      with true.
    2:{ symmetry. apply Nat.leb_le. simpl. rewrite !length_app. simpl.
        destruct names; [congruence|]. simpl. lia. }
    unfold row_without_year. cbn [nth]. rewrite Hp.
    rewrite interior_ends, last_ends.
    replace (2 <=? length (names ++ k :: teams)) with true.
    2:{ symmetry. apply Nat.leb_le. rewrite length_app. simpl.
        destruct names; [congruence|]. simpl. lia. }
    rewrite name_and_team_keyword; auto.
    rewrite (@acceptable_intro place _ _ time_part c rest); auto.
    pose proof (keyword_token_long team_keywords_plain k eq_refl Hk).
    pose proof (join_cons_length k teams). lia.
  - intros place names year k teams time_part c rest src d
           Hp Hclean Hname Hny Hy Hnk Hk Htime Hc.
    assert (Hnames : names <> []) by (apply join_nil_length; exact Hname).
    unfold row_of_line. rewrite split_ws_join; [|discriminate|exact Hclean].
    replace (5 <=? length
               (place :: (names ++ year :: k :: teams) ++ [time_part]))
      with true.
    2:{ symmetry. apply Nat.leb_le. simpl. rewrite !length_app. simpl.
        destruct names; [congruence|]. simpl. lia. }
    cbn [andb]. unfold row_with_year. cbn [nth]. rewrite Hp.
    rewrite interior_ends, last_ends.
    rewrite (scan_year_first names year (k :: teams) 0 Hny Hy).
    replace (2 <=? length (names ++ year :: k :: teams)) with true.
    2:{ symmetry. apply Nat.leb_le. rewrite length_app. simpl. lia. }
    replace (Z.of_nat (0 + length names) + 1 >? 0)%Z with true
      by (symmetry; apply Z.gtb_lt; lia).
    rewrite without_index_split.
    rewrite name_and_team_keyword; auto.
    rewrite (@acceptable_intro place _ _ time_part c rest); auto.
    pose proof (keyword_token_long team_keywords_year k eq_refl Hk).
    pose proof (join_cons_length k teams). lia.
Qed.

End TextMore.

(* ================================================================= *)
(** ** More on the runs of the scraper *)

Module RunMore.

Import Py Final Spec RunFacts.

(** X6: the scraper keeps [total_records] equal to the number of records
    it holds.  [process_folder] raises exactly when [exists()] or [glob]
    does; otherwise it keeps the records it had and appends, file after
    file in the order of the listing, the records of each PDF file; with
    the folder missing it appends nothing. *)
Theorem folder_records_accumulate w self :
  total_records self = length (extracted_data self) ->
  (forall e,
      process_folder w self = Raise e <->
      folder_exists w = Raise e \/
      (folder_exists w = Ok true /\ glob_pdf w = Raise e)) /\
  ((forall e, folder_exists w <> Raise e) ->
   (forall e, glob_pdf w <> Raise e) ->
   exists ok scraper, process_folder w self = Ok (ok, scraper)) /\
  (forall ok scraper,
      process_folder w self = Ok (ok, scraper) ->
      total_records scraper = length (extracted_data scraper) /\
      extracted_data scraper =
        extracted_data self ++
        match folder_exists w, glob_pdf w with
        | Ok true, Ok files => flat_map (extract_data_from_pdf w self) files
        | _, _ => []
        end /\
      folder_path scraper = folder_path self).
Proof.
  intros Hinv. unfold process_folder. split; [|split].
  - intros e. destruct (folder_exists w) as [[|]|e1].
    + destruct (glob_pdf w) as [[|f files]|e2].
      * split; [discriminate|]. intros [H|[_ H]]; discriminate.
      * split; [discriminate|]. intros [H|[_ H]]; discriminate.
      * split; [intros H; inversion H; auto|].
        intros [H|[_ H]]; [discriminate|]. inversion H. reflexivity.
    + split; [discriminate|]. intros [H|[H _]]; discriminate.
    + split; [intros H; inversion H; auto|].
      intros [H|[H _]]; [|discriminate]. inversion H. reflexivity.
  - intros Hf Hg. destruct (folder_exists w) as [[|]|e1].
    + destruct (glob_pdf w) as [[|f files]|e2]; eauto.
      exfalso. exact (Hg e2 eq_refl).
    + eauto.
    + exfalso. exact (Hf e1 eq_refl).
  - intros ok scraper.
    destruct (folder_exists w) as [[|]|e1]; [| |discriminate].
    + destruct (glob_pdf w) as [[|f files]|e2] eqn:E; [| |discriminate];
        intros H; injection H as _ <-.
      * simpl. rewrite app_nil_r. auto.
      * destruct (fold_process_file w (f :: files) self) as (He & Ht & Hf).
        cbn [fold_left] in He, Ht, Hf.
        rewrite He, Ht, Hf, length_app, Hinv. auto.
    + intros H; injection H as _ <-. rewrite app_nil_r. auto.
Qed.

Lemma folder_records_accumulate_witness :
  exists scraper,
    process_folder
      (mkWorld true "pdfplumber" (Ok true)
         (Ok [ "a.pdf" : str; "b.pdf" : str ])
         (fun f =>
            if startswith "a" f
            then Some (Spec.text_of
                         [ "PL NAME TEAM TIME" : str;
                           "1 John Smith University of State 21.45" : str ])
            else None) true (fun _ => None))
      (init "results") = Ok (true, scraper) /\
    total_records scraper = length (extracted_data scraper).
Proof.
  eexists. split; [vm_compute; reflexivity|].
  match goal with
  | |- total_records ?s = _ =>
      exact (proj1 (proj2 (proj2
               (folder_records_accumulate
                  (mkWorld true "pdfplumber" (Ok true)
                     (Ok [ "a.pdf" : str; "b.pdf" : str ])
                     (fun f =>
                        if startswith "a" f
                        then Some (Spec.text_of
                                     [ "PL NAME TEAM TIME" : str;
                                       "1 John Smith University of State 21.45"
                                       : str ])
                        else None) true (fun _ => None))
                  (init "results") eq_refl)) true s
               ltac:(vm_compute; reflexivity)))
  end.
Defined.

(** When [main] returns, it ends as on the console that prints every
    line. *)
Lemma main_returns w argv out out' r :
  main w argv out = (out', Ok r) ->
  snd (main (quiet w) argv []) = Ok r.
Proof.
  intros H. pose proof (main_ok_lines _ _ _ H) as Hl.
  rewrite (@main_as_quiet w argv out Hl) in H.
  injection H as _ H. exact H.
Qed.

Lemma main_end w argv :
  length argv = 2 ->
  snd (main (quiet w) argv []) =
  match process_folder w (init (nth 1 argv [])) with
  | Raise e => Raise e
  | Ok (false, _) => Ok (ProcessFailed, NotTried)
  | Ok (true, scraper) =>
      Ok (if fst (save_to_csv w scraper) then Completed else SaveFailed,
          snd (save_to_csv w scraper))
  end.
Proof.
  intros Hlen.
  rewrite (@main_report (quiet w) argv [] (quiet_prints_all w)), Hlen.
  cbn [Nat.eqb negb].
  change (process_folder (quiet w)) with (process_folder w).
  destruct (process_folder w _) as [[[|] scraper]|e]; reflexivity.
Qed.

Lemma main_usage w argv :
  length argv <> 2 ->
  snd (main (quiet w) argv []) = Ok (Usage, NotTried).
Proof.
  intros Hlen.
  rewrite (@main_report (quiet w) argv [] (quiet_prints_all w)).
  destruct (Nat.eqb_spec (length argv) 2); [contradiction|reflexivity].
Qed.

(** X7: [main] ends with the success message only when it was given one
    argument, the folder exists, the CSV file can be written and at least
    one PDF file of the folder gave a record, and then the file holds the
    header and one row for each record; on a console that prints every
    line these conditions are enough.  When the folder has PDF files but
    none gives a record, [main] reports a failure to save although no
    write was attempted. *)
Theorem main_completes_iff w argv out :
  (forall out' saved,
      main w argv out = (out', Ok (Completed, saved)) ->
      length argv = 2 /\ folder_exists w = Ok true /\
      csv_writable w = true /\
      exists files f,
        glob_pdf w = Ok files /\ In f files /\
        extract_data_from_pdf w (init (nth 1 argv [])) f <> [] /\
        saved =
          Wrote (fieldnames ::
                 map csv_row
                   (flat_map
                      (extract_data_from_pdf w (init (nth 1 argv [])))
                      files))) /\
  (prints_all w ->
   length argv = 2 -> folder_exists w = Ok true -> csv_writable w = true ->
   forall files f,
     glob_pdf w = Ok files -> In f files ->
     extract_data_from_pdf w (init (nth 1 argv [])) f <> [] ->
     snd (main w argv out) =
       Ok (Completed,
           Wrote (fieldnames ::
                  map csv_row
                    (flat_map
                       (extract_data_from_pdf w (init (nth 1 argv [])))
                       files))) /\
     last (fst (main w argv out)) MUsage =
       MTotalRecords
         (length (flat_map (extract_data_from_pdf w (init (nth 1 argv [])))
                    files))) /\
  (prints_all w ->
   length argv = 2 -> folder_exists w = Ok true ->
   forall files,
     glob_pdf w = Ok files -> files <> [] ->
     (forall f, In f files ->
                extract_data_from_pdf w (init (nth 1 argv [])) f = []) ->
     snd (main w argv out) = Ok (SaveFailed, NotTried) /\
     last (fst (main w argv out)) MUsage = MSaveFailed).
Proof.
  split; [|split].
  - intros out' saved H. apply main_returns in H.
    assert (Hlen : length argv = 2).
    { destruct (Nat.eq_dec (length argv) 2) as [E|E]; [exact E|].
      rewrite (main_usage w argv E) in H. discriminate. }
    rewrite (main_end w argv Hlen) in H. unfold process_folder in H.
    destruct (folder_exists w) as [[|]|e]; [| |discriminate];
      [|discriminate].
    destruct (glob_pdf w) as [[|f files]|e]; [| |discriminate];
      [discriminate|].
    destruct (fold_process_file w (f :: files) (init (nth 1 argv [])))
      as (He & _ & _).
    unfold save_to_csv in H. rewrite He in H. cbn [init extracted_data app] in H.
    destruct (flat_map _ (f :: files)) as [|r rs] eqn:F; [discriminate|].
    destruct (csv_writable w); [|discriminate].
    cbn [fst snd] in H. injection H as <-.
    repeat split; auto.
    destruct (in_flat_map (extract_data_from_pdf w (init (nth 1 argv [])))
                (f :: files) r) as [Hex _].
    destruct Hex as (x & Hx & Hr); [rewrite F; left; reflexivity|].
    exists (f :: files), x. repeat split; auto.
    + intros E'. rewrite E' in Hr. destruct Hr.
    + rewrite F. reflexivity.
  - intros Hq Hlen Hf Hw files f Hg Hin Hne.
    rewrite (@main_report w argv out Hq), Hlen. cbn [Nat.eqb negb].
    unfold process_folder. rewrite Hf, Hg.
    destruct files as [|f0 files]; [destruct Hin|].
    destruct (fold_process_file w (f0 :: files) (init (nth 1 argv [])))
      as (He & Ht & _).
    cbn [init extracted_data total_records app Nat.add] in He, Ht.
    unfold save_to_csv. rewrite He, Ht, Hw.
    destruct (flat_map _ (f0 :: files)) as [|r rs] eqn:F.
    + exfalso. apply Hne. apply (proj1 (flat_map_nil _ _) F). exact Hin.
    + cbn [fst snd]. split; [reflexivity|].
      rewrite !app_assoc.
      change [MCompleted; MSavedTo; MTotalRecords (length (r :: rs))]
        with ([MCompleted; MSavedTo] ++ [MTotalRecords (length (r :: rs))]).
      rewrite !app_assoc. apply last_last.
  - intros Hq Hlen Hf files Hg Hne Hnone.
    rewrite (@main_report w argv out Hq), Hlen. cbn [Nat.eqb negb].
    unfold process_folder. rewrite Hf, Hg.
    destruct files as [|f0 files]; [congruence|].
    destruct (fold_process_file w (f0 :: files) (init (nth 1 argv [])))
      as (He & _ & _).
    cbn [init extracted_data app] in He.
    unfold save_to_csv. rewrite He.
    rewrite (proj2 (flat_map_nil _ _) Hnone).
    cbn [fst snd]. split; [reflexivity|].
    rewrite !app_assoc. apply last_last.
Qed.

End RunMore.

(* ================================================================= *)
(** ** The table path *)

Module TableFacts.

Import Py Re ReFacts Terms StringFacts.
Import Tables.

(** *** The columns of the fields *)

Lemma is_field_spec f header :
  is_field f header = true <-> field_of header = Some f.
Proof.
  unfold is_field. destruct (field_of header) as [g|].
  - destruct g, f; simpl; split; congruence.
  - split; discriminate.
Qed.

Lemma identify_step_index fi i header f :
  index_of (identify_step fi (i, header)) f =
  if is_field f header then Some i else index_of fi f.
Proof.
  unfold is_field, field_of, identify_step.
  cbn [find field_keywords].
  repeat match goal with
         | |- context [has_any ?k (upper header)] =>
             destruct (has_any k (upper header))
         end; destruct f; reflexivity.
Qed.

Lemma fold_identify f headers : forall start fi,
  index_of
    (fold_left identify_step (combine (seq start (length headers)) headers) fi)
    f =
  match last_with f start headers with
  | Some j => Some j
  | None => index_of fi f
  end.
Proof.
  induction headers as [|h hs IH]; intros start fi; [reflexivity|].
  cbn [length seq combine fold_left last_with].
  rewrite IH. destruct (last_with f (S start) hs); [reflexivity|].
  rewrite identify_step_index. destruct (is_field f h); reflexivity.
Qed.

Lemma identify_last_with headers f :
  index_of (identify_field_columns headers) f = last_with f 0 headers.
Proof.
  unfold identify_field_columns. rewrite fold_identify.
  destruct (last_with f 0 headers); [reflexivity|]. destruct f; reflexivity.
Qed.

Lemma last_with_none f headers : forall start,
  last_with f start headers = None <->
  forall k, k < length headers -> is_field f (nth k headers []) = false.
Proof.
  induction headers as [|h hs IH]; intros start; simpl.
  - split; [intros _ k Hk; lia|reflexivity].
  - destruct (last_with f (S start) hs) as [j|] eqn:E.
    + split; [discriminate|]. intros H. exfalso.
      assert (N : last_with f (S start) hs = None).
      { apply IH. intros k Hk. apply (H (S k)). lia. }
      congruence.
    + destruct (is_field f h) eqn:Eh.
      * split; [discriminate|]. intros H. specialize (H 0 ltac:(lia)).
        simpl in H. congruence.
      * split; [|reflexivity]. intros _ [|k] Hk; [exact Eh|].
        apply (proj1 (IH (S start)) E). lia.
Qed.

Lemma last_with_some f headers : forall start j,
  last_with f start headers = Some j <->
  start <= j < start + length headers /\
  is_field f (nth (j - start) headers []) = true /\
  forall k, j < k < start + length headers ->
            is_field f (nth (k - start) headers []) = false.
Proof.
  induction headers as [|h hs IH]; intros start j; simpl.
  - split; [discriminate|]. intros [H _]. lia.
  - destruct (last_with f (S start) hs) as [j'|] eqn:E.
    + apply IH in E. destruct E as (Hr & Hf & Hlater). split.
      * intros H. inversion H; subst j'. split; [lia|].
        replace (j - start) with (S (j - S start)) by lia. split; [exact Hf|].
        intros k Hk. replace (k - start) with (S (k - S start)) by lia.
        apply Hlater. lia.
      * intros (Hr' & Hf' & Hlater'). f_equal.
        destruct (Nat.lt_trichotomy j j') as [Hlt|[->|Hgt]]; auto.
        -- specialize (Hlater' j' ltac:(lia)).
           replace (j' - start) with (S (j' - S start)) in Hlater' by lia.
           simpl in Hlater'. congruence.
        -- destruct (Nat.eq_dec j start) as [->|Hne]; [lia|].
           specialize (Hlater j ltac:(lia)).
           replace (j - start) with (S (j - S start)) in Hf' by lia.
           simpl in Hf'. congruence.
    + pose proof (proj1 (last_with_none f hs (S start)) E) as Hnone.
      destruct (is_field f h) eqn:Eh.
      * split.
        -- intros H. inversion H; subst j. split; [lia|].
           rewrite Nat.sub_diag. split; [exact Eh|].
           intros k Hk. replace (k - start) with (S (k - S start)) by lia.
           apply Hnone. lia.
        -- intros (Hr & Hf & _). f_equal.
           destruct (Nat.eq_dec j start) as [->|Hne]; auto.
           replace (j - start) with (S (j - S start)) in Hf by lia.
           simpl in Hf. rewrite Hnone in Hf; [discriminate|lia].
      * split; [discriminate|]. intros (Hr & Hf & _).
        destruct (Nat.eq_dec j start) as [->|Hne].
        -- rewrite Nat.sub_diag in Hf. simpl in Hf. congruence.
        -- replace (j - start) with (S (j - S start)) in Hf by lia.
           simpl in Hf. rewrite Hnone in Hf; [discriminate|lia].
Qed.

(** X8: [identify_field_columns] gives a field the column of the last
    header that belongs to it, a header belonging to the first of place,
    name, team, time and date of which it holds a keyword; a field without
    such a header has no column. *)
Theorem field_column_is_last_header headers f :
  (forall i,
      index_of (identify_field_columns headers) f = Some i <->
      i < length headers /\ field_of (nth i headers []) = Some f /\
      forall k, i < k < length headers ->
                field_of (nth k headers []) <> Some f) /\
  (index_of (identify_field_columns headers) f = None <->
   forall k, k < length headers -> field_of (nth k headers []) <> Some f).
Proof.
  rewrite identify_last_with. split.
  - intros i. rewrite last_with_some, Nat.sub_0_r, is_field_spec. simpl.
    split.
    + intros (Hr & Hf & Hlater). repeat split; [lia|exact Hf|].
      intros k Hk Hfk. apply is_field_spec in Hfk.
      specialize (Hlater k Hk). rewrite Nat.sub_0_r in Hlater. congruence.
    + intros (Hr & Hf & Hlater). repeat split; [lia|lia|exact Hf|].
      intros k Hk. rewrite Nat.sub_0_r.
      destruct (is_field f (nth k headers [])) eqn:E; [|reflexivity].
      apply is_field_spec in E. exfalso. apply (Hlater k Hk E).
  - rewrite last_with_none. split.
    + intros H k Hk Hfk. apply is_field_spec in Hfk. rewrite H in Hfk; auto.
      discriminate.
    + intros H k Hk.
      destruct (is_field f (nth k headers [])) eqn:E; [|reflexivity].
      apply is_field_spec in E. exfalso. apply (H k Hk E).
Qed.

(** *** Tables that give nothing *)

Lemma index_zero_or_none header f :
  (forall k, 0 < k < length header ->
             field_of (cell_text (nth k header None)) = None) ->
  truthy (index_of (identify_field_columns (map cell_text header)) f) = false.
Proof.
  intros H. rewrite identify_last_with.
  destruct (last_with f 0 (map cell_text header)) as [[|j]|] eqn:E;
    try reflexivity.
  exfalso. apply last_with_some in E. destruct E as (Hr & Hf & _).
  rewrite length_map in Hr. rewrite Nat.sub_0_r in Hf.
  apply is_field_spec in Hf.
  change ([] : str) with (cell_text None) in Hf. rewrite map_nth in Hf.
  unfold cell in *. rewrite H in Hf by lia. discriminate Hf.
Qed.

(** X9: a table in which no header beyond the first column belongs to a
    field gives no record, even when its first column is the place: the
    test that some column was found counts column 0 as not found. *)
Theorem first_column_alone_gives_nothing header data_rows source_file :
  (forall k, 0 < k < length header ->
             field_of (cell_text (nth k header None)) = None) ->
  process_table (header :: data_rows) source_file = [].
Proof.
  intros H. unfold process_table.
  destruct data_rows as [|row rows]; [reflexivity|].
  pose proof (fun f => index_zero_or_none header f H) as T.
  pose proof (T FPL) as T1. pose proof (T FNAME) as T2.
  pose proof (T FTEAM) as T3. pose proof (T FTIME) as T4.
  pose proof (T FDATE) as T5. cbn [index_of] in T1, T2, T3, T4, T5.
  cbn [existsb]. rewrite T1, T2, T3, T4, T5. reflexivity.
Qed.

Lemma first_column_alone_gives_nothing_witness :
  process_table
    [ [ Some ("Place" : str); Some ("Lane" : str) ];
      [ Some ("1" : str); Some ("4" : str) ];
      [ Some ("2" : str); Some ("6" : str) ] ] "f.pdf" = [].
Proof.
  apply (first_column_alone_gives_nothing
           [ Some ("Place" : str); Some ("Lane" : str) ]
           [ [ Some ("1" : str); Some ("4" : str) ];
             [ Some ("2" : str); Some ("6" : str) ] ] "f.pdf").
  intros k Hk. simpl in Hk.
  destruct k as [|[|k]]; [lia|reflexivity|lia].
Defined.

(** *** The fields of a table record *)

Lemma cell_text_clean c : head_clean (cell_text c) /\ last_clean (cell_text c).
Proof.
  unfold cell_text. destruct c as [[|a s]|]; simpl; auto.
  - split; exact I.
  - split; [apply strip_head|apply strip_last].
  - split; exact I.
Qed.

Lemma field_value_clean row i :
  head_clean (field_value row i []) /\ last_clean (field_value row i []).
Proof.
  unfold field_value. destruct i as [i|]; [|split; exact I].
  destruct (i <? length row); [apply cell_text_clean|split; exact I].
Qed.

Lemma record_from_row_clean row fi src r :
  extract_record_from_row row fi src = Some r ->
  Forall (fun f => head_clean f /\ last_clean f) (cell_fields r) /\
  SOURCE_FILE r = src.
Proof.
  unfold extract_record_from_row.
  destruct (existsb _ _); [|discriminate].
  intros H. inversion H; subst r; clear H.
  unfold cell_fields. cbn [PL NAME TEAM TIME EVENT_DATE SOURCE_FILE].
  split; [|reflexivity].
  repeat constructor; apply field_value_clean.
Qed.

Lemma process_table_rows header row rows source_file :
  process_table (header :: row :: rows) source_file =
  let headers := map cell_text header in
  let fi := identify_field_columns headers in
  if negb (existsb truthy [iPL fi; iNAME fi; iTEAM fi; iTIME fi; iEVENT_DATE fi])
  then []
  else flat_map (row_records headers fi source_file) (row :: rows).
Proof.
  reflexivity.
Qed.

Lemma row_records_length headers fi src row :
  length (row_records headers fi src row) <= 1.
Proof.
  unfold row_records. destruct row; simpl; [lia|].
  destruct (_ <? _); simpl; [lia|].
  destruct (extract_record_from_row _ _ _); simpl; lia.
Qed.

Lemma flat_map_length_le {A B} (f : A -> list B) l :
  (forall x, length (f x) <= 1) -> length (flat_map f l) <= length l.
Proof.
  intros H. induction l as [|x l IH]; simpl; [lia|].
  rewrite length_app. specialize (H x). lia.
Qed.

(** X10: every record of a table carries the file name it was given and
    fields without white space at either end, each the trimmed text of a
    cell or empty; a table gives at most one record for each row below its
    header. *)
Theorem table_records_are_trimmed table source_file :
  (forall r,
      In r (process_table table source_file) ->
      Forall (fun f => head_clean f /\ last_clean f) (cell_fields r) /\
      SOURCE_FILE r = source_file) /\
  length (process_table table source_file) <= length table - 1.
Proof.
  destruct table as [|header [|row rows]];
    try (split; [intros r []|simpl; lia]).
  rewrite process_table_rows. cbv zeta.
  destruct (negb _); [split; [intros r []|simpl; lia]|].
  split.
  - intros r Hin. apply in_flat_map in Hin.
    destruct Hin as (row0 & _ & Hr). unfold row_records in Hr.
    destruct row0 as [|c0 row0]; [destruct Hr|].
    destruct (_ <? _); [destruct Hr|].
    destruct (extract_record_from_row _ _ _) as [rec|] eqn:E; [|destruct Hr].
    destruct Hr as [<-|[]]. eapply record_from_row_clean; eauto.
  - pose proof (flat_map_length_le
                  (row_records (map cell_text header)
                     (identify_field_columns (map cell_text header))
                     source_file) (row :: rows)
                  (row_records_length _ _ _)) as H.
    simpl in *. lia.
Qed.

End TableFacts.

(* ================================================================= *)
(** ** The tables of the page *)

Module DomFacts.

Import Py Html Dom Terms StringFacts.

(** *** The cleaning of the cells *)

Lemma collapse_from_spaced s : forall b,
  spaced_once b (collapse_from b s) = true.
Proof.
  induction s as [|c s IH]; intros b; simpl; [reflexivity|].
  destruct (is_space c) eqn:E.
  - destruct b; [apply IH|].
    cbn [spaced_once]. change (is_space " ") with true. cbn iota.
    rewrite (IH true). reflexivity.
  - simpl. rewrite E. apply IH.
Qed.

Lemma spaced_once_fixed s : forall b,
  spaced_once b s = true -> collapse_from b s = s.
Proof.
  induction s as [|c s IH]; intros b H; simpl in *; [reflexivity|].
  destruct (is_space c) eqn:E.
  - apply andb_true_iff in H. destruct H as [H Hs].
    apply andb_true_iff in H. destruct H as [Hc Hb].
    destruct b; [discriminate|].
    apply Ascii.eqb_eq in Hc. subst c. f_equal. apply IH. exact Hs.
  - f_equal. apply IH. exact H.
Qed.

Lemma collapse_ws_spaced s : spaced_once false (collapse_ws s) = true.
Proof.
  apply collapse_from_spaced.
Qed.

Lemma collapse_ws_twice s : collapse_ws (collapse_ws s) = collapse_ws s.
Proof.
  apply spaced_once_fixed, collapse_ws_spaced.
Qed.

Lemma filter_length_le {A} (f : A -> bool) l :
  length (filter f l) <= length l.
Proof.
  induction l as [|x l IH]; simpl; [lia|].
  destruct (f x); simpl; lia.
Qed.

(** X11: the data of a table has no empty header; every row it keeps comes
    from a row below the first, has a cell that is not blank, and holds
    cells in which white space occurs only as single spaces, so that
    cleaning them again changes nothing; rows without data are left out. *)
Theorem page_rows_are_clean t d :
  extract_table_data (Some t) = Some d ->
  Forall (fun h => h <> []) (headers d) /\
  Forall (fun row =>
            has_data row = true /\
            (exists cells, In cells (tl (trs t)) /\ row = map collapse_ws cells) /\
            Forall (fun cell => spaced_once false cell = true /\
                                collapse_ws cell = cell) row)
         (rows d) /\
  length (rows d) <= length (trs t) - 1.
Proof.
  unfold extract_table_data. intros H. inversion H; subst d; clear H.
  cbn [headers rows]. split; [|split].
  - destruct (trs t) as [|header_row rest]; [constructor|].
    apply Forall_forall. intros h Hh. apply filter_In in Hh.
    destruct Hh as [_ Hh]. destruct h; [discriminate|discriminate].
  - apply Forall_forall. intros row Hrow. apply filter_In in Hrow.
    destruct Hrow as [Hin Hdata]. apply in_map_iff in Hin.
    destruct Hin as (cells & <- & Hcells).
    split; [exact Hdata|]. split; [exists cells; auto|].
    unfold row_data. apply Forall_forall. intros cell Hcell.
    apply in_map_iff in Hcell. destruct Hcell as (raw & <- & _).
    split; [apply collapse_ws_spaced|apply collapse_ws_twice].
  - pose proof (filter_length_le has_data (map row_data (tl (trs t)))) as H.
    rewrite length_map in H. destruct (trs t); simpl in *; lia.
Qed.

Lemma page_rows_are_clean_witness :
  Forall (fun h => h <> [])
    (headers (mkTableData [ "PL" : str; "NAME" : str ]
                [ [ "1" : str; "John Smith" : str ] ])) /\
  Forall (fun row =>
            has_data row = true /\
            (exists cells,
                In cells
                   (tl (trs (mkTableNode None None
                               [ [ "PL" : str; "" : str; "NAME" : str ];
                                 [ "1" : str; ("John" ++ [newline] ++ "  Smith") ];
                                 [ "" : str; "  " : str ] ]))) /\
                row = map collapse_ws cells) /\
            Forall (fun cell => spaced_once false cell = true /\
                                collapse_ws cell = cell) row)
    (rows (mkTableData [ "PL" : str; "NAME" : str ]
             [ [ "1" : str; "John Smith" : str ] ])) /\
  length (rows (mkTableData [ "PL" : str; "NAME" : str ]
                  [ [ "1" : str; "John Smith" : str ] ])) <=
  length (trs (mkTableNode None None
                 [ [ "PL" : str; "" : str; "NAME" : str ];
                   [ "1" : str; ("John" ++ [newline] ++ "  Smith") ];
                   [ "" : str; "  " : str ] ])) - 1.
Proof.
  apply (@page_rows_are_clean
           (mkTableNode None None
              [ [ "PL" : str; "" : str; "NAME" : str ];
                [ "1" : str; ("John" ++ [newline] ++ "  Smith") ];
                [ "" : str; "  " : str ] ])
           (mkTableData [ "PL" : str; "NAME" : str ]
              [ [ "1" : str; "John Smith" : str ] ])).
  vm_compute. reflexivity.
Defined.

(** *** The dict of the tables *)

Lemma str_eqb_spec a b : reflect (a = b) (str_eqb a b).
Proof.
  unfold str_eqb. destruct (list_eq_dec ascii_dec a b); constructor; auto.
Qed.

Lemma dict_get_set {V} (k k' : str) (v : V) d :
  dict_get k' (dict_set k v d) =
  if str_eqb k k' then Some v else dict_get k' d.
Proof.
  induction d as [|[k0 v0] d IH]; simpl.
  - reflexivity.
  - destruct (str_eqb_spec k0 k) as [->|Hne]; simpl.
    + destruct (str_eqb_spec k k'); reflexivity.
    + rewrite IH. destruct (str_eqb_spec k0 k') as [->|Hne'].
      * destruct (str_eqb_spec k k'); [congruence|reflexivity].
      * reflexivity.
Qed.

Lemma dict_set_keys {V} (k : str) (v : V) d x :
  In x (map fst (dict_set k v d)) -> x = k \/ In x (map fst d).
Proof.
  induction d as [|[k0 v0] d IH]; simpl.
  - intros [H|[]]; auto.
  - destruct (str_eqb_spec k0 k); simpl; intros [H|H]; auto.
    destruct (IH H); auto.
Qed.

Lemma dict_set_nodup {V} (k : str) (v : V) d :
  NoDup (map fst d) -> NoDup (map fst (dict_set k v d)).
Proof.
  induction d as [|[k0 v0] d IH]; simpl; intros H.
  - constructor; [intros []|constructor].
  - inversion H as [|? ? Hnin Hd]; subst.
    destruct (str_eqb_spec k0 k); simpl; [constructor; auto|].
    constructor; [|auto].
    intros Hin. apply dict_set_keys in Hin. destruct Hin; [congruence|auto].
Qed.

Lemma dict_set_values {V} (P : V -> Prop) (k : str) (v : V) d :
  P v -> Forall (fun kv => P (snd kv)) d ->
  Forall (fun kv => P (snd kv)) (dict_set k v d).
Proof.
  intros Hv. induction d as [|[k0 v0] d IH]; simpl; intros H.
  - repeat constructor. exact Hv.
  - inversion H; subst. destruct (str_eqb k0 k); constructor; auto.
Qed.

Lemma store_get name td i t :
  dict_get name (store td (i, t)) =
  match (if str_eqb (table_name i t) name then stored t else None) with
  | Some d => Some (Some d)
  | None => dict_get name td
  end.
Proof.
  unfold store, stored. destruct (extract_table_data (Some t)) as [d|].
  - destruct (rows d) eqn:E.
    + destruct (str_eqb _ _); reflexivity.
    + rewrite dict_get_set. destruct (str_eqb _ _); reflexivity.
  - destruct (str_eqb _ _); reflexivity.
Qed.

Lemma fold_store name tables : forall start td,
  dict_get name
    (fold_left store (combine (seq start (length tables)) tables) td) =
  match last_named start name tables with
  | Some d => Some (Some d)
  | None => dict_get name td
  end.
Proof.
  induction tables as [|t ts IH]; intros start td; [reflexivity|].
  cbn [length seq combine fold_left last_named].
  rewrite IH. destruct (last_named (S start) name ts); [reflexivity|].
  apply store_get.
Qed.

(** Whether a dict holds only tables with rows. *)
Lemma store_invariant td it :
  NoDup (map fst td) /\
  Forall (fun kv => exists d, snd kv = Some d /\ rows d <> []) td ->
  NoDup (map fst (store td it)) /\
  Forall (fun kv => exists d, snd kv = Some d /\ rows d <> []) (store td it).
Proof.
  intros [Hn Hv]. destruct it as [i t]. unfold store.
  destruct (extract_table_data (Some t)) as [d|]; [|auto].
  destruct (rows d) eqn:E; [auto|].
  split; [apply dict_set_nodup; exact Hn|].
  apply (dict_set_values
           (fun v => exists d0, v = Some d0 /\ rows d0 <> [])); auto.
  exists d. split; [reflexivity|]. rewrite E. discriminate.
Qed.

Lemma fold_store_invariant its : forall td,
  NoDup (map fst td) /\
  Forall (fun kv => exists d, snd kv = Some d /\ rows d <> []) td ->
  NoDup (map fst (fold_left store its td)) /\
  Forall (fun kv => exists d, snd kv = Some d /\ rows d <> [])
    (fold_left store its td).
Proof.
  induction its as [|it its IH]; intros td H; simpl; [exact H|].
  apply IH, store_invariant, H.
Qed.

Lemma find_all_tables_invariant tables :
  NoDup (map fst (find_all_tables tables)) /\
  Forall (fun kv => exists d, snd kv = Some d /\ rows d <> [])
    (find_all_tables tables).
Proof.
  apply fold_store_invariant. split; constructor.
Qed.

Lemma last_named_none name tables : forall start,
  last_named start name tables = None <->
  forall k t, nth_error tables k = Some t ->
              table_name (start + k) t = name -> stored t = None.
Proof.
  induction tables as [|t ts IH]; intros start; simpl.
  - split; [intros _ [|k] t'; discriminate|reflexivity].
  - destruct (last_named (S start) name ts) as [d|] eqn:E.
    + split; [discriminate|]. intros H. exfalso.
      assert (N : last_named (S start) name ts = None).
      { apply IH. intros k t' Hk Hn. apply (H (S k) t'); auto.
        rewrite <- Hn. f_equal. lia. }
      congruence.
    + pose proof (proj1 (IH (S start)) E) as Hnone.
      destruct (str_eqb_spec (table_name start t) name) as [Hn|Hn].
      * split.
        -- intros Hs [|k] t' Hk Hn'.
           ++ inversion Hk; subst t'. exact Hs.
           ++ apply (Hnone k t'); auto. rewrite <- Hn'. f_equal. lia.
        -- intros H. apply (H 0 t); auto. rewrite Nat.add_0_r. exact Hn.
      * split; [|reflexivity]. intros _ [|k] t' Hk Hn'.
        -- inversion Hk; subst t'. rewrite Nat.add_0_r in Hn'. congruence.
        -- apply (Hnone k t'); auto. rewrite <- Hn'. f_equal. lia.
Qed.

Lemma last_named_some name tables : forall start d,
  last_named start name tables = Some d <->
  exists i t,
    nth_error tables i = Some t /\ table_name (start + i) t = name /\
    stored t = Some d /\
    forall j t', i < j -> nth_error tables j = Some t' ->
                 table_name (start + j) t' = name -> stored t' = None.
Proof.
  induction tables as [|t ts IH]; intros start d; simpl.
  - split; [discriminate|]. intros ([|i] & t & H & _); discriminate.
  - destruct (last_named (S start) name ts) as [d'|] eqn:E.
    + apply IH in E. destruct E as (i & t0 & Hi & Hn & Hs & Hlater). split.
      * intros H. inversion H; subst d'. exists (S i), t0.
        repeat split; auto.
        -- rewrite <- Hn. f_equal. lia.
        -- intros [|j] t' Hj Hnj Hnm; [lia|].
           apply (Hlater j t'); auto; [lia|]. rewrite <- Hnm. f_equal. lia.
      * intros (i' & t1 & Hi' & Hn' & Hs' & Hlater'). f_equal.
        destruct (Nat.lt_trichotomy i' (S i)) as [Hlt|[Heq|Hgt]].
        -- specialize (Hlater' (S i) t0 Hlt Hi).
           rewrite Hlater' in Hs; [discriminate|].
           rewrite <- Hn. f_equal. lia.
        -- subst i'. simpl in Hi'. congruence.
        -- destruct i' as [|i']; [lia|]. simpl in Hi'.
           rewrite (Hlater i' t1) in Hs'; [discriminate|lia|exact Hi'|].
           rewrite <- Hn'. f_equal. lia.
    + pose proof (proj1 (last_named_none name ts (S start)) E) as Hnone.
      destruct (str_eqb_spec (table_name start t) name) as [Hn|Hn].
      * split.
        -- intros Hs. exists 0, t. rewrite Nat.add_0_r.
           repeat split; auto.
           intros [|j] t' Hj Hnj Hnm; [lia|].
           apply (Hnone j t'); auto. rewrite <- Hnm. f_equal. lia.
        -- intros ([|i] & t0 & Hi & Hn0 & Hs & _).
           ++ inversion Hi; subst t0. exact Hs.
           ++ simpl in Hi. rewrite (Hnone i t0) in Hs; [discriminate|exact Hi|].
              rewrite <- Hn0. f_equal. lia.
      * split; [discriminate|].
        intros ([|i] & t0 & Hi & Hn0 & Hs & _).
        -- inversion Hi; subst t0. rewrite Nat.add_0_r in Hn0. congruence.
        -- simpl in Hi. rewrite (Hnone i t0) in Hs; [discriminate|exact Hi|].
           rewrite <- Hn0. f_equal. lia.
Qed.

(** X12: [find_all_tables] stores under a name the data of the last table
    of that name that has a row with data: an earlier table of the same
    name is overwritten, a table without such a row is not stored.  No name
    occurs twice, and every stored table has a row. *)
Theorem last_table_of_a_name_is_kept tables :
  (forall name d,
      dict_get name (find_all_tables tables) = Some (Some d) <->
      exists i t,
        nth_error tables i = Some t /\ table_name i t = name /\
        stored t = Some d /\
        forall j t', i < j -> nth_error tables j = Some t' ->
                     table_name j t' = name -> stored t' = None) /\
  NoDup (map fst (find_all_tables tables)) /\
  (forall name v,
      In (name, v) (find_all_tables tables) ->
      exists d, v = Some d /\ rows d <> []).
Proof.
  split; [|split].
  - intros name d. unfold find_all_tables. rewrite fold_store.
    cbn [dict_get].
    destruct (last_named 0 name tables) as [d'|] eqn:E.
    + split.
      * intros H. inversion H; subst d'. apply last_named_some in E. exact E.
      * intros H. apply (proj2 (last_named_some name tables 0 d)) in H.
        simpl in H. congruence.
    + split; [discriminate|]. intros H.
      apply (proj2 (last_named_some name tables 0 d)) in H. congruence.
  - apply find_all_tables_invariant.
  - intros name v Hin.
    destruct (find_all_tables_invariant tables) as [_ H].
    rewrite Forall_forall in H. apply (H (name, v) Hin).
Qed.

(** *** One file for each table *)

Lemma save_fold writable base table_data : forall st,
  Forall (fun kv => exists d, snd kv = Some d /\ rows d <> []) table_data ->
  fst (fold_left (save_step writable base) table_data st) =
    fst st ++
    map (file_name base)
      (filter (fun n => writable (file_name base n)) (map fst table_data)) /\
  snd (fold_left (save_step writable base) table_data st) =
    snd st ++
    flat_map (fun kv =>
                match snd kv with
                | Some d =>
                    if writable (file_name base (fst kv))
                    then [(file_name base (fst kv), file_rows d)] else []
                | None => []
                end) table_data.
Proof.
  induction table_data as [|[name v] td IH]; intros st H.
  - simpl. rewrite !app_nil_r. auto.
  - inversion H as [|? ? (d & Hv & Hr) Htd]; subst. simpl in Hv. subst v.
    cbn [fold_left].
    destruct (IH (save_step writable base st (name, Some d)) Htd) as [F S].
    rewrite F, S. unfold save_step.
    cbn [map fst snd filter flat_map].
    destruct (rows d) eqn:E; [congruence|].
    destruct (writable (file_name base name)); cbn [fst snd map app].
    + rewrite <- !app_assoc. auto.
    + auto.
Qed.

Lemma file_name_inj base a b : file_name base a = file_name base b -> a = b.
Proof.
  unfold file_name. intros H. apply app_inv_head in H.
  apply app_inv_head in H. apply app_inv_tail in H. exact H.
Qed.

Lemma nodup_map_inj {A B} (f : A -> B) l :
  (forall a b, f a = f b -> a = b) -> NoDup l -> NoDup (map f l).
Proof.
  intros Hinj H. induction H as [|x l Hx Hl IH]; simpl; constructor; auto.
  intros Hin. apply in_map_iff in Hin. destruct Hin as (y & Hy & Hin).
  apply Hinj in Hy. subst y. auto.
Qed.

Lemma nodup_filter {A} (f : A -> bool) l : NoDup l -> NoDup (filter f l).
Proof.
  intros H. induction H as [|x l Hx Hl IH]; simpl; [constructor|].
  destruct (f x); auto. constructor; auto.
  intros Hin. apply filter_In in Hin. tauto.
Qed.

(** X13: saving the tables of a page to separate files writes one file for
    every stored table whose file can be written, in the order of the dict,
    and returns their names; a file that cannot be written is passed over
    and the files after it are still written; no file name comes twice. *)
Theorem one_file_for_each_table writable tables base_filename :
  fst (save_to_csv writable (find_all_tables tables) base_filename) =
    map (file_name base_filename)
      (filter (fun n => writable (file_name base_filename n))
         (map fst (find_all_tables tables))) /\
  map fst (snd (save_to_csv writable (find_all_tables tables) base_filename)) =
    fst (save_to_csv writable (find_all_tables tables) base_filename) /\
  NoDup (fst (save_to_csv writable (find_all_tables tables) base_filename)).
Proof.
  destruct (find_all_tables_invariant tables) as [Hn Hv].
  destruct (@save_fold writable base_filename (find_all_tables tables)
              ([], []) Hv) as [F S].
  unfold save_to_csv. rewrite F, S. cbn [fst snd app].
  split; [reflexivity|]. split.
  - clear F S Hn. induction (find_all_tables tables) as [|[name v] td IH];
      [reflexivity|].
    inversion Hv as [|? ? (d & Hd & _) Htd]; subst. simpl in Hd. subst v.
    cbn [flat_map map filter fst snd].
    destruct (writable (file_name base_filename name)); cbn [app map fst].
    + f_equal. apply IH. exact Htd.
    + apply IH. exact Htd.
  - apply nodup_map_inj; [apply file_name_inj|].
    apply nodup_filter. exact Hn.
Qed.

End DomFacts.

(* ================================================================= *)
(** ** The text fallback of pdf_scraper.py, the pages of a file and the
    combined file *)

Module GroupFacts.

Import Py Groups.

Section Sound.

Variable R : Type.

Lemma rep_loop_sound b r (k : cont R) :
  sound_for R r ->
  forall fuel pos s g x,
    rep_loop b (gmatch r) k fuel pos s g = Some x ->
    exists w rest g',
      s = w ++ rest /\ glang (GStar b r) pos w rest g g' /\
      k (pos + length w) rest g' = Some x.
Proof.
  intros Hr. induction fuel as [|fuel IH]; intros pos s g x H; simpl in H.
  - exists [], s, g. rewrite Nat.add_0_r. repeat split; auto. constructor.
  - assert (Hmore : forall y,
      gmatch r pos s g
        (fun pos' s' g' =>
           if pos' =? pos then None
           else rep_loop b (gmatch r) k fuel pos' s' g') = Some y ->
      exists w rest g',
        s = w ++ rest /\ glang (GStar b r) pos w rest g g' /\
        k (pos + length w) rest g' = Some y).
    { intros y E. apply Hr in E. destruct E as (w1 & rest1 & g1 & -> & L1 & K).
      destruct (Nat.eqb_spec (pos + length w1) pos) as [|Hne]; [discriminate|].
      apply IH in K. destruct K as (w2 & rest & g2 & -> & L2 & K).
      exists (w1 ++ w2), rest, g2. rewrite app_assoc. split; [reflexivity|].
      split.
      - eapply GL_StarS; eauto. intros ->. simpl in Hne. lia.
      - rewrite length_app, Nat.add_assoc. exact K. }
    assert (Hstop : forall y, k pos s g = Some y ->
      exists w rest g',
        s = w ++ rest /\ glang (GStar b r) pos w rest g g' /\
        k (pos + length w) rest g' = Some y).
    { intros y E. exists [], s, g. rewrite Nat.add_0_r.
      repeat split; auto. constructor. }
    destruct b.
    + destruct (gmatch r pos s g _) as [y|] eqn:E.
      * inversion H; subst y. auto.
      * auto.
    + destruct (k pos s g) as [y|] eqn:E.
      * inversion H; subst y. auto.
      * auto.
Qed.

Lemma gmatch_sound r : sound_for R r.
Proof.
  induction r as [|p|r1 IH1 r2 IH2|r1 IH1 r2 IH2|b r IH|n r IH| |];
    intros pos s g k x H; simpl in H.
  - exists [], s, g. rewrite Nat.add_0_r. repeat split; auto. constructor.
  - destruct s as [|c s']; [discriminate|].
    destruct (p c) eqn:Pc; [|discriminate].
    exists [c], s', g. simpl. rewrite Nat.add_1_r. repeat split; auto.
    constructor; auto.
  - apply IH1 in H. destruct H as (w1 & rest1 & g1 & -> & L1 & H).
    apply IH2 in H. destruct H as (w2 & rest & g2 & -> & L2 & H).
    exists (w1 ++ w2), rest, g2. rewrite app_assoc. split; [reflexivity|].
    split; [econstructor; eauto|].
    rewrite length_app, Nat.add_assoc. exact H.
  - destruct (gmatch r1 pos s g k) as [y|] eqn:E.
    + inversion H; subst y. apply IH1 in E.
      destruct E as (w & rest & g1 & -> & L & K).
      exists w, rest, g1. repeat split; auto. apply GL_AltL; auto.
    + apply IH2 in H. destruct H as (w & rest & g1 & -> & L & K).
      exists w, rest, g1. repeat split; auto. apply GL_AltR; auto.
  - eapply rep_loop_sound; eauto.
  - apply IH in H. destruct H as (w & rest & g1 & -> & L & K).
    replace (pos + length w - pos) with (length w) in K by lia.
    rewrite firstn_app, Nat.sub_diag, firstn_all in K. simpl in K.
    rewrite app_nil_r in K.
    exists w, rest, (set_group n w g1). repeat split; auto.
    constructor; auto.
  - destruct (Nat.eqb_spec pos 0) as [->|]; [|discriminate].
    exists [], s, g. repeat split; auto. constructor.
  - exists [], s, g. rewrite Nat.add_0_r.
    destruct s as [|c [|d s']]; try discriminate.
    + repeat split; auto. constructor; auto.
    + destruct (Ascii.eqb_spec c newline) as [->|]; [|discriminate].
      repeat split; auto. constructor; auto.
Qed.

Lemma rep_loop_complete b r (k : cont R) :
  complete_for R r ->
  forall fuel pos w rest g g' x,
    length w <= fuel ->
    glang (GStar b r) pos w rest g g' ->
    k (pos + length w) rest g' = Some x ->
    exists y, rep_loop b (gmatch r) k fuel pos (w ++ rest) g = Some y.
Proof.
  intros Hr. induction fuel as [|fuel IH]; intros pos w rest g g' x Hlen L K.
  - destruct w; [|simpl in Hlen; lia].
    inversion L as [| | | | |? ? ? ? ?|? ? ? w1 w2 ? ? ? ? Hne L1 L2 Hw| | |];
      subst.
    + simpl in *. rewrite Nat.add_0_r in K. eauto.
    + destruct w1; [congruence|discriminate].
  - simpl.
    inversion L as [| | | | |? ? ? ? ?|? ? ? w1 w2 ? ? g1 ? Hne L1 L2 Hw| | |];
      subst.
    + simpl in *. rewrite Nat.add_0_r in K.
      destruct b.
      * destruct (gmatch r pos rest g' _); eauto.
      * rewrite K. eauto.
    + rewrite length_app in Hlen, K. rewrite Nat.add_assoc in K.
      assert (Hw1 : 0 < length w1) by (destruct w1; simpl; [congruence|lia]).
      destruct (IH (pos + length w1) w2 rest g1 g' x) as (y & Hy); auto; [lia|].
      rewrite <- app_assoc.
      destruct (Hr pos w1 (w2 ++ rest) g g1 L1
                  (fun pos' s' g'' =>
                     if pos' =? pos then None
                     else rep_loop b (gmatch r) k fuel pos' s' g'') y)
        as (z & Hz).
      * destruct (Nat.eqb_spec (pos + length w1) pos); [lia|]. exact Hy.
      * destruct b.
        -- rewrite Hz. eauto.
        -- destruct (k pos (w1 ++ w2 ++ rest) g); eauto.
Qed.

Lemma gmatch_complete r : complete_for R r.
Proof.
  induction r as [|p|r1 IH1 r2 IH2|r1 IH1 r2 IH2|b r IH|n r IH| |];
    intros pos w rest g g' L k x K.
  - inversion L; subst. simpl in *. rewrite Nat.add_0_r in K. eauto.
  - inversion L as [|? ? ? ? ? Pc| | | | | | | |]; subst. simpl in *.
    rewrite Pc. rewrite Nat.add_1_r in K. eauto.
  - inversion L as [| |? ? ? w1 w2 ? ? g1 ? L1 L2| | | | | | |]; subst. simpl.
    rewrite length_app, Nat.add_assoc in K.
    destruct (IH2 _ _ _ _ _ L2 k x K) as (y & Hy).
    rewrite <- app_assoc.
    apply (IH1 _ _ _ _ _ L1 (fun pos' s' g'' => gmatch r2 pos' s' g'' k) y Hy).
  - simpl. inversion L as [| | |? ? ? ? ? ? ? L1|? ? ? ? ? ? ? L2| | | | |];
      subst.
    + destruct (IH1 _ _ _ _ _ L1 k x K) as (y & ->). eauto.
    + destruct (gmatch r1 pos (w ++ rest) g k); eauto.
  - simpl. eapply rep_loop_complete; eauto.
    rewrite length_app. lia.
  - inversion L as [| | | | | | |? ? ? ? ? ? g1 L1| |]; subst. simpl.
    apply (IH _ _ _ _ _ L1
             (fun pos' s' g'' =>
                k pos' s' (set_group n (firstn (pos' - pos) (w ++ rest)) g''))
             x).
    replace (pos + length w - pos) with (length w) by lia.
    rewrite firstn_app, Nat.sub_diag, firstn_all. simpl.
    rewrite app_nil_r. exact K.
  - inversion L; subst. simpl in *. eauto.
  - inversion L as [| | | | | | | | |? ? ? He]; subst. simpl in *.
    rewrite Nat.add_0_r in K.
    destruct He as [->| ->]; simpl; eauto.
Qed.

End Sound.

End GroupFacts.

Module LoopFacts.

Import Py Re ReFacts Groups GroupFacts Shapes.

(** A result of the matcher needs a word of the pattern whose continuation
    succeeds. *)
Lemma gmatch_none R r pos s g (k : cont R) :
  (forall w rest g',
      s = w ++ rest -> glang r pos w rest g g' ->
      k (pos + length w) rest g' = None) ->
  gmatch r pos s g k = None.
Proof.
  intros H. destruct (gmatch r pos s g k) as [x|] eqn:E; [|reflexivity].
  apply gmatch_sound in E. destruct E as (w & rest & g' & Hs & L & K).
  rewrite (H w rest g' Hs L) in K. discriminate.
Qed.

Lemma firstn_span (w rest : str) pos :
  firstn (pos + length w - pos) (w ++ rest) = w.
Proof.
  replace (pos + length w - pos) with (length w) by lia.
  rewrite firstn_app, Nat.sub_diag, firstn_all. simpl. apply app_nil_r.
Qed.

Lemma rep_loop_0 R b m (k : cont R) pos s g :
  rep_loop b m k 0 pos s g = k pos s g.
Proof.
  reflexivity.
Qed.

Lemma greedy_cons R (p : ascii -> bool) (k : cont R) fuel pos c s g :
  p c = true ->
  rep_loop true (gmatch (GCls p)) k (S fuel) pos (c :: s) g =
  match rep_loop true (gmatch (GCls p)) k fuel (S pos) s g with
  | Some x => Some x
  | None => k pos (c :: s) g
  end.
Proof.
  intros Pc.
  change (rep_loop true (gmatch (GCls p)) k (S fuel) pos (c :: s) g)
    with (match (if p c
                 then if S pos =? pos then None
                      else rep_loop true (gmatch (GCls p)) k fuel (S pos) s g
                 else None) with
          | Some x => Some x
          | None => k pos (c :: s) g
          end).
  rewrite Pc. destruct (Nat.eqb_spec (S pos) pos) as [E|_]; [lia|].
  reflexivity.
Qed.

Lemma greedy_stop R (p : ascii -> bool) (k : cont R) fuel pos s g :
  head_is p s = false ->
  rep_loop true (gmatch (GCls p)) k fuel pos s g = k pos s g.
Proof.
  intros Hs. destruct fuel as [|fuel]; [reflexivity|].
  destruct s as [|c s]; [reflexivity|].
  simpl in Hs.
  change (rep_loop true (gmatch (GCls p)) k (S fuel) pos (c :: s) g)
    with (match (if p c
                 then if S pos =? pos then None
                      else rep_loop true (gmatch (GCls p)) k fuel (S pos) s g
                 else None) with
          | Some x => Some x
          | None => k pos (c :: s) g
          end).
  rewrite Hs. reflexivity.
Qed.

Lemma lazy_cons R (p : ascii -> bool) (k : cont R) fuel pos c s g :
  p c = true -> k pos (c :: s) g = None ->
  rep_loop false (gmatch (GCls p)) k (S fuel) pos (c :: s) g =
  rep_loop false (gmatch (GCls p)) k fuel (S pos) s g.
Proof.
  intros Pc K.
  change (rep_loop false (gmatch (GCls p)) k (S fuel) pos (c :: s) g)
    with (match k pos (c :: s) g with
          | Some x => Some x
          | None =>
              if p c
              then if S pos =? pos then None
                   else rep_loop false (gmatch (GCls p)) k fuel (S pos) s g
              else None
          end).
  rewrite K, Pc. destruct (Nat.eqb_spec (S pos) pos) as [E|_]; [lia|].
  reflexivity.
Qed.

Lemma lazy_stop R m (k : cont R) fuel pos s g x :
  k pos s g = Some x -> rep_loop false m k fuel pos s g = Some x.
Proof.
  intros K. destruct fuel as [|fuel]; simpl; [exact K|].
  rewrite K. reflexivity.
Qed.

Lemma plus_cons R b (p : ascii -> bool) (k : cont R) pos c s g :
  p c = true ->
  gmatch (GPlus b (GCls p)) pos (c :: s) g k =
  rep_loop b (gmatch (GCls p)) k (length s) (S pos) s g.
Proof.
  intros Pc.
  change (gmatch (GPlus b (GCls p)) pos (c :: s) g k)
    with (if p c then rep_loop b (gmatch (GCls p)) k (length s) (S pos) s g
          else None).
  rewrite Pc. reflexivity.
Qed.

(** The greedy loop over a class runs to the end of the characters of the
    class and takes the continuation there when it succeeds. *)
Lemma greedy_take R (p : ascii -> bool) (k : cont R) g x : forall w rest fuel pos,
  forallb p w = true -> head_is p rest = false -> length w <= fuel ->
  k (pos + length w) rest g = Some x ->
  rep_loop true (gmatch (GCls p)) k fuel pos (w ++ rest) g = Some x.
Proof.
  induction w as [|c w IH]; intros rest fuel pos Hw Hr Hf K.
  - cbn [app length] in *. rewrite Nat.add_0_r in K.
    rewrite greedy_stop; auto.
  - simpl in Hw. apply andb_true_iff in Hw. destruct Hw as [Pc Pw].
    destruct fuel as [|fuel]; [simpl in Hf; lia|].
    simpl app. rewrite greedy_cons; auto.
    rewrite (IH rest fuel (S pos)); auto.
    + simpl in Hf. lia.
    + simpl in K. rewrite <- K. f_equal. lia.
Qed.

(** The lazy loop over a class stops at the first offset at which the
    continuation succeeds. *)
Lemma lazy_take R (p : ascii -> bool) (k : cont R) g x : forall w rest fuel pos,
  forallb p w = true -> length w <= fuel ->
  (forall n, n < length w -> k (pos + n) (skipn n (w ++ rest)) g = None) ->
  k (pos + length w) rest g = Some x ->
  rep_loop false (gmatch (GCls p)) k fuel pos (w ++ rest) g = Some x.
Proof.
  induction w as [|c w IH]; intros rest fuel pos Hw Hf Hn K.
  - cbn [app length] in *. rewrite Nat.add_0_r in K. apply lazy_stop; auto.
  - simpl in Hw. apply andb_true_iff in Hw. destruct Hw as [Pc Pw].
    destruct fuel as [|fuel]; [simpl in Hf; lia|].
    pose proof (Hn 0 ltac:(simpl; lia)) as H0. simpl in H0.
    rewrite Nat.add_0_r in H0.
    simpl app. rewrite lazy_cons; auto.
    apply IH; auto.
    + simpl in Hf. lia.
    + intros n Hlt. specialize (Hn (S n) ltac:(simpl; lia)).
      simpl in Hn. rewrite <- Hn. f_equal. lia.
    + simpl in K. rewrite <- K. f_equal. lia.
Qed.

Lemma plus_greedy_take R (p : ascii -> bool) (k : cont R) g x w rest pos :
  w <> [] -> forallb p w = true -> head_is p rest = false ->
  k (pos + length w) rest g = Some x ->
  gmatch (GPlus true (GCls p)) pos (w ++ rest) g k = Some x.
Proof.
  destruct w as [|c w]; [congruence|]. intros _ Hw Hr K.
  simpl in Hw. apply andb_true_iff in Hw. destruct Hw as [Pc Pw].
  simpl app. rewrite plus_cons; auto. apply greedy_take; auto.
  - rewrite length_app. lia.
  - simpl in K. rewrite <- K. f_equal. lia.
Qed.

Lemma plus_lazy_take R (p : ascii -> bool) (k : cont R) g x w rest pos :
  w <> [] -> forallb p w = true ->
  (forall n, 0 < n < length w -> k (pos + n) (skipn n (w ++ rest)) g = None) ->
  k (pos + length w) rest g = Some x ->
  gmatch (GPlus false (GCls p)) pos (w ++ rest) g k = Some x.
Proof.
  destruct w as [|c w]; [congruence|]. intros _ Hw Hn K.
  simpl in Hw. apply andb_true_iff in Hw. destruct Hw as [Pc Pw].
  simpl app. rewrite plus_cons; auto. apply lazy_take; auto.
  - rewrite length_app. lia.
  - intros n Hlt. specialize (Hn (S n) ltac:(simpl; lia)).
    simpl in Hn. rewrite <- Hn. f_equal. lia.
  - simpl in K. rewrite <- K. f_equal. lia.
Qed.

(** *** Words of loops over a class *)

Lemma glang_star_cls_inv b (p : ascii -> bool) pos w rest g g' :
  glang (GStar b (GCls p)) pos w rest g g' -> forallb p w = true /\ g' = g.
Proof.
  remember (GStar b (GCls p)) as r eqn:Er. intros L. revert Er.
  induction L as [| | | | | |? r ? w1 w2 ? ? ? ? Hne L1 IH1 L2 IH2 | | |];
    intros Er; try discriminate; [split; reflexivity|].
  inversion Er; subst.
  inversion L1 as [|? ? ? ? ? Pc| | | | | | | |]; subst.
  destruct (IH2 eq_refl) as [Hw ->].
  simpl. rewrite Pc. auto.
Qed.

Lemma glang_plus_cls_inv b (p : ascii -> bool) pos w rest g g' :
  glang (GPlus b (GCls p)) pos w rest g g' ->
  w <> [] /\ forallb p w = true /\ g' = g.
Proof.
  unfold GPlus. intros L.
  inversion L as [| |? ? ? w1 w2 ? ? g1 ? L1 L2| | | | | | |]; subst.
  inversion L1 as [|? ? ? ? ? Pc| | | | | | | |]; subst.
  apply glang_star_cls_inv in L2. destruct L2 as [Hw ->].
  simpl. rewrite Pc. repeat split; auto. discriminate.
Qed.

Lemma glang_star_cls b (p : ascii -> bool) rest g : forall w pos,
  forallb p w = true -> glang (GStar b (GCls p)) pos w rest g g.
Proof.
  induction w as [|c w IH]; intros pos H; simpl in H.
  - constructor.
  - apply andb_true_iff in H. destruct H as [Pc Pw].
    apply (@GL_StarS b (GCls p) pos [c] w rest g g g).
    + discriminate.
    + constructor. exact Pc.
    + apply IH. exact Pw.
Qed.

Lemma glang_plus_cls b (p : ascii -> bool) rest g w pos :
  w <> [] -> forallb p w = true -> glang (GPlus b (GCls p)) pos w rest g g.
Proof.
  destruct w as [|c w]; [congruence|]. intros _ H. simpl in H.
  apply andb_true_iff in H. destruct H as [Pc Pw].
  apply (@GL_Cat (GCls p) (GStar b (GCls p)) pos [c] w rest g g g).
  - constructor. exact Pc.
  - apply glang_star_cls. exact Pw.
Qed.

End LoopFacts.

Module FallbackFacts.

Import Py Re ReFacts Groups GroupFacts Tables Fallback Shapes LoopFacts.
Import StringFacts.

(** *** Classes of characters *)

Lemma class_incl (p q : ascii -> bool) :
  forallb (fun c => implb (p c) (q c)) all_ascii = true ->
  forall c, p c = true -> q c = true.
Proof.
  rewrite forallb_forall. intros H c Pc.
  specialize (H c (in_all_ascii c)). rewrite Pc in H. exact H.
Qed.

Lemma digit_not_space c : is_digit c = true -> is_space c = false.
Proof.
  intros H. apply negb_true_iff.
  revert c H. apply class_incl. vm_compute. reflexivity.
Qed.

Lemma alpha_not_space c : is_alpha c = true -> is_space c = false.
Proof.
  intros H. apply negb_true_iff.
  revert c H. apply class_incl. vm_compute. reflexivity.
Qed.

Lemma filler_not_digit c : letter_or_space c = true -> is_digit c = false.
Proof.
  intros H. apply negb_true_iff.
  revert c H. apply class_incl. vm_compute. reflexivity.
Qed.

Lemma dot_not_digit c : colon_or_dot c = true -> is_digit c = false.
Proof.
  intros H. apply negb_true_iff.
  revert c H. apply class_incl. vm_compute. reflexivity.
Qed.

Lemma dot_not_space c : colon_or_dot c = true -> is_space c = false.
Proof.
  intros H. apply negb_true_iff.
  revert c H. apply class_incl. vm_compute. reflexivity.
Qed.

Lemma forallb_incl (p q : ascii -> bool) (w : str) :
  (forall c, p c = true -> q c = true) ->
  forallb p w = true -> forallb q w = true.
Proof.
  intros H. rewrite !forallb_forall. auto.
Qed.

(** *** The vocabulary of shapes *)

Lemma blanks_spec w :
  blanks w = true <-> w <> [] /\ forallb is_space w = true.
Proof.
  destruct w; simpl; [split; [discriminate|intros []; congruence]|].
  split; [intros H; split; [discriminate|exact H]|tauto].
Qed.

Lemma filling_spec w :
  filling w = true <-> w <> [] /\ forallb letter_or_space w = true.
Proof.
  destruct w; simpl; [split; [discriminate|intros []; congruence]|].
  split; [intros H; split; [discriminate|exact H]|tauto].
Qed.

Lemma letters_spec w :
  letters w = true <-> w <> [] /\ forallb is_alpha w = true.
Proof.
  destruct w; simpl; [split; [discriminate|intros []; congruence]|].
  split; [intros H; split; [discriminate|exact H]|tauto].
Qed.

Lemma digits_spec w :
  digits w = true <-> w <> [] /\ forallb is_digit w = true.
Proof.
  destruct w; simpl; [split; [discriminate|intros []; congruence]|].
  split; [intros H; split; [discriminate|exact H]|tauto].
Qed.

Lemma head_is_app (p : ascii -> bool) (w rest : str) :
  w <> [] -> head_is p (w ++ rest) = head_is p w.
Proof.
  destruct w; [congruence|reflexivity].
Qed.

Lemma head_is_in (p : ascii -> bool) (w : str) :
  w <> [] -> forallb p w = true -> head_is p w = true.
Proof.
  destruct w as [|c w]; [congruence|]. simpl. intros _ H.
  apply andb_true_iff in H. tauto.
Qed.

Lemma head_is_not (p q : ascii -> bool) (w : str) :
  (forall c, q c = true -> p c = false) ->
  head_is q w = true -> head_is p w = false.
Proof.
  destruct w as [|c w]; simpl; [discriminate|auto].
Qed.

Lemma phrase_spec w :
  phrase w = true ->
  w <> [] /\ forallb letter_or_space w = true /\
  head_is is_alpha w = true /\ last_is is_alpha w = true.
Proof.
  unfold phrase. intros H.
  apply andb_true_iff in H. destruct H as [H Hl].
  apply andb_true_iff in H. destruct H as [Hf Hh].
  repeat split; auto. intros ->. discriminate.
Qed.

(** *** Marks *)

Lemma drop_digits_app d s :
  forallb is_digit d = true -> drop_digits (d ++ s) = drop_digits s.
Proof.
  induction d as [|c d IH]; simpl; auto. intros H.
  apply andb_true_iff in H. destruct H as [Hc Hd]. rewrite Hc. auto.
Qed.

Lemma drop_digits_stop s : head_is is_digit s = false -> drop_digits s = s.
Proof.
  destruct s as [|c s]; simpl; auto. intros ->. reflexivity.
Qed.

Lemma drop_digits_split s :
  exists d, s = d ++ drop_digits s /\ forallb is_digit d = true /\
            head_is is_digit (drop_digits s) = false.
Proof.
  induction s as [|c s IH]; simpl.
  - exists []. auto.
  - destruct (is_digit c) eqn:E.
    + destruct IH as (d & Hs & Hd & Hh). exists (c :: d). simpl.
      rewrite E. repeat split; auto. congruence.
    + exists []. simpl. auto.
Qed.

Lemma is_mark_split t :
  is_mark t = true ->
  exists d1 tail,
    t = d1 ++ tail /\ d1 <> [] /\ forallb is_digit d1 = true /\
    (tail = [] \/
     exists c d2, tail = c :: d2 /\ colon_or_dot c = true /\
                  forallb is_digit d2 = true).
Proof.
  unfold is_mark. intros H. apply andb_true_iff in H. destruct H as [Hh Ht].
  destruct (drop_digits_split t) as (d & Hs & Hd & Hn).
  exists d, (drop_digits t). repeat split; auto.
  - intros ->. simpl in Hs. rewrite <- Hs in Hn. congruence.
  - destruct (drop_digits t) as [|c d2]; [left; reflexivity|].
    apply andb_true_iff in Ht. right. exists c, d2. tauto.
Qed.

Lemma is_mark_join d1 o d2 :
  d1 <> [] -> forallb is_digit d1 = true ->
  (o = [] \/ exists c, o = [c] /\ colon_or_dot c = true) ->
  forallb is_digit d2 = true ->
  is_mark (d1 ++ o ++ d2) = true.
Proof.
  intros Hne Hd1 Ho Hd2. unfold is_mark.
  rewrite head_is_app by assumption.
  rewrite (head_is_in _ Hne Hd1). simpl.
  rewrite drop_digits_app by assumption.
  destruct Ho as [->|(c & -> & Hc)]; simpl.
  - rewrite <- (app_nil_r d2), drop_digits_app by assumption. reflexivity.
  - rewrite (dot_not_digit _ Hc), Hc. exact Hd2.
Qed.

Lemma is_mark_chars t :
  is_mark t = true ->
  t <> [] /\ head_is is_digit t = true /\
  forallb (fun c => negb (is_space c)) t = true.
Proof.
  intros H. pose proof H as H'. unfold is_mark in H'.
  apply andb_true_iff in H'. destruct H' as [Hh _].
  split; [intros ->; discriminate|]. split; [exact Hh|].
  destruct (is_mark_split _ H) as (d1 & tail & -> & _ & Hd & Ht).
  rewrite forallb_app. apply andb_true_iff. split.
  - revert Hd. apply forallb_incl. intros c Hc.
    rewrite (digit_not_space _ Hc). reflexivity.
  - destruct Ht as [->|(c & d2 & -> & Hc & Hd2)]; [reflexivity|].
    simpl. rewrite (dot_not_space _ Hc). simpl.
    revert Hd2. apply forallb_incl. intros c' Hc'.
    rewrite (digit_not_space _ Hc'). reflexivity.
Qed.

(** *** Words of the fallback pattern *)

Lemma glang_cat_inv r1 r2 pos w rest g g' :
  glang (GCat r1 r2) pos w rest g g' ->
  exists w1 w2 g1,
    w = w1 ++ w2 /\ glang r1 pos w1 (w2 ++ rest) g g1 /\
    glang r2 (pos + length w1) w2 rest g1 g'.
Proof.
  intros L.
  inversion L as [| |? ? ? w1 w2 ? ? g1 ? L1 L2| | | | | | |]; subst.
  exists w1, w2, g1. auto.
Qed.

Lemma glang_group_inv n r pos w rest g g' :
  glang (GGroup n r) pos w rest g g' ->
  exists g1, glang r pos w rest g g1 /\ g' = set_group n w g1.
Proof.
  intros L. inversion L as [| | | | | | |? ? ? ? ? ? g1 L1| |]; subst.
  exists g1. auto.
Qed.

Lemma glang_bol_inv pos w rest g g' :
  glang GBol pos w rest g g' -> pos = 0 /\ w = [] /\ g' = g.
Proof.
  intros L. inversion L; subst. auto.
Qed.

Lemma glang_eol_inv pos w rest g g' :
  glang GEol pos w rest g g' ->
  w = [] /\ g' = g /\ (rest = [] \/ rest = [newline]).
Proof.
  intros L. inversion L; subst. auto.
Qed.

Lemma glang_opt_cls_inv (p : ascii -> bool) pos w rest g g' :
  glang (GOpt (GCls p)) pos w rest g g' ->
  (w = [] \/ exists c, w = [c] /\ p c = true) /\ g' = g.
Proof.
  unfold GOpt. intros L.
  inversion L as [| | |? ? ? ? ? ? ? L1|? ? ? ? ? ? ? L2| | | | |]; subst.
  - inversion L1 as [|? ? ? ? ? Pc| | | | | | | |]; subst.
    split; [right; eauto|reflexivity].
  - inversion L2; subst. auto.
Qed.

Lemma glang_mark_inv pos w rest g g' :
  glang mark pos w rest g g' -> is_mark w = true /\ g' = g.
Proof.
  unfold mark. cbn [GSeq]. intros L.
  apply glang_cat_inv in L. destruct L as (d1 & w' & g1 & -> & L1 & L).
  apply glang_cat_inv in L. destruct L as (o & d2 & g2 & -> & L2 & L3).
  apply glang_plus_cls_inv in L1. destruct L1 as (Hne & Hd1 & ->).
  apply glang_opt_cls_inv in L2. destruct L2 as (Ho & ->).
  apply glang_star_cls_inv in L3. destruct L3 as (Hd2 & ->).
  split; [|reflexivity]. apply is_mark_join; auto.
Qed.

Lemma glang_mark t pos rest g :
  is_mark t = true -> glang mark pos t rest g g.
Proof.
  intros H. destruct (is_mark_split _ H) as (d1 & tail & -> & Hne & Hd & Ht).
  unfold mark. cbn [GSeq].
  apply GL_Cat with (g1 := g); [apply glang_plus_cls; auto|].
  destruct Ht as [->|(c & d2 & -> & Hc & Hd2)].
  - apply (@GL_Cat (GOpt (GCls colon_or_dot)) (GStar true (GCls is_digit))
             (pos + length d1) [] [] rest g g g).
    + apply GL_AltR. constructor.
    + constructor.
  - apply (@GL_Cat (GOpt (GCls colon_or_dot)) (GStar true (GCls is_digit))
             (pos + length d1) [c] d2 rest g g g).
    + apply GL_AltL. constructor. exact Hc.
    + apply glang_star_cls. exact Hd2.
Qed.

(** The words of the pattern are the lines of the shape, and the groups
    are the four parts. *)
Lemma glang_pattern_inv pos w rest g g' :
  glang pattern pos w rest g g' ->
  exists pl x y t,
    fallback_shape w pl x y t /\
    g' = set_group 4 t (set_group 3 y (set_group 2 x (set_group 1 pl g))) /\
    (rest = [] \/ rest = [newline]).
Proof.
  unfold pattern, gap, filler. cbn [GSeq]. intros L.
  apply glang_cat_inv in L. destruct L as (w0 & u1 & g0 & -> & L0 & L).
  apply glang_cat_inv in L. destruct L as (pl & u2 & g1 & -> & L1 & L).
  apply glang_cat_inv in L. destruct L as (ws1 & u3 & g2 & -> & L2 & L).
  apply glang_cat_inv in L. destruct L as (x & u4 & g3 & -> & L3 & L).
  apply glang_cat_inv in L. destruct L as (ws2 & u5 & g4 & -> & L4 & L).
  apply glang_cat_inv in L. destruct L as (y & u6 & g5 & -> & L5 & L).
  apply glang_cat_inv in L. destruct L as (ws3 & u7 & g6 & -> & L6 & L).
  apply glang_cat_inv in L. destruct L as (t & w9 & g7 & -> & L7 & L8).
  apply glang_bol_inv in L0. destruct L0 as (_ & -> & ->).
  apply glang_group_inv in L1. destruct L1 as (h1 & L1 & ->).
  apply glang_plus_cls_inv in L1. destruct L1 as (Hpl & Dpl & ->).
  apply glang_plus_cls_inv in L2. destruct L2 as (Hws1 & Dws1 & ->).
  apply glang_group_inv in L3. destruct L3 as (h2 & L3 & ->).
  apply glang_plus_cls_inv in L3. destruct L3 as (Hx & Dx & ->).
  apply glang_plus_cls_inv in L4. destruct L4 as (Hws2 & Dws2 & ->).
  apply glang_group_inv in L5. destruct L5 as (h3 & L5 & ->).
  apply glang_plus_cls_inv in L5. destruct L5 as (Hy & Dy & ->).
  apply glang_plus_cls_inv in L6. destruct L6 as (Hws3 & Dws3 & ->).
  apply glang_group_inv in L7. destruct L7 as (h4 & L7 & ->).
  apply glang_mark_inv in L7. destruct L7 as (Ht & ->).
  apply glang_eol_inv in L8. destruct L8 as (-> & -> & Hrest).
  exists pl, x, y, t. split; [|split; [reflexivity|exact Hrest]].
  exists ws1, ws2, ws3. rewrite app_nil_r. simpl.
  rewrite digits_spec, !blanks_spec, !filling_spec. tauto.
Qed.

Lemma glang_pattern line pl x y t g :
  fallback_shape line pl x y t ->
  glang pattern 0 line [] g
    (set_group 4 t (set_group 3 y (set_group 2 x (set_group 1 pl g)))).
Proof.
  intros (ws1 & ws2 & ws3 & -> & Hpl & Hws1 & Hx & Hws2 & Hy & Hws3 & Ht).
  apply digits_spec in Hpl. apply blanks_spec in Hws1, Hws2, Hws3.
  apply filling_spec in Hx, Hy.
  unfold pattern, gap, filler. cbn [GSeq].
  apply (@GL_Cat GBol _ 0 [] _ [] g g); [constructor|].
  eapply GL_Cat; [constructor; apply glang_plus_cls; tauto|].
  eapply GL_Cat; [apply glang_plus_cls; tauto|].
  eapply GL_Cat; [constructor; apply glang_plus_cls; tauto|].
  eapply GL_Cat; [apply glang_plus_cls; tauto|].
  eapply GL_Cat; [constructor; apply glang_plus_cls; tauto|].
  eapply GL_Cat; [apply glang_plus_cls; tauto|].
  rewrite <- (app_nil_r t) at 1.
  eapply GL_Cat; [constructor; apply glang_mark; exact Ht|].
  constructor. auto.
Qed.

(** The groups of a match of the pattern. *)
Lemma re_match_groups s m :
  re_match pattern s = Some m ->
  exists pl x y t,
    m = [(4, t); (3, y); (2, x); (1, pl)] /\
    (fallback_shape s pl x y t \/
     exists w, s = w ++ [newline] /\ fallback_shape w pl x y t).
Proof.
  unfold re_match. intros M. apply gmatch_sound in M.
  destruct M as (w & rest & g' & -> & L & K). inversion K; subst m.
  apply glang_pattern_inv in L.
  destruct L as (pl & x & y & t & Hshape & -> & Hrest).
  exists pl, x, y, t. split; [reflexivity|].
  destruct Hrest as [->| ->].
  - left. rewrite app_nil_r. exact Hshape.
  - right. exists w. auto.
Qed.

Lemma stripped_no_newline line w : strip line <> w ++ [newline].
Proof.
  intros E. pose proof (strip_last line) as H. rewrite E in H.
  unfold last_clean in H. rewrite rev_app_distr in H. simpl in H.
  vm_compute in H. discriminate.
Qed.

Lemma shape_nonempty line pl x y t : fallback_shape line pl x y t -> line <> [].
Proof.
  intros (ws1 & ws2 & ws3 & -> & Hpl & _). apply digits_spec in Hpl.
  destruct pl; [tauto|discriminate].
Qed.

(** A line gives no record or the record of the groups of its match. *)
Lemma record_of_line_cases file line :
  (record_of_line file line = [] /\
   forall pl x y t, ~ fallback_shape (strip line) pl x y t) \/
  exists pl x y t,
    fallback_shape (strip line) pl x y t /\
    record_of_line file line = [mkRow pl (strip x) (strip y) t file []].
Proof.
  unfold record_of_line.
  destruct (re_match pattern (strip line)) as [m|] eqn:M.
  - right. destruct (re_match_groups _ M) as (pl & x & y & t & -> & H).
    destruct H as [H|(w & E & _)]; [|destruct (@stripped_no_newline line w E)].
    exists pl, x, y, t. split; [exact H|].
    pose proof (shape_nonempty H) as Hne.
    destruct (strip line) as [|c l]; [congruence|]. rewrite M. reflexivity.
  - left. split.
    + destruct (strip line) as [|c l]; [reflexivity|]. rewrite M. reflexivity.
    + intros pl x y t H.
      pose proof (@glang_pattern (strip line) pl x y t [] H) as L.
      destruct (@gmatch_complete groups pattern 0 (strip line) [] [] _ L
                  (fun _ _ g => Some g) _ eq_refl) as (m & Hm).
      rewrite app_nil_r in Hm. unfold re_match in M. congruence.
Qed.

(** *** The order of the search *)

Lemma gmatch_cat R r1 r2 pos s g (k : cont R) :
  gmatch (GCat r1 r2) pos s g k =
  gmatch r1 pos s g (fun pos' s' g' => gmatch r2 pos' s' g' k).
Proof.
  reflexivity.
Qed.

Lemma gmatch_group R n r pos s g (k : cont R) :
  gmatch (GGroup n r) pos s g k =
  gmatch r pos s g
    (fun pos' s' g' => k pos' s' (set_group n (firstn (pos' - pos) s) g')).
Proof.
  reflexivity.
Qed.

Lemma opt_hit R (p : ascii -> bool) (k : cont R) pos c s g x :
  p c = true -> k (S pos) s g = Some x ->
  gmatch (GOpt (GCls p)) pos (c :: s) g k = Some x.
Proof.
  intros Pc K.
  change (gmatch (GOpt (GCls p)) pos (c :: s) g k)
    with (match (if p c then k (S pos) s g else None) with
          | Some y => Some y
          | None => k pos (c :: s) g
          end).
  rewrite Pc, K. reflexivity.
Qed.

Lemma star_greedy_all R (p : ascii -> bool) (k : cont R) pos w g x :
  forallb p w = true -> k (pos + length w) [] g = Some x ->
  gmatch (GStar true (GCls p)) pos w g k = Some x.
Proof.
  intros Hw K.
  change (gmatch (GStar true (GCls p)) pos w g k)
    with (rep_loop true (gmatch (GCls p)) k (length w) pos w g).
  rewrite <- (app_nil_r w) at 2. apply greedy_take; auto.
Qed.

Lemma last_is_both (p q : ascii -> bool) (u : str) :
  last_is p u = true -> forallb q u = true ->
  exists c, p c = true /\ q c = true.
Proof.
  unfold last_is. intros Hl Hq.
  destruct (rev u) as [|c v] eqn:E; [discriminate|]. simpl in Hl.
  exists c. split; [exact Hl|].
  rewrite forallb_forall in Hq. apply Hq. apply in_rev. rewrite E. left.
  reflexivity.
Qed.

Lemma last_is_skipn (p : ascii -> bool) (u : str) n :
  n < length u -> last_is p (skipn n u) = last_is p u.
Proof.
  intros Hn. unfold last_is.
  rewrite <- (firstn_skipn n u) at 2. rewrite rev_app_distr.
  destruct (rev (skipn n u)) as [|c v] eqn:E; [|reflexivity].
  apply (f_equal (@length ascii)) in E.
  rewrite length_rev, length_skipn in E. simpl in E. lia.
Qed.

Lemma forallb_skipn (p : ascii -> bool) (u : str) n :
  forallb p u = true -> forallb p (skipn n u) = true.
Proof.
  rewrite !forallb_forall. intros H c Hc. apply H.
  rewrite <- (firstn_skipn n u). apply in_or_app. auto.
Qed.

Lemma skipn_inside (u rest : str) n :
  n < length u ->
  skipn n (u ++ rest) = skipn n u ++ rest /\ skipn n u <> [].
Proof.
  intros Hn. split.
  - rewrite skipn_app. replace (n - length u) with 0 by lia. reflexivity.
  - intros E. apply (f_equal (@length ascii)) in E.
    rewrite length_skipn in E. simpl in E. lia.
Qed.

(** White space does not begin where a letter or a digit stands. *)
Lemma gap_fails R r pos s g (k : cont R) :
  head_is is_space s = false -> gmatch (GCat gap r) pos s g k = None.
Proof.
  intros H. apply gmatch_none. intros w rest g' Hs L.
  apply glang_cat_inv in L. destruct L as (a & w2 & g1 & -> & L1 & _).
  apply glang_plus_cls_inv in L1. destruct L1 as (Hne & Ha & _).
  rewrite Hs, <- app_assoc, head_is_app in H by assumption.
  rewrite (head_is_in _ Hne Ha) in H. discriminate.
Qed.

(** Inside letters and white space that end with a letter, white space is
    not followed by a mark. *)
Lemma mark_tail_fails R (k : cont R) pos u rest g :
  u <> [] -> forallb letter_or_space u = true ->
  last_is is_alpha u = true ->
  gmatch (GCat gap (GCat (GGroup 4 mark) GEol)) pos (u ++ rest) g k = None.
Proof.
  intros Hne Hu Hl. apply gmatch_none. intros w rest' g' Hs L.
  exfalso.
  apply glang_cat_inv in L. destruct L as (a & w2 & g1 & -> & L1 & L).
  apply glang_cat_inv in L. destruct L as (t & w3 & g2 & -> & L2 & _).
  apply glang_plus_cls_inv in L1. destruct L1 as (_ & Ha & _).
  apply glang_group_inv in L2. destruct L2 as (g3 & L2 & _).
  apply glang_mark_inv in L2. destruct L2 as (Ht & _).
  destruct (is_mark_chars _ Ht) as (_ & Hd & _).
  destruct t as [|d t]; [discriminate|]. simpl in Hd.
  rewrite <- !app_assoc in Hs. apply app_eq_app in Hs.
  destruct Hs as (l & [[E1 E2]|[E1 E2]]).
  - destruct l as [|d' l].
    + rewrite app_nil_r in E1. subst u.
      destruct (last_is_both _ _ _ Hl Ha) as (c & Hc1 & Hc2).
      rewrite (alpha_not_space _ Hc1) in Hc2. discriminate.
    + simpl in E2. inversion E2; subst d'. subst u.
      rewrite forallb_app in Hu. apply andb_true_iff in Hu.
      destruct Hu as [_ Hu]. simpl in Hu. apply andb_true_iff in Hu.
      destruct Hu as [Hu _]. rewrite (filler_not_digit _ Hu) in Hd.
      discriminate.
  - subst a. rewrite forallb_app in Ha. apply andb_true_iff in Ha.
    destruct Ha as [Ha _].
    destruct (last_is_both _ _ _ Hl Ha) as (c & Hc1 & Hc2).
    rewrite (alpha_not_space _ Hc1) in Hc2. discriminate.
Qed.

Lemma mark_take R (k : cont R) pos t g x :
  is_mark t = true ->
  k (pos + length t) [] (set_group 4 t g) = Some x ->
  gmatch (GCat (GGroup 4 mark) GEol) pos t g k = Some x.
Proof.
  intros Ht K.
  destruct (is_mark_split _ Ht) as (d1 & tail & E & Hne & Hd & Htail).
  rewrite gmatch_cat, gmatch_group. unfold mark. cbn [GSeq].
  rewrite gmatch_cat. rewrite E at 1. apply plus_greedy_take; auto.
  - destruct Htail as [->|(c & d2 & -> & Hc & _)]; [reflexivity|].
    simpl. apply dot_not_digit. exact Hc.
  - rewrite gmatch_cat.
    assert (Hall : forall n, firstn (pos + length t + n - pos) t = t).
    { intros n. apply firstn_all2. lia. }
    destruct Htail as [->|(c & d2 & -> & Hc & Hd2)].
    + rewrite app_nil_r in E. subst d1.
      change (k (pos + length t) []
                (set_group 4 (firstn (pos + length t - pos) t) g) = Some x).
      specialize (Hall 0). rewrite Nat.add_0_r in Hall. rewrite Hall.
      exact K.
    + apply opt_hit; auto. apply star_greedy_all; auto.
      change (k (S (pos + length d1) + length d2) []
                (set_group 4
                   (firstn (S (pos + length d1) + length d2 - pos) t) g) =
              Some x).
      assert (El : length t = S (length d1 + length d2)).
      { rewrite E, length_app. simpl. lia. }
      replace (S (pos + length d1) + length d2) with (pos + length t) by lia.
      specialize (Hall 0). rewrite Nat.add_0_r in Hall. rewrite Hall.
      exact K.
Qed.

Lemma gap_mark_take R (k : cont R) pos ws3 t g x :
  blanks ws3 = true -> is_mark t = true ->
  k (pos + length ws3 + length t) [] (set_group 4 t g) = Some x ->
  gmatch (GCat gap (GCat (GGroup 4 mark) GEol)) pos (ws3 ++ t) g k = Some x.
Proof.
  intros Hws Ht K. apply blanks_spec in Hws. destruct Hws as [Hne Hws].
  destruct (is_mark_chars _ Ht) as (_ & Hd & _).
  rewrite gmatch_cat. unfold gap. apply plus_greedy_take; auto.
  - revert Hd. apply head_is_not. apply digit_not_space.
  - apply mark_take; auto.
Qed.

Lemma team_take R (k : cont R) pos team ws3 t g x :
  phrase team = true -> blanks ws3 = true -> is_mark t = true ->
  k (pos + length team + length ws3 + length t) []
    (set_group 4 t (set_group 3 team g)) = Some x ->
  gmatch (GCat (GGroup 3 filler) (GCat gap (GCat (GGroup 4 mark) GEol)))
    pos (team ++ ws3 ++ t) g k = Some x.
Proof.
  intros Hteam Hws Ht K.
  destruct (phrase_spec _ Hteam) as (Hne & Hf & _ & Hl).
  rewrite gmatch_cat, gmatch_group. unfold filler.
  apply plus_lazy_take; auto.
  - intros n Hn.
    destruct (@skipn_inside team (ws3 ++ t) n ltac:(lia)) as [E Hs].
    rewrite E. apply mark_tail_fails; auto.
    + apply forallb_skipn. exact Hf.
    + rewrite last_is_skipn by lia. exact Hl.
  - rewrite firstn_span. apply gap_mark_take; auto.
Qed.

Lemma gap_team_take R (k : cont R) pos ws2 team ws3 t g x :
  blanks ws2 = true -> phrase team = true -> blanks ws3 = true ->
  is_mark t = true ->
  k (pos + length ws2 + length team + length ws3 + length t) []
    (set_group 4 t (set_group 3 team g)) = Some x ->
  gmatch (GCat gap
            (GCat (GGroup 3 filler) (GCat gap (GCat (GGroup 4 mark) GEol))))
    pos (ws2 ++ team ++ ws3 ++ t) g k = Some x.
Proof.
  intros Hws2 Hteam Hws3 Ht K. apply blanks_spec in Hws2.
  destruct Hws2 as [Hne Hws2].
  destruct (phrase_spec _ Hteam) as (Hne' & _ & Hh & _).
  rewrite gmatch_cat. unfold gap at 1. apply plus_greedy_take; auto.
  - rewrite head_is_app by assumption. revert Hh. apply head_is_not.
    apply alpha_not_space.
  - apply team_take; auto.
Qed.

Lemma name_take R (k : cont R) pos name ws2 team ws3 t g x :
  letters name = true -> blanks ws2 = true -> phrase team = true ->
  blanks ws3 = true -> is_mark t = true ->
  k (pos + length name + length ws2 + length team + length ws3 + length t) []
    (set_group 4 t (set_group 3 team (set_group 2 name g))) = Some x ->
  gmatch (GCat (GGroup 2 filler)
            (GCat gap
               (GCat (GGroup 3 filler)
                  (GCat gap (GCat (GGroup 4 mark) GEol)))))
    pos (name ++ ws2 ++ team ++ ws3 ++ t) g k = Some x.
Proof.
  intros Hname Hws2 Hteam Hws3 Ht K. apply letters_spec in Hname.
  destruct Hname as [Hne Hname].
  rewrite gmatch_cat, gmatch_group. unfold filler at 1.
  apply plus_lazy_take; auto.
  - revert Hname. apply forallb_incl. intros c Hc. unfold letter_or_space.
    rewrite Hc. reflexivity.
  - intros n Hn.
    destruct (@skipn_inside name (ws2 ++ team ++ ws3 ++ t) n ltac:(lia))
      as [E Hs].
    rewrite E. apply gap_fails. rewrite head_is_app by assumption.
    apply head_is_not with (q := is_alpha); [apply alpha_not_space|].
    apply head_is_in; auto. apply forallb_skipn. exact Hname.
  - rewrite firstn_span. apply gap_team_take; auto.
Qed.

(** The match of a line of place, one word, a phrase and a mark: the word
    is group 2 and the phrase group 3. *)
Lemma re_match_first_word place ws1 name ws2 team ws3 t :
  digits place = true -> blanks ws1 = true -> letters name = true ->
  blanks ws2 = true -> phrase team = true -> blanks ws3 = true ->
  is_mark t = true ->
  re_match pattern (place ++ ws1 ++ name ++ ws2 ++ team ++ ws3 ++ t) =
  Some [(4, t); (3, team); (2, name); (1, place)].
Proof.
  intros Hpl Hws1 Hname Hws2 Hteam Hws3 Ht.
  apply digits_spec in Hpl. destruct Hpl as [Hne Hpl].
  pose proof Hws1 as Hws1'. apply blanks_spec in Hws1'.
  destruct Hws1' as [Hne1 Hb1].
  pose proof Hname as Hname'. apply letters_spec in Hname'.
  destruct Hname' as [Hnen Hl].
  unfold re_match, pattern. cbn [GSeq].
  rewrite gmatch_cat.
  change (gmatch GBol 0 ?s ?g ?k) with (k 0 s g). cbv beta.
  rewrite gmatch_cat, gmatch_group. apply plus_greedy_take; auto.
  - rewrite head_is_app by assumption.
    apply head_is_not with (q := is_space).
    + intros c Hc. destruct (is_digit c) eqn:E; [|reflexivity].
      rewrite (digit_not_space _ E) in Hc. discriminate.
    + apply head_is_in; auto.
  - rewrite firstn_span. rewrite gmatch_cat. unfold gap at 1.
    apply plus_greedy_take; auto.
    + rewrite head_is_app by assumption.
      apply head_is_not with (q := is_alpha); [apply alpha_not_space|].
      apply head_is_in; auto.
    + apply name_take; auto.
Qed.

(** *** Trimmed fields *)

Lemma head_is_clean (p : ascii -> bool) (w : str) :
  (forall c, p c = true -> is_space c = false) ->
  head_is p w = true -> head_clean w.
Proof.
  destruct w as [|c w]; simpl; auto.
Qed.

Lemma no_space_clean (w : str) :
  forallb (fun c => negb (is_space c)) w = true ->
  head_clean w /\ last_clean w.
Proof.
  intros H. rewrite forallb_forall in H. unfold last_clean. split.
  - destruct w as [|c w]; simpl; auto.
    apply negb_true_iff. apply H. left. reflexivity.
  - destruct (rev w) as [|c v] eqn:E; simpl; auto.
    apply negb_true_iff. apply H. apply in_rev. rewrite E. left. reflexivity.
Qed.

Lemma class_clean (p : ascii -> bool) (w : str) :
  (forall c, p c = true -> is_space c = false) ->
  forallb p w = true -> head_clean w /\ last_clean w.
Proof.
  intros Hp Hw. apply no_space_clean. revert Hw. apply forallb_incl.
  intros c Hc. rewrite (Hp c Hc). reflexivity.
Qed.

Lemma phrase_clean w : phrase w = true -> strip w = w.
Proof.
  intros H. destruct (phrase_spec _ H) as (_ & _ & Hh & Hl).
  apply strip_clean.
  - revert Hh. apply head_is_clean. apply alpha_not_space.
  - unfold last_clean. revert Hl. unfold last_is.
    apply head_is_clean. apply alpha_not_space.
Qed.

Lemma letters_clean w : letters w = true -> strip w = w.
Proof.
  intros H. apply letters_spec in H. destruct H as [_ H].
  destruct (@class_clean is_alpha w alpha_not_space H). apply strip_clean; auto.
Qed.

Lemma first_word_line_clean place ws1 name ws2 team ws3 t :
  digits place = true -> is_mark t = true ->
  let s := place ++ ws1 ++ name ++ ws2 ++ team ++ ws3 ++ t in
  s <> [] /\ head_clean s /\ last_clean s.
Proof.
  intros Hpl Ht s. apply digits_spec in Hpl. destruct Hpl as [Hne Hpl].
  destruct (is_mark_chars _ Ht) as (Hnt & _ & Hc).
  repeat split.
  - subst s. destruct place; [congruence|discriminate].
  - subst s. destruct place as [|c place]; [congruence|]. simpl.
    simpl in Hpl. apply andb_true_iff in Hpl.
    apply digit_not_space. tauto.
  - subst s. unfold last_clean. rewrite !rev_app_distr.
    destruct (@no_space_clean t Hc) as [_ Hl]. unfold last_clean in Hl.
    destruct (rev t) as [|c v] eqn:E; [|exact Hl].
    apply (f_equal (@length ascii)) in E. rewrite length_rev in E.
    destruct t; [congruence|discriminate].
Qed.

(** X16: in the text fallback the NAME is the first word only.  A line
    that after trimming is a place of digits 0 to 9, a word of the letters
    A to Z and a to z, a phrase of such letters and white space and a mark,
    separated by white space, gives the record whose NAME is the word and
    whose TEAM is the phrase, however many words the phrase has: the lazy
    second group stops at the first white space.  A word with any other
    letter, an accented one for instance, is not such a word. *)
Theorem name_is_the_first_word text file line place ws1 name ws2 team ws3 t :
  In line (split_lines text) ->
  strip line = place ++ ws1 ++ name ++ ws2 ++ team ++ ws3 ++ t ->
  digits place = true -> blanks ws1 = true -> letters name = true ->
  blanks ws2 = true -> phrase team = true -> blanks ws3 = true ->
  is_mark t = true ->
  record_of_line file line = [mkRow place name team t file []] /\
  In (mkRow place name team t file []) (extract_from_text text file).
Proof.
  intros Hin Hs Hpl Hws1 Hname Hws2 Hteam Hws3 Ht.
  assert (E : record_of_line file line = [mkRow place name team t file []]).
  { unfold record_of_line. rewrite Hs.
    destruct (@first_word_line_clean place ws1 name ws2 team ws3 t Hpl Ht)
      as (Hne & _).
    pose proof (@re_match_first_word place ws1 name ws2 team ws3 t
                  Hpl Hws1 Hname Hws2 Hteam Hws3 Ht) as M.
    destruct (place ++ ws1 ++ name ++ ws2 ++ team ++ ws3 ++ t);
      [congruence|].
    rewrite M. cbn [group Nat.eqb].
    rewrite (letters_clean _ Hname), (phrase_clean _ Hteam). reflexivity. }
  split; [exact E|].
  unfold extract_from_text. apply in_flat_map. exists line.
  split; [exact Hin|]. rewrite E. left. reflexivity.
Qed.

Lemma name_is_the_first_word_witness :
  record_of_line "results.pdf" "1 John Smith University of State 21.45" =
  [mkRow "1" "John" "Smith University of State" "21.45" "results.pdf" []].
Proof.
  assert (Hin : In ("1 John Smith University of State 21.45" : str)
                  (split_lines "Mens 200 Meters
1 John Smith University of State 21.45")).
  { vm_compute. right. left. reflexivity. }
  assert (Hs : strip "1 John Smith University of State 21.45" =
               ("1" : str) ++ (" " : str) ++ ("John" : str) ++ (" " : str) ++
               ("Smith University of State" : str) ++ (" " : str) ++
               ("21.45" : str)).
  { vm_compute. reflexivity. }
  assert (H1 : digits "1" = true) by (vm_compute; reflexivity).
  assert (H2 : blanks " " = true) by (vm_compute; reflexivity).
  assert (H3 : letters "John" = true) by (vm_compute; reflexivity).
  assert (H4 : phrase "Smith University of State" = true)
    by (vm_compute; reflexivity).
  assert (H5 : is_mark "21.45" = true) by (vm_compute; reflexivity).
  exact (proj1 (@name_is_the_first_word _ "results.pdf" _ _ _ _ _ _ _ _
                  Hin Hs H1 H2 H3 H2 H4 H2 H5)).
Defined.

(** A word with a letter outside A to Z and a to z is no such word: the
    line of the example with Jos and U+00E9 for the first name gives no
    record. *)
Lemma accented_word_gives_no_record :
  record_of_line "results.pdf"
    (("1 Jos" : str) ++ [ascii_of_nat 233] ++
     (" Smith University of State 21.45" : str)) = [].
Proof.
  vm_compute. reflexivity.
Qed.

(** X17: every record of the text fallback comes from a line of the text
    that after trimming is PL, white space, a filling, white space, a
    filling, white space and TIME, in which PL is digits 0 to 9, TIME is a
    mark and the fillings are the letters A to Z, a to z and white space;
    NAME and TEAM are the trimmed fillings, the source file is the one
    given and the event date is empty. *)
Theorem fallback_record_fields text file r :
  In r (extract_from_text text file) ->
  exists line x y,
    In line (split_lines text) /\
    fallback_shape (strip line) (PL r) x y (TIME r) /\
    NAME r = strip x /\ TEAM r = strip y /\
    SOURCE_FILE r = file /\ EVENT_DATE r = [].
Proof.
  unfold extract_from_text. intros Hin. apply in_flat_map in Hin.
  destruct Hin as (line & Hline & Hr).
  destruct (record_of_line_cases file line)
    as [[E _]|(pl & x & y & t & Hshape & E)];
    rewrite E in Hr; [destruct Hr|].
  destruct Hr as [<-|[]].
  exists line, x, y. simpl. auto 10.
Qed.

Lemma fallback_record_fields_witness :
  exists line x y,
    In line (split_lines "1 Ann Lee State 9:59") /\
    fallback_shape (strip line) "1" x y "9:59" /\
    ("Ann" : str) = strip x /\ ("Lee State" : str) = strip y /\
    ("f.pdf" : str) = "f.pdf" /\ ([] : str) = [].
Proof.
  apply (@fallback_record_fields "1 Ann Lee State 9:59" "f.pdf"
           (mkRow "1" "Ann" "Lee State" "9:59" "f.pdf" [])).
  vm_compute. left. reflexivity.
Defined.

(** X18: a line gives one record exactly when its trimmed text has the
    shape of the fallback pattern, and no record otherwise; the groups may
    be cut in several ways, the line matches when one way exists. *)
Theorem fallback_lines_that_match file line :
  ((exists r, record_of_line file line = [r]) <->
   (exists pl x y t, fallback_shape (strip line) pl x y t)) /\
  (record_of_line file line = [] <->
   (forall pl x y t, ~ fallback_shape (strip line) pl x y t)).
Proof.
  destruct (record_of_line_cases file line)
    as [[E Hno]|(pl & x & y & t & Hshape & E)].
  - split; split.
    + intros (r & Hr). congruence.
    + intros (pl & x & y & t & H). destruct (Hno _ _ _ _ H).
    + intros _. exact Hno.
    + intros _. exact E.
  - split; split.
    + intros _. eauto.
    + intros _. eauto.
    + intros E'. congruence.
    + intros Hno. destruct (Hno _ _ _ _ Hshape).
Qed.

(** *** The pages of a file *)

Lemma process_table_clean table source_file r :
  In r (process_table table source_file) ->
  Forall (fun f => head_clean f /\ last_clean f) (Terms.cell_fields r) /\
  SOURCE_FILE r = source_file.
Proof.
  destruct table as [|header [|row rows]]; try (intros []).
  rewrite TableFacts.process_table_rows. cbv zeta.
  destruct (negb _); [intros []|].
  intros Hin. apply in_flat_map in Hin.
  destruct Hin as (row0 & _ & Hr). unfold Terms.row_records in Hr.
  destruct row0 as [|c0 row0]; [destruct Hr|].
  destruct (_ <? _); [destruct Hr|].
  destruct (extract_record_from_row _ _ _) as [rec|] eqn:E; [|destruct Hr].
  destruct Hr as [<-|[]]. eapply TableFacts.record_from_row_clean; eauto.
Qed.

Lemma fallback_record_clean text file r :
  In r (extract_from_text text file) ->
  Forall (fun f => head_clean f /\ last_clean f) (Terms.cell_fields r) /\
  SOURCE_FILE r = file.
Proof.
  unfold extract_from_text. intros Hin. apply in_flat_map in Hin.
  destruct Hin as (line & Hline & Hr).
  destruct (record_of_line_cases file line)
    as [[E _]|(pl & x & y & t & Hshape & E)];
    rewrite E in Hr; [destruct Hr|].
  destruct Hr as [<-|[]].
  destruct Hshape as (ws1 & ws2 & ws3 & _ & Hpl & _ & _ & _ & _ & _ & Ht).
  apply digits_spec in Hpl. destruct Hpl as [_ Hpl].
  destruct (is_mark_chars _ Ht) as (_ & _ & Hc).
  split; [|reflexivity]. unfold Terms.cell_fields. simpl.
  repeat constructor; try apply strip_head; try apply strip_last;
    try apply (@class_clean is_digit pl digit_not_space Hpl);
    try apply (@no_space_clean t Hc).
Qed.

(** X19: every record of a PDF file, from a table or from the text of a
    page, carries the name of the file and fields without white space at
    either end; a page without text gives no record, whatever tables it
    has, and a page with text and a table gives the records of its tables
    only. *)
Theorem pdf_records_of_pages pdf name :
  (forall r,
      In r (extract_data_from_pdf pdf name) ->
      Forall (fun f => head_clean f /\ last_clean f) (Terms.cell_fields r) /\
      SOURCE_FILE r = name) /\
  (forall tables,
      page_records name (mkPage None tables) = [] /\
      page_records name (mkPage (Some []) tables) = []) /\
  (forall c text table tables,
      page_records name (mkPage (Some (c :: text)) (table :: tables)) =
      flat_map (fun tb => process_table tb name) (table :: tables)).
Proof.
  split; [|split; [split; reflexivity|reflexivity]].
  intros r Hin. destruct pdf as [pages|]; [|destruct Hin].
  simpl in Hin. apply in_flat_map in Hin.
  destruct Hin as (page & _ & Hr). unfold page_records in Hr.
  destruct (extract_text page) as [[|c text]|]; try destruct Hr.
  destruct (extract_tables page) as [|table tables].
  - eapply fallback_record_clean; eauto.
  - apply in_flat_map in Hr. destruct Hr as (tb & _ & Hr).
    eapply process_table_clean; eauto.
Qed.

(** *** A line without a name *)

Lemma lstrip_blank w : forallb is_space w = true -> lstrip w = [].
Proof.
  induction w as [|c w IH]; simpl; auto. intros H.
  apply andb_true_iff in H. destruct H as [Hc Hw]. rewrite Hc. auto.
Qed.

Lemma strip_blank w : forallb is_space w = true -> strip w = [].
Proof.
  intros H. unfold strip, rstrip. rewrite (lstrip_blank _ H). reflexivity.
Qed.

Lemma forallb_rev (p : ascii -> bool) (w : str) :
  forallb p w = true -> forallb p (rev w) = true.
Proof.
  rewrite !forallb_forall. intros H c Hc. apply H. apply in_rev. exact Hc.
Qed.

Lemma last_is_in (p : ascii -> bool) (w : str) :
  w <> [] -> forallb p w = true -> last_is p w = true.
Proof.
  intros Hne Hw. unfold last_is. apply head_is_in.
  - intros E. apply Hne. rewrite <- (rev_involutive w), E. reflexivity.
  - apply forallb_rev. exact Hw.
Qed.

Lemma last_is_app (p : ascii -> bool) (a w : str) :
  w <> [] -> last_is p (a ++ w) = last_is p w.
Proof.
  intros Hne. unfold last_is. rewrite rev_app_distr. apply head_is_app.
  intros E. apply Hne. rewrite <- (rev_involutive w), E. reflexivity.
Qed.

(** A list splits in one way only behind its last element outside a
    class. *)
Lemma suffix_unique (P Q : ascii -> bool) (a a' b b' : str) :
  (forall c, Q c = true -> P c = false) ->
  forallb P b = true -> forallb P b' = true ->
  last_is Q a = true -> last_is Q a' = true ->
  a ++ b = a' ++ b' -> a = a' /\ b = b'.
Proof.
  intros HQ Hb Hb' Ha Ha' E. unfold last_is in Ha, Ha'.
  apply (f_equal (@rev ascii)) in E. rewrite !rev_app_distr in E.
  destruct (rev a) as [|x ra] eqn:Ea; [discriminate|].
  destruct (rev a') as [|x' ra'] eqn:Ea'; [discriminate|].
  simpl in Ha, Ha'.
  destruct (@DateFacts.split_unique P (rev b) (rev b') x x' ra ra')
    as (E1 & E2 & E3); auto using forallb_rev.
  split.
  - rewrite <- (rev_involutive a), <- (rev_involutive a'), Ea, Ea'.
    congruence.
  - rewrite <- (rev_involutive b), <- (rev_involutive b'). congruence.
Qed.

Lemma space_not_digit c : is_space c = true -> is_digit c = false.
Proof.
  intros H. destruct (is_digit c) eqn:E; [|reflexivity].
  rewrite (digit_not_space _ E) in H. discriminate.
Qed.

(** X21: the fallback takes a line without any name.  A line that after
    trimming is a place of digits, five or more characters of white space
    and a mark gives a record whose NAME and TEAM are empty: the two groups
    between place and mark may hold white space alone. *)
Theorem blank_line_gives_a_nameless_record file line place ws t :
  strip line = place ++ ws ++ t -> digits place = true ->
  forallb is_space ws = true -> 5 <= length ws -> is_mark t = true ->
  record_of_line file line = [mkRow place [] [] t file []].
Proof.
  intros Hs Hpl Hws Hlen Ht.
  destruct (record_of_line_cases file line)
    as [[_ Hno]|(pl & x & y & t' & Hshape & E)].
  - exfalso.
    destruct ws as [|a [|b [|c [|d [|e ws]]]]]; simpl in Hlen; try lia.
    simpl in Hws.
    repeat (apply andb_true_iff in Hws; destruct Hws as [? Hws]).
    apply (Hno place [b] [d] t). exists [a], [c], (e :: ws).
    rewrite Hs. simpl. unfold letter_or_space.
    repeat match goal with H : is_space _ = true |- _ => rewrite H; clear H end.
    rewrite Hws, !orb_true_r. simpl. auto 10.
  - rewrite E.
    destruct Hshape as (ws1 & ws2 & ws3 & Heq & Hpl' & Hb1 & Hx & Hb2 & Hy
                        & Hb3 & Ht').
    rewrite Hs in Heq.
    apply digits_spec in Hpl, Hpl'. apply blanks_spec in Hb1, Hb2, Hb3.
    apply filling_spec in Hx, Hy.
    destruct ws as [|a ws']; [simpl in Hlen; lia|].
    destruct ws1 as [|a1 ws1']; [tauto|].
    assert (Ha : is_space a = true).
    { simpl in Hws. apply andb_true_iff in Hws. tauto. }
    assert (Ha1 : is_space a1 = true).
    { destruct Hb1 as [_ Hb1]. simpl in Hb1. apply andb_true_iff in Hb1.
      tauto. }
    destruct (@DateFacts.split_unique is_digit place pl a a1
                (ws' ++ t) (ws1' ++ x ++ ws2 ++ y ++ ws3 ++ t'))
      as (E1 & E2 & E3); try tauto; try (apply space_not_digit; assumption).
    subst pl a1.
    assert (E4 : (a :: ws') ++ t =
                 ((a :: ws1') ++ x ++ ws2 ++ y ++ ws3) ++ t').
    { simpl. rewrite E3. rewrite <- !app_assoc. reflexivity. }
    destruct (is_mark_chars _ Ht) as (_ & _ & Hc).
    destruct (is_mark_chars _ Ht') as (_ & _ & Hc').
    destruct (@suffix_unique (fun c => negb (is_space c)) is_space
                (a :: ws') ((a :: ws1') ++ x ++ ws2 ++ y ++ ws3) t t')
      as (E5 & E6); auto.
    + intros c0 Hc0. rewrite Hc0. reflexivity.
    + apply last_is_in; [discriminate|exact Hws].
    + rewrite !app_assoc. rewrite last_is_app by tauto.
      apply last_is_in; tauto.
    + subst t'. rewrite E5 in Hws.
      rewrite !forallb_app in Hws.
      repeat (apply andb_true_iff in Hws; destruct Hws as [? Hws]).
      rewrite (strip_blank x), (strip_blank y) by assumption.
      reflexivity.
Qed.

Lemma blank_line_gives_a_nameless_record_witness :
  record_of_line "f.pdf" "7     12.5" = [mkRow "7" [] [] "12.5" "f.pdf" []].
Proof.
  assert (Hs : strip "7     12.5" =
               ("7" : str) ++ ("     " : str) ++ ("12.5" : str))
    by (vm_compute; reflexivity).
  assert (H1 : digits "7" = true) by (vm_compute; reflexivity).
  assert (H2 : forallb is_space "     " = true) by (vm_compute; reflexivity).
  assert (H3 : 5 <= length (list_ascii_of_string "     "))
    by (vm_compute; lia).
  assert (H4 : is_mark "12.5" = true) by (vm_compute; reflexivity).
  exact (@blank_line_gives_a_nameless_record "f.pdf" _ _ _ _ Hs H1 H2 H3 H4).
Defined.

End FallbackFacts.

Module DateMore.

Import Py Re ReFacts DateFacts Final.

Lemma findall_none r s : re_search r s = None -> findall r s = [].
Proof.
  intros H. rewrite findall_search, H. reflexivity.
Qed.

Lemma findall_some r s : findall r s = [] -> re_search r s = None.
Proof.
  rewrite findall_search. destruct (re_search r s) as [[st e]|];
    [discriminate|reflexivity].
Qed.

(** A word of three letters and a day and year is a word of letters and a
    day and year. *)
Lemma short_month_is_month pos w rest :
  lang (Seq (Rep 3 alpha :: day_year)) pos w rest ->
  lang (Seq (Plus alpha :: day_year)) pos w rest.
Proof.
  change (Seq (Rep 3 alpha :: day_year))
    with (Cat (Rep 3 alpha) (Seq day_year)).
  change (Seq (Plus alpha :: day_year))
    with (Cat (Plus alpha) (Seq day_year)).
  intros L. inversion L as [| |? ? ? w1 w2 ? L1 L2| | | | | |]; subst.
  constructor; [|exact L2].
  apply lang_plus_cls.
  - pose proof (@lang_rep_cls_length is_alpha 3 _ _ _ L1) as Hlen.
    intros ->. discriminate.
  - apply (@all_in_spec is_alpha (Rep 3 alpha) _ _ _ L1).
    vm_compute. reflexivity.
Qed.

Lemma no_month_no_short_month text :
  findall (Seq (Plus alpha :: day_year)) text = [] ->
  findall (Seq (Rep 3 alpha :: day_year)) text = [].
Proof.
  intros H. apply findall_none. apply re_search_none.
  apply findall_some in H. apply re_search_none in H.
  intros (pre & w & rest & Hs & L). apply H.
  exists pre, w, rest. split; [exact Hs|]. apply short_month_is_month.
  exact L.
Qed.

(** X20: the second and the fifth date pattern never decide.  A text with a
    match of the three-letter month pattern has a match of the month pattern
    before it in the list, and the fifth pattern is the fourth again, so the
    date is the one the first, third and fourth pattern give. *)
Theorem second_and_fifth_date_pattern_are_dead text :
  extract_event_date text =
  first_date [ nth 0 date_patterns Eps; nth 2 date_patterns Eps;
               nth 3 date_patterns Eps ] text /\
  (occurs (nth 1 date_patterns Eps) text ->
   occurs (nth 0 date_patterns Eps) text) /\
  nth 4 date_patterns Eps = nth 3 date_patterns Eps.
Proof.
  split; [|split; [|reflexivity]].
  - unfold extract_event_date, date_patterns. cbn [nth first_date].
    destruct (findall (Seq (Plus alpha :: day_year)) text) as [|m ms] eqn:E1;
      [|reflexivity].
    rewrite (no_month_no_short_month _ E1). clear E1.
    destruct (findall _ text) as [|m ms]; [|reflexivity].
    destruct (findall _ text) as [|m ms]; reflexivity.
  - unfold date_patterns. cbn [nth].
    intros (pre & w & rest & Hs & L). exists pre, w, rest.
    split; [exact Hs|]. apply short_month_is_month. exact L.
Qed.

End DateMore.

Module PageFacts.

Import Py Html Dom Terms CsvFacts DomFacts.

Lemma dict_get_in {V} (k : str) (v : V) d :
  dict_get k d = Some v -> In (k, v) d.
Proof.
  induction d as [|[k0 v0] d IH]; simpl; [discriminate|].
  destruct (str_eqb_spec k0 k) as [->|Hne].
  - intros H. inversion H; subst. left. reflexivity.
  - intros H. right. auto.
Qed.

Lemma in_dict_get {V} (k : str) (v : V) d :
  NoDup (map fst d) -> In (k, v) d -> dict_get k d = Some v.
Proof.
  induction d as [|[k0 v0] d IH]; simpl; intros Hn Hin; [destruct Hin|].
  inversion Hn as [|? ? Hnot Hn']; subst.
  destruct Hin as [H|H].
  - inversion H; subst. destruct (str_eqb_spec k k); congruence.
  - destruct (str_eqb_spec k0 k) as [->|Hne]; [|auto].
    exfalso. apply Hnot. apply (in_map fst) in H. exact H.
Qed.

Lemma table_rows_length name data :
  length (table_rows name data) =
  match data with
  | Some d => length (rows d)
  | None => 0
  end.
Proof.
  unfold table_rows. destruct data as [d|]; [|reflexivity].
  destruct (rows d) as [|r rs] eqn:E; [reflexivity|].
  rewrite length_map, length_combine, length_seq. lia.
Qed.

Lemma flat_map_length_sum {A B} (f : A -> list B) l :
  length (flat_map f l) = list_sum (map (fun x => length (f x)) l).
Proof.
  induction l as [|x l IH]; simpl; [reflexivity|].
  rewrite length_app, IH. reflexivity.
Qed.

(** X22: from the page to the combined file.  Every row of every table
    that [find_all_tables] stores is written to the combined file after the
    name of its table and its number from 1, nothing else is written but
    the header line, and the file has one line for the header and one for
    each stored row: no stored table is passed over. *)
Theorem stored_rows_reach_the_combined_file tables :
  (forall out,
      In out (combined_rows (find_all_tables tables)) <->
      out = combined_header \/
      exists name d n row,
        dict_get name (find_all_tables tables) = Some (Some d) /\
        nth_error (rows d) n = Some row /\
        out = [FStr name; FInt (S n)] ++ map FStr (padded_row row)) /\
  length (combined_rows (find_all_tables tables)) =
  1 + list_sum
        (map (fun nd : str * option TableData =>
                match snd nd with
                | Some d => length (rows d)
                | None => 0
                end)
           (find_all_tables tables)).
Proof.
  destruct (find_all_tables_invariant tables) as [Hn _].
  split.
  - intros out. unfold combined_rows. simpl. rewrite in_flat_map. split.
    + intros [H|([name v] & Hin & Hout)]; [left; auto|right].
      apply table_rows_spec in Hout.
      destruct Hout as (d & n & row & Hv & Hrow & ->). simpl in Hv. subst v.
      exists name, d, n, row. repeat split; auto.
      apply in_dict_get; auto.
    + intros [H|(name & d & n & row & Hget & Hrow & ->)]; [left; auto|right].
      exists (name, Some d). split; [apply dict_get_in; exact Hget|].
      apply table_rows_spec. exists d, n, row. auto.
  - unfold combined_rows. cbn [length]. rewrite flat_map_length_sum.
    change (1 + ?n) with (S n). f_equal. f_equal.
    apply map_ext. intros [name v]. apply table_rows_length.
Qed.

End PageFacts.

(* ================================================================= *)
(** ** Text beyond ASCII *)

Module Latin1Facts.

Import Py.

(** The no-break space U+00A0 is white space to the text path: it stands
    between the words of a header and between the tokens of a line; and a
    place of the superscript two alone passes [isdigit]. *)
Lemma no_break_space_separates_tokens :
  let nbsp : str := [ascii_of_nat 160] in
  Final.extract_from_text
    (Spec.text_of
       [ ("PL" : str) ++ nbsp ++ ("NAME TEAM TIME" : str);
         ("1 John Smith" : str) ++ nbsp ++ ("University of X 12.3" : str);
         [ascii_of_nat 178] ++ (" Ana Diaz UPR Ponce 12.3" : str) ])
    "f.pdf" =
  Ok [ Final.mkRow "1" "John Smith" "" "University of X" "12.3" "f.pdf" "";
       Final.mkRow [ascii_of_nat 178] "Ana Diaz" "" "UPR Ponce" "12.3"
                   "f.pdf" "" ].
Proof.
  vm_compute. reflexivity.
Qed.

(** With a no-break space between its words a line of capitals is still a
    section line, and ends the table. *)
Lemma no_break_space_in_a_section_line :
  Final.extract_from_text
    (Spec.text_of
       [ "PL NAME TEAM TIME" : str;
         "1 John Smith University of X 12.3" : str;
         ("FINAL" : str) ++ [ascii_of_nat 160] ++ ("RESULTS" : str);
         "2 Ana Diaz UPR Ponce 12.3" : str ])
    "f.pdf" =
  Ok [ Final.mkRow "1" "John Smith" "" "University of X" "12.3" "f.pdf" "" ].
Proof.
  vm_compute. reflexivity.
Qed.

(** The cell text of a page and the line of the text fallback. *)
Lemma no_break_space_in_a_cell :
  Dom.collapse_ws
    (("John" : str) ++ [ascii_of_nat 160; ascii_of_nat 160] ++
     ("Smith" : str)) = ("John Smith" : str).
Proof.
  vm_compute. reflexivity.
Qed.

Lemma no_break_space_in_the_fallback :
  Fallback.record_of_line "f.pdf"
    (("1 John" : str) ++ [ascii_of_nat 160] ++ ("Smith State 21.45" : str)) =
  [ Tables.mkRow "1" "John" "Smith State" "21.45" "f.pdf" [] ].
Proof.
  vm_compute. reflexivity.
Qed.

(** Upper-casing the sharp s gives two letters, so that a header [po]
    followed by it holds the keyword POS; lower-casing reaches the accented
    capitals. *)
Lemma sharp_s_and_accented_capitals :
  upper (("po" : str) ++ [ascii_of_nat 223]) = ("POSS" : str) /\
  Terms.field_of (("po" : str) ++ [ascii_of_nat 223]) = Some Terms.FPL /\
  Dom.lower [ascii_of_nat 211] = [ascii_of_nat 243].
Proof.
  repeat split; vm_compute; reflexivity.
Qed.

End Latin1Facts.
